(** * koishi-plugin-novelai: [src/utils.ts]

    A shallow embedding of the helper functions of the NovelAI plugin
    ([closestMultiple], [resizeInput], [download], [calcAccessKey]) and the
    properties of these functions.

    JavaScript numbers are IEEE 754 binary64 values.  They are modelled by
    [spec_float], the specification of binary64 arithmetic that ships with
    the prover (precision 53, maximal exponent 1024, round to nearest even),
    so every arithmetic operator below rounds exactly as the source does.

    Strings are sequences of code units below 256.  What the module imports
    is taken as a parameter: the HTTP client of the context, the built-in
    conversions [+] and [atob], and the hash functions of libsodium. *)

From Stdlib Require Import ZArith PArith Bool List Lia String Ascii.
From Stdlib Require Import Floats.SpecFloat.
Import ListNotations.

Local Open Scope Z_scope.

(** ** JavaScript numbers *)

Module Js.

Definition prec : Z := 53.
Definition emax : Z := 1024.

Definition number : Type := spec_float.

Definition NaN : number := S754_nan.
Definition Infinity : number := S754_infinity false.

(** The number denoted by an integer literal. *)
Definition of_Z (z : Z) : number := binary_normalize prec emax z 0 false.

Definition valid (x : number) : bool := valid_binary prec emax x.

(** Arithmetic operators [*], [/], [-]. *)
Definition mul (x y : number) : number := SFmul prec emax x y.
Definition div (x y : number) : number := SFdiv prec emax x y.
Definition sub (x y : number) : number := SFsub prec emax x y.

(** Relational operators [<], [>], [<=] and strict equality [===];
    every comparison with NaN is false and [+0 === -0]. *)
Definition lt (x y : number) : bool := SFltb x y.
Definition gt (x y : number) : bool := SFltb y x.
Definition le (x y : number) : bool := SFleb x y.
Definition strict_eq (x y : number) : bool := SFeqb x y.

Definition isNaN (x : number) : bool :=
  match x with
  | S754_nan => true
  | _ => false
  end.

(** [Math.floor]: a finite number with a non-negative exponent is an
    integer already; otherwise the signed mantissa is shifted right, which
    rounds towards minus infinity.  A zero result keeps the sign of the
    argument. *)
Definition floor (x : number) : number :=
  match x with
  | S754_finite s m e =>
      if 0 <=? e then x
      else binary_normalize prec emax
             (Z.shiftr (cond_Zopp s (Zpos m)) (- e)) 0 s
  | _ => x
  end.

(** [Math.ceil] is [- floor (- x)]. *)
Definition ceil (x : number) : number :=
  match x with
  | S754_finite s m e =>
      if 0 <=? e then x
      else binary_normalize prec emax
             (- Z.shiftr (- cond_Zopp s (Zpos m)) (- e)) 0 s
  | _ => x
  end.

(** The remainder operator [%]: the result has the sign of the dividend
    and is computed without rounding. *)
Definition rem (x y : number) : number :=
  match x, y with
  | S754_nan, _ | _, S754_nan => S754_nan
  | S754_infinity _, _ => S754_nan
  | _, S754_zero _ => S754_nan
  | S754_zero _, _ => x
  | S754_finite _ _ _, S754_infinity _ => x
  | S754_finite sx mx ex, S754_finite sy my ey =>
      let ez := Z.min ex ey in
      let a := Zpos (fst (shl_align mx ex ez)) in
      let b := Zpos (fst (shl_align my ey ez)) in
      binary_normalize prec emax (cond_Zopp sx (a mod b)) ez sx
  end.

End Js.

(** ** [closestMultiple] and [resizeInput] *)

Definition zero : Js.number := Eval cbv in Js.of_Z 0.
Definition one : Js.number := Eval cbv in Js.of_Z 1.
Definition n64 : Js.number := Eval cbv in Js.of_Z 64.
Definition n512 : Js.number := Eval cbv in Js.of_Z 512.
Definition n1024 : Js.number := Eval cbv in Js.of_Z 1024.

Definition MAX_OUTPUT_SIZE : Js.number := Eval cbv in Js.of_Z 1048576.
Definition MAX_CONTENT_SIZE : Js.number := Eval cbv in Js.of_Z 10485760.

Definition closestMultiple (num mult : Js.number) : Js.number :=
  let numInt := num in
  let floor := Js.mul (Js.floor (Js.div numInt mult)) mult in
  let ceil := Js.mul (Js.ceil (Js.div numInt mult)) mult in
  let closest :=
    if Js.lt (Js.sub numInt floor) (Js.sub ceil numInt) then floor else ceil in
  if Js.isNaN closest then zero
  else if Js.le closest zero then mult else closest.

Record Size : Type := mkSize { width : Js.number; height : Js.number }.

(** The two early [return]s of the second block fall through to the third
    block, bound here as [fallback]. *)
Definition resizeInput (size : Size) : Size :=
  let width := size.(width) in
  let height := size.(height) in
  if Js.strict_eq (Js.rem width n64) zero
     && Js.strict_eq (Js.rem height n64) zero
     && Js.le (Js.mul width height) MAX_OUTPUT_SIZE
  then mkSize width height
  else
    let aspectRatio := Js.div width height in
    let fallback :=
      if Js.gt aspectRatio one then
        let width := n1024 in
        let height := closestMultiple (Js.div width aspectRatio) n64 in
        mkSize width height
      else
        let height := n1024 in
        let width := closestMultiple (Js.mul height aspectRatio) n64 in
        mkSize width height in
    if Js.gt aspectRatio one then
      let height := n512 in
      let width := closestMultiple (Js.mul height aspectRatio) n64 in
      if Js.le (Js.mul width height) MAX_OUTPUT_SIZE
      then mkSize width height else fallback
    else
      let width := n512 in
      let height := closestMultiple (Js.div width aspectRatio) n64 in
      if Js.le (Js.mul width height) MAX_OUTPUT_SIZE
      then mkSize width height else fallback.

(** ** Predicates and auxiliary definitions of the proofs *)

(** A finite number, or the infinity of its sign when the exponent exceeds
    the largest one of the format. *)
Definition overflow_or (s : bool) (m : positive) (e : Z) : Js.number :=
  if e <=? 971 then S754_finite s m e else S754_infinity s.

(** The number with sign [s], rounded mantissa [m] (between 0 and [2 ^ 53])
    and exponent [e]: a mantissa of [2 ^ 53] carries into the exponent. *)
Definition pack (s : bool) (m e : Z) : Js.number :=
  if m =? 0 then S754_zero s
  else if m =? 2 ^ 53 then overflow_or s (Z.to_pos (2 ^ 52)) (e + 1)
  else overflow_or s (Z.to_pos m) e.

(** [x] is not NaN and has sign [s]. *)
Definition signed (s : bool) (x : Js.number) : Prop :=
  x = S754_zero s \/ x = S754_infinity s \/ exists m e, x = S754_finite s m e.

(** [m * 2 ^ e] is an integer. *)
Definition integer_valued (m : positive) (e : Z) : bool :=
  (0 <=? e) || (Zpos m mod 2 ^ (- e) =? 0).

(** [m * 2 ^ e] is an integer multiple of 64. *)
Definition multiple_of_64 (m : positive) (e : Z) : bool :=
  (6 <=? e) || (Zpos m mod 2 ^ (6 - e) =? 0).

(** [x] has sign [s] and is a zero, an infinity or a non-zero integer. *)
Definition integral (s : bool) (x : Js.number) : Prop :=
  x = S754_zero s \/ x = S754_infinity s
  \/ exists m e, x = S754_finite s m e
       /\ bounded Js.prec Js.emax m e = true
       /\ Zdigits2 (Zpos m) = 53
       /\ integer_valued m e = true.

(** [x] has sign [s] and is a zero, an infinity or a non-zero multiple of
    64. *)
Definition integral_multiple_of_64 (s : bool) (x : Js.number) : Prop :=
  x = S754_zero s \/ x = S754_infinity s
  \/ exists m e, x = S754_finite s m e
       /\ bounded Js.prec Js.emax m e = true
       /\ multiple_of_64 m e = true.

(** The test [x % 64 === 0] of the source. *)
Definition is_multiple_of_64 (x : Js.number) : bool :=
  Js.strict_eq (Js.rem x n64) zero.

(** The value of [x] is an integer multiple of 64. *)
Definition represents_multiple_of_64 (x : Js.number) : bool :=
  match x with
  | S754_zero _ => true
  | S754_finite _ m e => multiple_of_64 m e
  | _ => false
  end.

Definition n16 : Js.number := Eval cbv in Js.of_Z 16.

(** The multiples of 64 from 64 to 1024. *)
Definition small_multiples : list Js.number :=
  Eval cbv in map (fun k => Js.of_Z (64 * Z.of_nat k)) (seq 1 16).

(** The last two lines of [closestMultiple]. *)
Definition clamp (closest : Js.number) : Js.number :=
  if Js.isNaN closest then zero
  else if Js.le closest zero then n64 else closest.

(** [x] is [+Infinity] or a strictly positive multiple of 64. *)
Definition positive_multiple_of_64 (x : Js.number) : Prop :=
  x = S754_infinity false
  \/ exists m e, x = S754_finite false m e
       /\ bounded Js.prec Js.emax m e = true
       /\ multiple_of_64 m e = true.

(** The integer a number denotes, when it denotes one. *)
Definition exact_value (x : Js.number) : option Z :=
  match x with
  | S754_zero _ => Some 0
  | S754_finite s m e =>
      if 0 <=? e then Some (cond_Zopp s (Zpos m * 2 ^ e))
      else if Zpos m mod 2 ^ (- e) =? 0
           then Some (cond_Zopp s (Zpos m / 2 ^ (- e)))
           else None
  | _ => None
  end.

(** The invariant of the data model, on exact values: both dimensions are
    multiples of 64 and the area is at most [MAX_OUTPUT_SIZE]. *)
Definition valid_size (r : Size) : bool :=
  match exact_value (width r), exact_value (height r) with
  | Some a, Some b =>
      (a mod 64 =? 0) && (b mod 64 =? 0) && (a * b <=? 1048576)
  | _, _ => false
  end.

(** The same invariant as the source tests it (line 160). *)
Definition satisfies_invariant (r : Size) : bool :=
  Js.strict_eq (Js.rem (width r) n64) zero
  && Js.strict_eq (Js.rem (height r) n64) zero
  && Js.le (Js.mul (width r) (height r)) MAX_OUTPUT_SIZE.

(** Both dimensions are strictly positive. *)
Definition positive_size (r : Size) : bool :=
  Js.gt (width r) zero && Js.gt (height r) zero.

(** A size that satisfies the invariant, in both readings, and is
    positive. *)
Definition good_size (r : Size) : bool :=
  valid_size r && satisfies_invariant r && positive_size r.

(** Lines 165 to 191 of the source, as a function of the aspect ratio. *)
Definition resize_by_ratio (aspectRatio : Js.number) : Size :=
  let fallback :=
    if Js.gt aspectRatio one
    then mkSize n1024 (closestMultiple (Js.div n1024 aspectRatio) n64)
    else mkSize (closestMultiple (Js.mul n1024 aspectRatio) n64) n1024 in
  if Js.gt aspectRatio one then
    let width := closestMultiple (Js.mul n512 aspectRatio) n64 in
    if Js.le (Js.mul width n512) MAX_OUTPUT_SIZE
    then mkSize width n512 else fallback
  else
    let height := closestMultiple (Js.div n512 aspectRatio) n64 in
    if Js.le (Js.mul n512 height) MAX_OUTPUT_SIZE
    then mkSize n512 height else fallback.

(** [Number.isFinite] *)
Definition is_finite (x : Js.number) : bool :=
  match x with
  | S754_zero _ | S754_finite _ _ _ => true
  | _ => false
  end.

(** ** [download]

    Strings are sequences of code units below 256.  An [async] function is
    a computation that appends the HTTP requests it issues to a log and
    ends with a value or with a thrown exception. *)

Definition Headers : Type := list (string * string).

Inductive exn : Type :=
| Error (message : string)
| TypeError
| InvalidCharacterError
| HttpError (status : Z).

Inductive result (A : Type) : Type :=
| Resolved (a : A)
| Rejected (e : exn).

Arguments Resolved {A} a.
Arguments Rejected {A} e.

Inductive request : Type :=
| Head (url : string) (headers : Headers)
| Get (url : string) (headers : Headers).

Definition async (A : Type) : Type := list request -> result A * list request.

Definition ret {A : Type} (a : A) : async A := fun log => (Resolved a, log).

Definition throw {A : Type} (e : exn) : async A := fun log => (Rejected e, log).

Definition bind {A B : Type} (c : async A) (k : A -> async B) : async B :=
  fun log =>
    match c log with
    | (Resolved a, log') => k a log'
    | (Rejected e, log') => (Rejected e, log')
    end.

Notation "x <- c ;; k" := (bind c (fun x => k))
  (at level 61, c at next level, right associativity).

(** The answer of the transport to one request. *)
Inductive response (A : Type) : Type :=
| Ok (a : A)
| Failed (status : Z).

Arguments Ok {A} a.
Arguments Failed {A} status.

(** [ctx.http]: the HTTP client of the plugin context. *)
Record Context : Type := mkContext {
  http_head : string -> Headers -> response Headers;
  http_get : string -> Headers -> response (list Byte.byte)
}.

Definition settle {A : Type} (r : response A) : result A :=
  match r with
  | Ok a => Resolved a
  | Failed status => Rejected (HttpError status)
  end.

Definition head_request (ctx : Context) (url : string) (headers : Headers)
  : async Headers :=
  fun log => (settle (http_head ctx url headers), log ++ [Head url headers]).

Definition get_request (ctx : Context) (url : string) (headers : Headers)
  : async (list Byte.byte) :=
  fun log => (settle (http_get ctx url headers), log ++ [Get url headers]).

(** Property access [head[key]]: [None] is [undefined]. *)
Fixpoint lookup (key : string) (object : Headers) : option string :=
  match object with
  | [] => None
  | (k, v) :: rest => if String.eqb k key then Some v else lookup key rest
  end.

Definition ALLOWED_TYPES : list string := ["image/jpeg"; "image/png"]%string.

(** [Array.prototype.includes] on an array of strings; [undefined] is not
    an element. *)
Definition includes (array : list string) (x : option string) : bool :=
  match x with
  | Some s => existsb (String.eqb s) array
  | None => false
  end.

(** *** The regular expression of line 13

    It matches [data:], then captures [image/] followed by one or more word
    characters, then matches [;base64,] and captures every remaining
    character up to the end of the string; the dot does not match a line
    terminator.  As [;] is not a word character, the longest run of word
    characters is the only candidate for the first group. *)

Definition is_word_char (c : ascii) : bool :=
  let n := nat_of_ascii c in
  ((48 <=? n) && (n <=? 57) || (65 <=? n) && (n <=? 90)
   || (97 <=? n) && (n <=? 122) || (n =? 95))%nat.

Definition is_line_terminator (c : ascii) : bool :=
  let n := nat_of_ascii c in ((n =? 10) || (n =? 13))%nat.

Fixpoint strip_prefix (p s : string) : option string :=
  match p with
  | EmptyString => Some s
  | String a p' =>
      match s with
      | EmptyString => None
      | String b s' => if Ascii.eqb a b then strip_prefix p' s' else None
      end
  end.

(** The longest run of word characters at the head of a string, and the
    rest of the string. *)
Fixpoint span_word (s : string) : string * string :=
  match s with
  | EmptyString => (EmptyString, EmptyString)
  | String c s' =>
      if is_word_char c
      then let (w, rest) := span_word s' in (String c w, rest)
      else (EmptyString, s)
  end.

Fixpoint no_line_terminator (s : string) : bool :=
  match s with
  | EmptyString => true
  | String c s' => negb (is_line_terminator c) && no_line_terminator s'
  end.

(** The call of [url.match]: the two capture groups, or [None] for [null]. *)
Definition match_data_uri (url : string) : option (string * string) :=
  match strip_prefix "data:" url with
  | None => None
  | Some s1 =>
      match strip_prefix "image/" s1 with
      | None => None
      | Some s2 =>
          match span_word s2 with
          | (EmptyString, _) => None
          | (word, s3) =>
              match strip_prefix ";base64," s3 with
              | None => None
              | Some payload =>
                  if no_line_terminator payload
                  then Some (("image/" ++ word)%string, payload)
                  else None
              end
          end
      end
  end.

Fixpoint char_codes (binary : string) : list Byte.byte :=
  match binary with
  | EmptyString => []
  | String c s => byte_of_ascii c :: char_codes s
  end.

Section Download.

(** Built-in operations of the language: the unary [+] applied to a
    property value, and [atob] ([None] when it throws). *)
Variable to_number : option string -> Js.number.
Variable atob : string -> option string.

Definition download (ctx : Context) (url : string) (headers : Headers)
  : async (list Byte.byte) :=
  if String.prefix "data:" url then
    match match_data_uri url with
    | None => throw TypeError
    | Some (type, base64) =>
        if negb (includes ALLOWED_TYPES (Some type))
        then throw (Error "unsupported image type")
        else
          match atob base64 with
          | None => throw InvalidCharacterError
          | Some binary => ret (char_codes binary)
          end
    end
  else
    head <- head_request ctx url headers ;;
    if Js.gt (to_number (lookup "content-length" head)) MAX_CONTENT_SIZE
    then throw (Error "file too large")
    else if includes ALLOWED_TYPES (lookup "content-type" head)
    then throw (Error "unsupported file type")
    else get_request ctx url headers.

End Download.

(** The unary [+] on strings of decimal digits; other values are not
    numbers. *)
Fixpoint decimal_digits (s : string) (acc : Z) : option Z :=
  match s with
  | EmptyString => Some acc
  | String c s' =>
      let n := Z.of_nat (nat_of_ascii c) in
      if (48 <=? n) && (n <=? 57)
      then decimal_digits s' (10 * acc + (n - 48))
      else None
  end.

Definition decimal_to_number (x : option string) : Js.number :=
  match x with
  | Some (String c s) =>
      match decimal_digits (String c s) 0 with
      | Some z => Js.of_Z z
      | None => Js.NaN
      end
  | _ => Js.NaN
  end.

(** ** [calcAccessKey] *)

(** [Buffer.from(string)]: the UTF-8 encoding of a string of code units
    below 256. *)
Fixpoint utf8_encode (s : string) : list Byte.byte :=
  match s with
  | EmptyString => []
  | String c s' =>
      let n := N_of_ascii c in
      if (n <? 128)%N then byte_of_ascii c :: utf8_encode s'
      else
        byte_of_ascii (ascii_of_N (N.lor 192 (N.shiftr n 6)))
        :: byte_of_ascii (ascii_of_N (N.lor 128 (N.land n 63)))
        :: utf8_encode s'
  end.

Definition base64_alphabet : string :=
  "ABCDEFGHIJKLMNOPQRSTUVWXYZabcdefghijklmnopqrstuvwxyz0123456789-_".

Definition base64_char (sextet : N) : ascii :=
  match String.get (N.to_nat sextet) base64_alphabet with
  | Some c => c
  | None => "="%char
  end.

(** The ['base64'] output format of the libsodium wrappers: URL-safe
    alphabet, no padding. *)
Fixpoint to_base64 (bytes : list Byte.byte) : string :=
  match bytes with
  | [] => EmptyString
  | [a] =>
      let a := Byte.to_N a in
      String (base64_char (N.shiftr a 2))
        (String (base64_char (N.shiftl (N.land a 3) 4)) EmptyString)
  | [a; b] =>
      let a := Byte.to_N a in
      let b := Byte.to_N b in
      String (base64_char (N.shiftr a 2))
        (String (base64_char (N.lor (N.shiftl (N.land a 3) 4) (N.shiftr b 4)))
           (String (base64_char (N.shiftl (N.land b 15) 2)) EmptyString))
  | a :: b :: c :: rest =>
      let a := Byte.to_N a in
      let b := Byte.to_N b in
      let c := Byte.to_N c in
      String (base64_char (N.shiftr a 2))
        (String (base64_char (N.lor (N.shiftl (N.land a 3) 4) (N.shiftr b 4)))
           (String (base64_char (N.lor (N.shiftl (N.land b 15) 2) (N.shiftr c 6)))
              (String (base64_char (N.land c 63)) (to_base64 rest))))
  end.

(** The part of [libsodium-wrappers] the module imports.  [crypto_pwhash]
    returns the raw derived key, of the requested length. *)
Class Sodium : Type := {
  crypto_generichash : nat -> string -> list Byte.byte;
  crypto_pwhash :
    nat -> list Byte.byte -> list Byte.byte -> Z -> Z -> Z -> list Byte.byte;
  crypto_pwhash_ALG_ARGON2ID13 : Z;
  crypto_pwhash_SALTBYTES : nat;
  crypto_pwhash_length :
    forall keyLength password salt opsLimit memLimit algorithm,
      List.length
        (crypto_pwhash keyLength password salt opsLimit memLimit algorithm)
      = keyLength
}.

(** [s.slice(0, n)] *)
Definition slice_to (n : nat) (s : string) : string := substring 0 n s.

Definition calcAccessKey `{Sodium} (email password : string) : string :=
  slice_to 64
    (to_base64
       (crypto_pwhash
          64
          (utf8_encode password)
          (crypto_generichash
             crypto_pwhash_SALTBYTES
             (slice_to 6 password ++ email ++ "novelai_data_access_key")%string)
          2
          2000000
          crypto_pwhash_ALG_ARGON2ID13)).

Definition calcEncryptionKey `{Sodium} (email password : string) : string :=
  to_base64
    (crypto_pwhash
       128
       (utf8_encode password)
       (crypto_generichash
          crypto_pwhash_SALTBYTES
          (slice_to 6 password ++ email ++ "novelai_data_encryption_key")%string)
       2
       2000000
       crypto_pwhash_ALG_ARGON2ID13).

(** An instance of the interface for running examples: hashes of zeros. *)
#[local] Instance constant_sodium : Sodium := {|
  crypto_generichash := fun n _ => repeat Byte.x00 n;
  crypto_pwhash := fun n _ _ _ _ _ => repeat Byte.x00 n;
  crypto_pwhash_ALG_ARGON2ID13 := 2;
  crypto_pwhash_SALTBYTES := 16%nat;
  crypto_pwhash_length := fun n _ _ _ _ _ => repeat_length Byte.x00 n
|}.

(** A transport that answers every HEAD request with a PNG of 20,000,000
    bytes. *)
Definition large_png : Context := {|
  http_head := fun _ _ =>
    Ok [("content-length", "20000000"); ("content-type", "image/png")]%string;
  http_get := fun _ _ => Ok []
|}.

(** A transport that answers every HEAD request with a small HTML page. *)
Definition small_page : Context := {|
  http_head := fun _ _ =>
    Ok [("content-length", "512"); ("content-type", "text/html")]%string;
  http_get := fun _ _ => Ok [Byte.x3c]
|}.

(** ** Further definitions *)


(** [x] has sign [s] and is a zero or a non-zero integer with exponent at
    most 965, so that 64 times [x] does not overflow. *)
Definition small_integral (s : bool) (x : Js.number) : Prop :=
  x = S754_zero s
  \/ exists m e, x = S754_finite s m e
       /\ bounded Js.prec Js.emax m e = true
       /\ Zdigits2 (Zpos m) = 53
       /\ integer_valued m e = true
       /\ e <= 965.

(** [x] has sign [s] and is a zero or a finite non-zero multiple of 64. *)
Definition finite_multiple_of_64 (s : bool) (x : Js.number) : Prop :=
  x = S754_zero s
  \/ exists m e, x = S754_finite s m e
       /\ bounded Js.prec Js.emax m e = true
       /\ multiple_of_64 m e = true.

(** Every character of [s] is a word character. *)
Fixpoint word_chars (s : string) : bool :=
  match s with
  | EmptyString => true
  | String c s' => is_word_char c && word_chars s'
  end.

(** A transport whose HEAD responses carry no header at all. *)
Definition no_metadata : Context := {|
  http_head := fun _ _ => Ok [];
  http_get := fun _ _ => Ok [Byte.x3c]
|}.

(** Every character of [s] is a letter, a digit, [-] or [_]. *)
Fixpoint url_safe (s : string) : bool :=
  match s with
  | EmptyString => true
  | String c s' =>
      (is_word_char c || (nat_of_ascii c =? 45)%nat) && url_safe s'
  end.

(** ** [LoginError] and [login] *)

(** [Dict<string>]: an object with string values, as the list of its
    properties in enumeration order; the keys are distinct. *)
Definition Dict : Type := list (string * string).

(** The values [login] can throw: an error of the HTTP client (one for
    which [Quester.isAxiosError] holds) with its [response?.status], a
    number or [undefined]; a [LoginError] with its message and code; any
    other exception. *)
Inductive thrown : Type :=
| AxiosError (status : option Js.number)
| LoginError (message : string) (code : Js.number)
| OtherError (e : exn).

(** A settled promise. *)
Inductive settled (A : Type) : Type :=
| Fulfilled (a : A)
| Thrown (e : thrown).

Arguments Fulfilled {A} a.
Arguments Thrown {A} e.

(** [promise.catch(handler)] for a handler that always throws: the
    handler is given as the value it throws. *)
Definition catch {A : Type} (p : settled A) (handler : thrown -> thrown)
  : settled A :=
  match p with
  | Fulfilled a => Fulfilled a
  | Thrown e => Thrown (handler e)
  end.

(** [promise.then(f)] *)
Definition then_ {A B : Type} (p : settled A) (f : A -> B) : settled B :=
  match p with
  | Fulfilled a => Fulfilled (f a)
  | Thrown e => Thrown e
  end.

(** [ctx.config] *)
Record Config : Type := mkConfig {
  config_type : string;
  config_endpoint : string;
  config_token : string;
  config_email : string;
  config_password : string
}.

(** The requests of [login]. *)
Inductive api_request : Type :=
| ApiGet (url : string) (headers : Headers)
| ApiPost (url : string) (data : Dict).

Definition n401 : Js.number := Eval cbv in Js.of_Z 401.

Section Login.

(** The unary [+] applied to a property key, and the type of the
    subscription data. *)
Variable to_number : option string -> Js.number.
Variable Subscription : Type.

(** The plugin context of [login]: its configuration and its HTTP client.
    The body of a fulfilled POST request is an object. *)
Record LoginContext : Type := mkLoginContext {
  config : Config;
  api_get : string -> Headers -> settled Subscription;
  api_post : string -> Dict -> settled Dict
}.

(** The loop of [LoginError.catch] (lines 78 to 82): the first key of the
    mapping that converts to the status decides.  An [undefined] status is
    strictly equal to no number. *)
Fixpoint catch_loop (mapping : Dict) (code : option Js.number)
  : option thrown :=
  match mapping with
  | [] => None
  | (key, message) :: rest =>
      match code with
      | Some c =>
          if Js.strict_eq c (to_number (Some key))
          then Some (LoginError message c)
          else catch_loop rest code
      | None => catch_loop rest code
      end
  end.

(** [LoginError.catch(mapping)(e)]: the value the handler throws. *)
Definition LoginError_catch (mapping : Dict) (e : thrown) : thrown :=
  match e with
  | AxiosError code =>
      match catch_loop mapping code with
      | Some error => error
      | None => e
      end
  | _ => e
  end.

(** [login]: the result ([None] is [undefined]) and the requests issued. *)
Definition login `{Sodium} (ctx : LoginContext) (log : list api_request)
  : settled (option string) * list api_request :=
  if String.eqb (config_type (config ctx)) "token" then
    let url := (config_endpoint (config ctx) ++ "/user/subscription")%string in
    let headers :=
      [("authorization", "Bearer " ++ config_token (config ctx))%string] in
    (then_
       (catch (api_get ctx url headers)
          (LoginError_catch [("401", ".invalid-token")%string]))
       (fun _ => Some (config_token (config ctx))),
     log ++ [ApiGet url headers])
  else if String.eqb (config_type (config ctx)) "login" then
    let url := (config_endpoint (config ctx) ++ "/user/login")%string in
    let data :=
      [("key"%string,
        calcAccessKey (config_email (config ctx))
          (config_password (config ctx)))] in
    (then_
       (catch (api_post ctx url data)
          (LoginError_catch [("401", ".invalid-password")%string]))
       (fun res => lookup "accessToken" res),
     log ++ [ApiPost url data])
  else (Fulfilled None, log).

End Login.

(** A context of type [token] whose token the service refuses. *)
Definition refused_token : LoginContext unit := {|
  config := mkConfig "token" "https://api.novelai.net" "secret" "" "";
  api_get := fun _ _ => Thrown (AxiosError (Some n401));
  api_post := fun _ _ => Thrown (AxiosError None)
|}.

(** A context of type [login] whose service answers every request. *)
Definition accepted_login : LoginContext unit := {|
  config :=
    mkConfig "login" "https://api.novelai.net" "" "user@example.org" "pw";
  api_get := fun _ _ => Fulfilled tt;
  api_post := fun _ _ => Fulfilled [("accessToken", "abc")]%string
|}.

(** [x] is [+Infinity] or a finite number of at least 512: a normal
    mantissa with an exponent of at least -43. *)
Definition at_least_512 (x : Js.number) : Prop :=
  x = S754_infinity false
  \/ exists m e, x = S754_finite false m e
       /\ bounded Js.prec Js.emax m e = true
       /\ -43 <= e.

(** * Properties *)

(** ** Binary64 arithmetic

    What the proofs below need of [spec_float] at precision 53: the shape
    of a rounded result, validity and sign of products and quotients,
    exact products with powers of two, and bounds by powers of two. *)

Module Binary64.

(** *** Rounding *)

Lemma fexp_eq e : fexp Js.prec Js.emax e = Z.max (e - 53) (-1074).
Proof. reflexivity. Qed.

Lemma digits2_pos_size p : digits2_pos p = Pos.size p.
Proof. induction p; simpl; congruence. Qed.

Lemma Zdigits2_log2 p : Zdigits2 (Zpos p) = Z.log2 (Zpos p) + 1.
Proof.
  unfold Zdigits2. rewrite digits2_pos_size.
  destruct p; simpl; try reflexivity; now rewrite Pos2Z.inj_succ.
Qed.

Lemma Zdigits2_nonneg m : 0 <= Zdigits2 m.
Proof. destruct m; simpl; lia. Qed.

Lemma Zdigits2_bounds m :
  0 < m -> 2 ^ (Zdigits2 m - 1) <= m < 2 ^ Zdigits2 m.
Proof.
  intros Hm. destruct m as [|p|p]; try lia.
  rewrite Zdigits2_log2.
  replace (Z.log2 (Zpos p) + 1 - 1) with (Z.log2 (Zpos p)) by lia.
  replace (Z.log2 (Zpos p) + 1) with (Z.succ (Z.log2 (Zpos p))) by lia.
  apply Z.log2_spec. lia.
Qed.

Lemma Zdigits2_unique m d :
  2 ^ (d - 1) <= m < 2 ^ d -> 0 < m -> Zdigits2 m = d.
Proof.
  intros H Hm. destruct m as [|p|p]; try lia.
  rewrite Zdigits2_log2.
  assert (0 < d).
  { destruct (Z_lt_le_dec 0 d) as [|Hd]; [assumption|].
    assert (2 ^ d <= 2 ^ 0) by (apply Z.pow_le_mono_r; lia).
    change (2 ^ 0) with 1 in *. lia. }
  rewrite (Z.log2_unique (Zpos p) (d - 1)); [lia|lia|].
  replace (Z.succ (d - 1)) with d by lia. assumption.
Qed.

Lemma Zdigits2_ge m k : 0 <= k -> 2 ^ k <= m -> k + 1 <= Zdigits2 m.
Proof.
  intros Hk H.
  assert (0 < m) by (pose proof (Z.pow_pos_nonneg 2 k); lia).
  destruct (Zdigits2_bounds m) as [_ Hu]; [assumption|].
  destruct (Z_lt_le_dec (Zdigits2 m) (k + 1)) as [Hlt|]; [|assumption].
  assert (2 ^ Zdigits2 m <= 2 ^ k).
  { apply Z.pow_le_mono_r; [lia|]. lia. }
  lia.
Qed.

Lemma Zdigits2_le m k : 0 <= k -> 0 <= m < 2 ^ k -> Zdigits2 m <= k.
Proof.
  intros Hk [H0 H].
  destruct (Z.eq_dec m 0) as [->|Hn]; [simpl; lia|].
  destruct (Zdigits2_bounds m) as [Hl _]; [lia|].
  destruct (Z_lt_le_dec k (Zdigits2 m)) as [Hlt|]; [|assumption].
  assert (2 ^ k <= 2 ^ (Zdigits2 m - 1)).
  { apply Z.pow_le_mono_r; lia. }
  lia.
Qed.

Lemma shr_1_m mrs : 0 <= shr_m mrs -> shr_m (shr_1 mrs) = shr_m mrs / 2.
Proof.
  destruct mrs as [m r s]. simpl. intros Hm.
  rewrite <- Z.div2_div.
  destruct m as [|[p|p|]|p]; try reflexivity. lia.
Qed.

Lemma iter_shr_m p : forall mrs,
  0 <= shr_m mrs ->
  shr_m (iter_pos shr_1 p mrs) = shr_m mrs / 2 ^ Zpos p.
Proof.
  induction p as [p IH|p IH|]; intros mrs Hm; cbn [iter_pos].
  - assert (H1 : 0 <= shr_m (shr_1 mrs)).
    { rewrite shr_1_m by assumption. apply Z.div_pos; lia. }
    assert (H2 : 0 <= shr_m (iter_pos shr_1 p (shr_1 mrs))).
    { rewrite IH by assumption. apply Z.div_pos; [assumption|].
      apply Z.pow_pos_nonneg; lia. }
    rewrite IH, IH, shr_1_m by assumption.
    rewrite !Z.div_div by (try apply Z.pow_pos_nonneg; lia).
    f_equal. rewrite Pos2Z.inj_xI.
    replace (2 * Zpos p + 1) with (1 + Zpos p + Zpos p) by lia.
    rewrite !Z.pow_add_r by lia. lia.
  - assert (H2 : 0 <= shr_m (iter_pos shr_1 p mrs)).
    { rewrite IH by assumption. apply Z.div_pos; [assumption|].
      apply Z.pow_pos_nonneg; lia. }
    rewrite IH, IH by assumption.
    rewrite !Z.div_div by (try apply Z.pow_pos_nonneg; lia).
    f_equal. rewrite <- Z.pow_add_r by lia. f_equal. lia.
  - rewrite shr_1_m by assumption. reflexivity.
Qed.

Lemma mod_pow2_split m a b :
  0 <= a -> 0 <= b -> m mod 2 ^ (a + b) = 0 ->
  m mod 2 ^ a = 0 /\ (m / 2 ^ a) mod 2 ^ b = 0.
Proof.
  intros Ha Hb H.
  assert (0 < 2 ^ a) by (apply Z.pow_pos_nonneg; lia).
  assert (0 < 2 ^ b) by (apply Z.pow_pos_nonneg; lia).
  rewrite Z.pow_add_r, Z.rem_mul_r in H by lia.
  pose proof (Z.mod_pos_bound m (2 ^ a)).
  pose proof (Z.mod_pos_bound (m / 2 ^ a) (2 ^ b)).
  nia.
Qed.

Lemma shr_1_exact m :
  0 <= m -> m mod 2 = 0 ->
  shr_1 (Build_shr_record m false false) = Build_shr_record (m / 2) false false.
Proof.
  intros Hm H. rewrite <- Z.div2_div.
  destruct m as [|[p|p|]|p]; try reflexivity; try lia.
  - rewrite Pos2Z.inj_xI in H.
    rewrite Z.add_comm, Z.mul_comm, Z.mod_add in H by lia. discriminate H.
  - discriminate H.
Qed.

Lemma iter_shr_exact p : forall m,
  0 <= m -> m mod 2 ^ Zpos p = 0 ->
  iter_pos shr_1 p (Build_shr_record m false false)
  = Build_shr_record (m / 2 ^ Zpos p) false false.
Proof.
  induction p as [p IH|p IH|]; intros m Hm H; cbn [iter_pos].
  - assert (E : Zpos p~1 = 1 + (Zpos p + Zpos p)) by lia.
    rewrite E in *.
    destruct (mod_pow2_split m 1 (Zpos p + Zpos p)
                ltac:(lia) ltac:(lia) H) as [H1 H2].
    change (2 ^ 1) with 2 in *.
    destruct (mod_pow2_split (m / 2) (Zpos p) (Zpos p)
                ltac:(lia) ltac:(lia) H2) as [H3 H4].
    assert (0 <= m / 2) by (apply Z.div_pos; lia).
    assert (0 < 2 ^ Zpos p) by (apply Z.pow_pos_nonneg; lia).
    assert (0 <= m / 2 / 2 ^ Zpos p) by (apply Z.div_pos; lia).
    rewrite shr_1_exact, IH, IH by assumption.
    rewrite !Z.div_div by lia.
    rewrite !Z.pow_add_r by lia. change (2 ^ 1) with 2. now rewrite Z.mul_assoc.
  - assert (E : Zpos p~0 = Zpos p + Zpos p) by lia.
    rewrite E in *.
    destruct (mod_pow2_split m (Zpos p) (Zpos p)
                ltac:(lia) ltac:(lia) H) as [H3 H4].
    assert (0 < 2 ^ Zpos p) by (apply Z.pow_pos_nonneg; lia).
    assert (0 <= m / 2 ^ Zpos p) by (apply Z.div_pos; lia).
    rewrite IH, IH by assumption.
    rewrite !Z.div_div by lia.
    now rewrite !Z.pow_add_r by lia.
  - change (2 ^ 1) with 2 in *. now apply shr_1_exact.
Qed.

Lemma round_nearest_even_range m l :
  round_nearest_even m l = m \/ round_nearest_even m l = m + 1.
Proof.
  destruct l as [|[]]; simpl; auto. destruct (Z.even m); auto.
Qed.

Lemma truncated_canonical mx ex :
  0 <= mx ->
  ex <= fexp Js.prec Js.emax (Zdigits2 mx + ex) ->
  0 <= mx / 2 ^ (fexp Js.prec Js.emax (Zdigits2 mx + ex) - ex) < 2 ^ 53
  /\ (2 ^ 52 <= mx / 2 ^ (fexp Js.prec Js.emax (Zdigits2 mx + ex) - ex)
      \/ fexp Js.prec Js.emax (Zdigits2 mx + ex) = -1074)
  /\ -1074 <= fexp Js.prec Js.emax (Zdigits2 mx + ex).
Proof.
  intros Hm. rewrite fexp_eq.
  set (d := Zdigits2 mx). set (e1 := Z.max (d + ex - 53) (-1074)).
  intros He.
  set (n := e1 - ex).
  assert (Hn : 0 <= n) by (unfold n; lia).
  assert (Hp : 0 < 2 ^ n) by (apply Z.pow_pos_nonneg; lia).
  assert (Hd : 0 <= d) by apply Zdigits2_nonneg.
  destruct (Z.eq_dec mx 0) as [->|Hnz].
  { rewrite Z.div_0_l by lia. change (Zdigits2 0) with 0 in d.
    repeat split; try lia. }
  destruct (Zdigits2_bounds mx ltac:(lia)) as [Hl Hu]. fold d in Hl, Hu.
  assert (Hq0 : 0 <= mx / 2 ^ n) by (apply Z.div_pos; lia).
  assert (Hq1 : mx / 2 ^ n < 2 ^ 53).
  { apply Z.div_lt_upper_bound; [lia|].
    rewrite <- Z.pow_add_r by lia.
    apply Z.lt_le_trans with (1 := Hu).
    apply Z.pow_le_mono_r; lia. }
  repeat split; try lia.
  destruct (Z_le_gt_dec (-1074) (d + ex - 53)) as [Hc|Hc]; [left|right; lia].
  assert (n = d - 53) by lia.
  apply Z.div_le_lower_bound; [lia|].
  rewrite <- Z.pow_add_r by lia.
  replace (n + 52) with (d - 1) by lia. assumption.
Qed.

Lemma second_shift s m2 e1 :
  0 <= m2 <= 2 ^ 53 -> (2 ^ 52 <= m2 \/ e1 = -1074) -> -1074 <= e1 ->
  (let '(mrs, e) := shr_fexp Js.prec Js.emax m2 e1 loc_Exact in
   match shr_m mrs with
   | Z0 => S754_zero s
   | Zpos m =>
       if e <=? Js.emax - Js.prec then S754_finite s m e else S754_infinity s
   | Zneg _ => S754_nan
   end) = pack s m2 e1.
Proof.
  intros Hm Hc He. unfold shr_fexp, pack. rewrite fexp_eq.
  destruct (Z.eqb_spec m2 0) as [->|Hnz].
  { change (Zdigits2 0) with 0.
    replace (Z.max (0 + e1 - 53) (-1074) - e1) with 0 by lia. reflexivity. }
  destruct (Z.eqb_spec m2 (2 ^ 53)) as [->|Hn53].
  { change (Zdigits2 (2 ^ 53)) with 54.
    replace (Z.max (54 + e1 - 53) (-1074) - e1) with 1 by lia.
    reflexivity. }
  assert (Hd : Zdigits2 m2 <= 53) by (apply Zdigits2_le; lia).
  assert (Hd' : 2 ^ 52 <= m2 -> 53 <= Zdigits2 m2).
  { intros. apply (Zdigits2_ge m2 52); lia. }
  replace (Z.max (Zdigits2 m2 + e1 - 53) (-1074) - e1) with 0 by lia.
  destruct m2 as [|p|p]; try lia. reflexivity.
Qed.

(** The result of rounding a non-negative mantissa [mx] at exponent [ex]:
    the mantissa is truncated to the exponent [fexp] selects and is then
    either kept or incremented. *)
Lemma binary_round_aux_spec s mx ex lx :
  0 <= mx ->
  ex <= fexp Js.prec Js.emax (Zdigits2 mx + ex) ->
  exists m2,
    (m2 = mx / 2 ^ (fexp Js.prec Js.emax (Zdigits2 mx + ex) - ex)
     \/ m2 = mx / 2 ^ (fexp Js.prec Js.emax (Zdigits2 mx + ex) - ex) + 1)
    /\ (lx = loc_Exact ->
        mx mod 2 ^ (fexp Js.prec Js.emax (Zdigits2 mx + ex) - ex) = 0 ->
        m2 = mx / 2 ^ (fexp Js.prec Js.emax (Zdigits2 mx + ex) - ex))
    /\ binary_round_aux Js.prec Js.emax s mx ex lx
       = pack s m2 (fexp Js.prec Js.emax (Zdigits2 mx + ex)).
Proof.
  intros Hm He.
  destruct (truncated_canonical mx ex Hm He) as (Hr & Hc & Hmin).
  remember (fexp Js.prec Js.emax (Zdigits2 mx + ex)) as e1 eqn:He1.
  remember (mx / 2 ^ (e1 - ex)) as m1 eqn:Hm1.
  unfold binary_round_aux.
  assert (Hs : exists mrs,
    shr_fexp Js.prec Js.emax mx ex lx = (mrs, e1) /\ shr_m mrs = m1
    /\ (lx = loc_Exact -> mx mod 2 ^ (e1 - ex) = 0 ->
        loc_of_shr_record mrs = loc_Exact)).
  { unfold shr_fexp. rewrite <- He1. unfold shr.
    assert (Hx : shr_m (shr_record_of_loc mx lx) = mx)
      by (destruct lx as [|[]]; reflexivity).
    destruct (e1 - ex) as [|p|p] eqn:En; try lia.
    - exists (shr_record_of_loc mx lx). split; [f_equal; lia|].
      rewrite Hm1. change (2 ^ 0) with 1. rewrite Z.div_1_r.
      split; [assumption|].
      intros -> _. reflexivity.
    - exists (iter_pos shr_1 p (shr_record_of_loc mx lx)).
      split; [f_equal; lia|].
      split.
      + rewrite iter_shr_m by (rewrite Hx; assumption).
        rewrite Hx. now rewrite Hm1.
      + intros -> Hdiv. simpl shr_record_of_loc.
        rewrite iter_shr_exact by assumption.
        reflexivity. }
  destruct Hs as (mrs & -> & Hmrs & Hex).
  rewrite Hmrs.
  exists (round_nearest_even m1 (loc_of_shr_record mrs)).
  split; [apply round_nearest_even_range|].
  split; [intros H1 H2; rewrite (Hex H1 H2); reflexivity|].
  apply second_shift; try assumption.
  - destruct (round_nearest_even_range m1 (loc_of_shr_record mrs)) as [->| ->]; lia.
  - destruct (round_nearest_even_range m1 (loc_of_shr_record mrs)) as [->| ->]; lia.
Qed.

(** *** Validity and sign of rounded results *)

Lemma bounded_inv m e :
  bounded Js.prec Js.emax m e = true ->
  -1074 <= e <= 971
  /\ 1 <= Zdigits2 (Zpos m) <= 53
  /\ (Zdigits2 (Zpos m) = 53 \/ e = -1074).
Proof.
  unfold bounded, canonical_mantissa. rewrite fexp_eq.
  intros H. apply andb_true_iff in H. destruct H as [H1 H2].
  apply Z.eqb_eq in H1. apply Z.leb_le in H2.
  change (Js.emax - Js.prec) with 971 in H2.
  change (Zpos (digits2_pos m)) with (Zdigits2 (Zpos m)) in H1.
  assert (0 < Zdigits2 (Zpos m)) by (simpl; lia).
  lia.
Qed.

Lemma bounded_intro m e :
  -1074 <= e <= 971 -> Zdigits2 (Zpos m) <= 53 ->
  (Zdigits2 (Zpos m) = 53 \/ e = -1074) ->
  bounded Js.prec Js.emax m e = true.
Proof.
  intros He Hd Hc. unfold bounded, canonical_mantissa. rewrite fexp_eq.
  change (Js.emax - Js.prec) with 971.
  change (Zpos (digits2_pos m)) with (Zdigits2 (Zpos m)).
  apply andb_true_iff. split; [apply Z.eqb_eq|apply Z.leb_le]; lia.
Qed.

Lemma bounded_mantissa m e :
  bounded Js.prec Js.emax m e = true -> 0 < Zpos m < 2 ^ 53.
Proof.
  intros H. destruct (bounded_inv m e H) as (_ & Hd & _).
  destruct (Zdigits2_bounds (Zpos m) ltac:(lia)) as [_ Hu].
  split; [lia|]. apply Z.lt_le_trans with (1 := Hu).
  apply Z.pow_le_mono_r; lia.
Qed.

Lemma normal_mantissa m :
  Zdigits2 (Zpos m) = 53 -> 2 ^ 52 <= Zpos m < 2 ^ 53.
Proof.
  intros H. pose proof (Zdigits2_bounds (Zpos m) ltac:(lia)) as Hb.
  rewrite H in Hb. exact Hb.
Qed.

Lemma pack_valid s m2 e1 :
  0 <= m2 <= 2 ^ 53 -> (2 ^ 52 <= m2 \/ e1 = -1074) -> -1074 <= e1 ->
  Js.valid (pack s m2 e1) = true.
Proof.
  intros Hm Hc He. unfold pack, overflow_or.
  destruct (Z.eqb_spec m2 0); [reflexivity|].
  destruct (Z.eqb_spec m2 (2 ^ 53)).
  - destruct (Z.leb_spec (e1 + 1) 971); [|reflexivity].
    apply bounded_intro; [lia|simpl; lia|left; reflexivity].
  - destruct (Z.leb_spec e1 971); [|reflexivity].
    destruct m2 as [|p|p]; try lia. simpl Z.to_pos.
    apply bounded_intro; [lia| |].
    + apply Zdigits2_le; lia.
    + destruct Hc as [Hc|Hc]; [left|right; assumption].
      apply Z.le_antisymm; [apply Zdigits2_le; lia|].
      apply (Zdigits2_ge (Zpos p) 52); lia.
Qed.

Lemma pack_signed s m2 e1 : 0 <= m2 -> signed s (pack s m2 e1).
Proof.
  intros Hm. unfold pack, overflow_or, signed.
  destruct (m2 =? 0); [auto|].
  destruct (m2 =? 2 ^ 53).
  - destruct (e1 + 1 <=? 971); eauto.
  - destruct (e1 <=? 971); eauto.
Qed.

Lemma binary_round_aux_valid s mx ex lx :
  0 <= mx ->
  ex <= fexp Js.prec Js.emax (Zdigits2 mx + ex) ->
  Js.valid (binary_round_aux Js.prec Js.emax s mx ex lx) = true
  /\ signed s (binary_round_aux Js.prec Js.emax s mx ex lx).
Proof.
  intros Hm He.
  destruct (binary_round_aux_spec s mx ex lx Hm He) as (m2 & Hm2 & _ & ->).
  destruct (truncated_canonical mx ex Hm He) as (Hr & Hc & Hmin).
  split.
  - apply pack_valid; [| |assumption]; destruct Hm2 as [-> | ->]; lia.
  - apply pack_signed. destruct Hm2 as [-> | ->]; lia.
Qed.

(** A rounded value does not exceed the power of two bounding its input. *)
Lemma pack_le_pow2 m2 e1 k :
  0 <= m2 <= 2 ^ 53 -> e1 < k -> k <= 971 ->
  Js.le (pack false m2 e1) (S754_finite false (Z.to_pos (2 ^ 52)) k) = true.
Proof.
  intros Hm He Hk. unfold pack, overflow_or.
  destruct (Z.eqb_spec m2 0); [reflexivity|].
  destruct (Z.eqb_spec m2 (2 ^ 53)).
  - destruct (Z.leb_spec (e1 + 1) 971); [|lia].
    unfold Js.le, SFleb, SFcompare.
    destruct (Z.compare_spec (e1 + 1) k); try reflexivity; lia.
  - destruct (Z.leb_spec e1 971); [|lia].
    unfold Js.le, SFleb, SFcompare.
    destruct (Z.compare_spec e1 k); try reflexivity; lia.
Qed.

Lemma round_le_pow2 mx ex lx k :
  0 <= mx ->
  ex <= fexp Js.prec Js.emax (Zdigits2 mx + ex) ->
  Zdigits2 mx + ex <= k -> -1021 <= k <= 1023 ->
  Js.le (binary_round_aux Js.prec Js.emax false mx ex lx)
        (S754_finite false (Z.to_pos (2 ^ 52)) (k - 52)) = true.
Proof.
  intros Hm He Hd Hk.
  destruct (binary_round_aux_spec false mx ex lx Hm He) as (m2 & Hm2 & _ & ->).
  destruct (truncated_canonical mx ex Hm He) as (Hr & Hc & Hmin).
  apply pack_le_pow2.
  - destruct Hm2 as [-> | ->]; lia.
  - rewrite fexp_eq. lia.
  - lia.
Qed.

(** *** Multiplication and division of finite numbers *)

Lemma Zdigits2_mul_ge a b :
  0 < a -> 0 < b -> Zdigits2 a + Zdigits2 b - 1 <= Zdigits2 (a * b).
Proof.
  intros Ha Hb.
  destruct (Zdigits2_bounds a Ha) as [Hla _].
  destruct (Zdigits2_bounds b Hb) as [Hlb _].
  assert (1 <= Zdigits2 a) by (destruct a; simpl; lia).
  assert (1 <= Zdigits2 b) by (destruct b; simpl; lia).
  replace (Zdigits2 a + Zdigits2 b - 1)
    with ((Zdigits2 a - 1) + (Zdigits2 b - 1) + 1) by lia.
  apply Zdigits2_ge; [lia|].
  rewrite Z.pow_add_r by lia.
  apply Z.mul_le_mono_nonneg; try assumption; apply Z.pow_nonneg; lia.
Qed.

Lemma Zdigits2_mul_le a b :
  0 < a -> 0 < b -> Zdigits2 (a * b) <= Zdigits2 a + Zdigits2 b.
Proof.
  intros Ha Hb.
  destruct (Zdigits2_bounds a Ha) as [_ Hua].
  destruct (Zdigits2_bounds b Hb) as [_ Hub].
  pose proof (Zdigits2_nonneg a). pose proof (Zdigits2_nonneg b).
  apply Zdigits2_le; [lia|]. split; [lia|].
  rewrite Z.pow_add_r by lia.
  apply Z.mul_lt_mono_nonneg; lia.
Qed.

Lemma mul_shift_ok mx ex my ey :
  bounded Js.prec Js.emax mx ex = true ->
  bounded Js.prec Js.emax my ey = true ->
  ex + ey <= fexp Js.prec Js.emax (Zdigits2 (Zpos (mx * my)) + (ex + ey)).
Proof.
  intros Hx Hy.
  destruct (bounded_inv mx ex Hx) as (Hex & Hdx & Hcx).
  destruct (bounded_inv my ey Hy) as (Hey & Hdy & Hcy).
  pose proof (Zdigits2_mul_ge (Zpos mx) (Zpos my) ltac:(lia) ltac:(lia)) as Hd.
  rewrite <- Pos2Z.inj_mul in Hd.
  rewrite fexp_eq. lia.
Qed.

Lemma mul_finite_valid sx mx ex sy my ey :
  bounded Js.prec Js.emax mx ex = true ->
  bounded Js.prec Js.emax my ey = true ->
  Js.valid (Js.mul (S754_finite sx mx ex) (S754_finite sy my ey)) = true
  /\ signed (xorb sx sy) (Js.mul (S754_finite sx mx ex) (S754_finite sy my ey)).
Proof.
  intros Hx Hy. unfold Js.mul, SFmul.
  apply binary_round_aux_valid; [lia|].
  now apply mul_shift_ok.
Qed.

Lemma mul_valid x y :
  Js.valid x = true -> Js.valid y = true -> Js.valid (Js.mul x y) = true.
Proof.
  intros Hx Hy.
  destruct x as [sx|sx| |sx mx ex], y as [sy|sy| |sy my ey]; try reflexivity.
  now apply mul_finite_valid.
Qed.

Lemma div_core_spec mx ex my ey :
  exists q l,
    SFdiv_core_binary Js.prec Js.emax (Zpos mx) ex (Zpos my) ey
    = (q, Z.min (fexp Js.prec Js.emax
                   (Zdigits2 (Zpos mx) + ex - (Zdigits2 (Zpos my) + ey)))
                (ex - ey), l)
    /\ q = Zpos mx
           * 2 ^ (ex - ey
                  - Z.min (fexp Js.prec Js.emax
                             (Zdigits2 (Zpos mx) + ex - (Zdigits2 (Zpos my) + ey)))
                          (ex - ey))
           / Zpos my.
Proof.
  unfold SFdiv_core_binary.
  set (e' := Z.min _ _).
  assert (Hs : 0 <= ex - ey - e') by (unfold e'; lia).
  set (m' := match ex - ey - e' with
             | 0 => Zpos mx
             | Zpos _ => Z.shiftl (Zpos mx) (ex - ey - e')
             | Zneg _ => 0
             end).
  assert (Hm' : m' = Zpos mx * 2 ^ (ex - ey - e')).
  { unfold m'. destruct (ex - ey - e') as [|p|p] eqn:E; try lia.
    - rewrite Z.shiftl_mul_pow2 by lia. reflexivity. }
  destruct (Z.div_eucl m' (Zpos my)) as [q r] eqn:Hqr.
  exists q, (new_location (Zpos my) r). split; [reflexivity|].
  rewrite <- Hm'. unfold Z.div. now rewrite Hqr.
Qed.

Lemma div_shift_ok mx ex my ey q :
  bounded Js.prec Js.emax mx ex = true ->
  bounded Js.prec Js.emax my ey = true ->
  q = Zpos mx
      * 2 ^ (ex - ey
             - Z.min (fexp Js.prec Js.emax
                        (Zdigits2 (Zpos mx) + ex - (Zdigits2 (Zpos my) + ey)))
                     (ex - ey))
      / Zpos my ->
  0 <= q
  /\ Z.min (fexp Js.prec Js.emax
              (Zdigits2 (Zpos mx) + ex - (Zdigits2 (Zpos my) + ey)))
           (ex - ey)
     <= fexp Js.prec Js.emax
          (Zdigits2 q
           + Z.min (fexp Js.prec Js.emax
                      (Zdigits2 (Zpos mx) + ex - (Zdigits2 (Zpos my) + ey)))
                   (ex - ey)).
Proof.
  intros Hx Hy.
  destruct (bounded_inv mx ex Hx) as (Hex & Hdx & Hcx).
  destruct (bounded_inv my ey Hy) as (Hey & Hdy & Hcy).
  set (dx := Zdigits2 (Zpos mx)) in *. set (dy := Zdigits2 (Zpos my)) in *.
  rewrite fexp_eq. set (e' := Z.min _ _).
  set (sh := ex - ey - e').
  assert (Hs : 0 <= sh) by (unfold sh, e'; lia).
  intros ->.
  assert (Hp : 0 < 2 ^ sh) by (apply Z.pow_pos_nonneg; lia).
  assert (Hq : 0 <= Zpos mx * 2 ^ sh / Zpos my) by (apply Z.div_pos; lia).
  split; [assumption|].
  rewrite fexp_eq.
  destruct (Z_le_gt_dec e' (-1074)) as [|Hgt]; [lia|].
  assert (Hk : 53 <= dx + sh - dy) by (unfold sh, e' in *; lia).
  assert (dx + sh - dy <= Zdigits2 (Zpos mx * 2 ^ sh / Zpos my)); [|lia].
  replace (dx + sh - dy) with ((dx - 1 + sh - dy) + 1) by lia.
  apply Zdigits2_ge; [lia|].
  apply Z.div_le_lower_bound; [lia|].
  destruct (Zdigits2_bounds (Zpos mx) ltac:(lia)) as [Hlx _].
  destruct (Zdigits2_bounds (Zpos my) ltac:(lia)) as [_ Huy].
  fold dx in Hlx. fold dy in Huy.
  apply Z.le_trans with (2 ^ dy * 2 ^ (dx - 1 + sh - dy)).
  - apply Z.mul_le_mono_nonneg_r; [apply Z.pow_nonneg; lia|lia].
  - rewrite <- Z.pow_add_r by lia.
    replace (dy + (dx - 1 + sh - dy)) with ((dx - 1) + sh) by lia.
    rewrite Z.pow_add_r by lia.
    apply Z.mul_le_mono_nonneg_r; lia.
Qed.

Lemma div_finite_valid sx mx ex sy my ey :
  bounded Js.prec Js.emax mx ex = true ->
  bounded Js.prec Js.emax my ey = true ->
  Js.valid (Js.div (S754_finite sx mx ex) (S754_finite sy my ey)) = true
  /\ signed (xorb sx sy) (Js.div (S754_finite sx mx ex) (S754_finite sy my ey)).
Proof.
  intros Hx Hy. unfold Js.div, SFdiv.
  destruct (div_core_spec mx ex my ey) as (q & l & -> & Hq).
  destruct (div_shift_ok mx ex my ey q Hx Hy Hq) as [Hq0 Hsh].
  now apply binary_round_aux_valid.
Qed.

Lemma div_valid x y :
  Js.valid x = true -> Js.valid y = true -> Js.valid (Js.div x y) = true.
Proof.
  intros Hx Hy.
  destruct x as [sx|sx| |sx mx ex], y as [sy|sy| |sy my ey]; try reflexivity.
  now apply div_finite_valid.
Qed.

(** *** Integers, multiples of 64 *)

Lemma xorb_false_r' s : xorb s false = s.
Proof. now destruct s. Qed.

Lemma mul_pow2_exact s m e k :
  bounded Js.prec Js.emax m e = true -> Zdigits2 (Zpos m) = 53 ->
  -1126 <= e + k ->
  Js.mul (S754_finite s m e) (S754_finite false (Z.to_pos (2 ^ 52)) k)
  = overflow_or s m (e + k + 52).
Proof.
  intros Hb Hd Hk. unfold Js.mul, SFmul. rewrite xorb_false_r'.
  destruct (bounded_inv m e Hb) as (He & _ & _).
  destruct (normal_mantissa m Hd) as [Hl Hu].
  assert (HP : Zpos (m * Z.to_pos (2 ^ 52)) = Zpos m * 2 ^ 52) by (now rewrite Pos2Z.inj_mul).
  assert (HdP : Zdigits2 (Zpos (m * Z.to_pos (2 ^ 52))) = 105).
  { apply Zdigits2_unique; [|lia]. rewrite HP.
    change (2 ^ (105 - 1)) with (2 ^ 52 * 2 ^ 52).
    change (2 ^ 105) with (2 ^ 53 * 2 ^ 52). lia. }
  assert (Hf : fexp Js.prec Js.emax
                 (Zdigits2 (Zpos (m * Z.to_pos (2 ^ 52))) + (e + k)) - (e + k) = 52).
  { rewrite HdP, fexp_eq. lia. }
  destruct (binary_round_aux_spec s (Zpos (m * Z.to_pos (2 ^ 52))) (e + k) loc_Exact)
    as (m2 & _ & Hex & ->); [lia|lia|].
  rewrite Hf, HP in Hex.
  rewrite Hex; [|reflexivity|apply Z.mod_mul; lia].
  rewrite Z.div_mul by lia.
  replace (fexp Js.prec Js.emax
             (Zdigits2 (Zpos (m * Z.to_pos (2 ^ 52))) + (e + k)))
    with (e + k + 52) by lia.
  unfold pack.
  destruct (Z.eqb_spec (Zpos m) 0); [lia|].
  destruct (Z.eqb_spec (Zpos m) (2 ^ 53)); [lia|]. reflexivity.
Qed.

Lemma integer_multiple_of_64 m e :
  integer_valued m e = true -> multiple_of_64 m (e + 6) = true.
Proof.
  unfold integer_valued, multiple_of_64. intros H.
  apply orb_true_iff in H. apply orb_true_iff.
  destruct H as [H|H]; [left; apply Z.leb_le; apply Z.leb_le in H; lia|].
  right. now replace (6 - (e + 6)) with (- e) by lia.
Qed.

Lemma mul_integral_64 s x :
  integral s x -> integral_multiple_of_64 s (Js.mul x n64).
Proof.
  intros [->|[->|(m & e & -> & Hb & Hd & Hi)]].
  - left. simpl. now rewrite xorb_false_r'.
  - right; left. simpl. now rewrite xorb_false_r'.
  - destruct (bounded_inv m e Hb) as (He & _ & _).
    unfold n64. change 4503599627370496%positive with (Z.to_pos (2 ^ 52)).
    rewrite mul_pow2_exact by (try assumption; lia).
    replace (e + -46 + 52) with (e + 6) by lia.
    unfold overflow_or. destruct (Z.leb_spec (e + 6) 971); [|right; left; reflexivity].
    right; right. exists m, (e + 6). split; [reflexivity|].
    split; [apply bounded_intro; lia|].
    now apply integer_multiple_of_64.
Qed.

Lemma shl_align_spec m e e' :
  e' <= e -> Zpos (fst (shl_align m e e')) = Zpos m * 2 ^ (e - e').
Proof.
  intros H. unfold shl_align.
  destruct (e' - e) as [|p|p] eqn:E; try lia.
  - replace (e - e') with 0 by lia. simpl fst. lia.
  - simpl fst. replace (e - e') with (Zpos p) by lia.
    rewrite <- Z.shiftl_mul_pow2 by lia.
    simpl Z.shiftl.
    rewrite (Pos.iter_swap_gen _ _ Zpos xO (Z.mul 2)); reflexivity.
Qed.

Lemma shl_align_exp m e e' : e' <= e -> snd (shl_align m e e') = e'.
Proof.
  intros H. unfold shl_align.
  destruct (e' - e) as [|p|p] eqn:E; simpl; lia.
Qed.

(** [binary_round] on a mantissa of at most 53 bits at exponent 0 is exact:
    the mantissa is shifted left to 53 bits. *)
Lemma binary_round_int s p :
  Zdigits2 (Zpos p) <= 53 ->
  exists m e, binary_round Js.prec Js.emax s p 0 = S754_finite s m e
    /\ bounded Js.prec Js.emax m e = true
    /\ Zdigits2 (Zpos m) = 53
    /\ integer_valued m e = true
    /\ e = Zdigits2 (Zpos p) - 53
    /\ Zpos m = Zpos p * 2 ^ (- e).
Proof.
  intros Hd. unfold binary_round.
  set (d := Zdigits2 (Zpos p)) in *.
  assert (Hd1 : 1 <= d) by (unfold d; simpl; lia).
  assert (Hf : fexp Js.prec Js.emax (Zpos (digits2_pos p) + 0) = d - 53).
  { rewrite fexp_eq. change (Zpos (digits2_pos p)) with d. lia. }
  rewrite Hf.
  destruct (shl_align p 0 (d - 53)) as [mz ez] eqn:Hsa.
  assert (Hmz : Zpos mz = Zpos p * 2 ^ (0 - (d - 53))).
  { rewrite <- (shl_align_spec p 0 (d - 53)) by lia. now rewrite Hsa. }
  assert (Hez : ez = d - 53).
  { rewrite <- (shl_align_exp p 0 (d - 53)) by lia. now rewrite Hsa. }
  subst ez.
  destruct (Zdigits2_bounds (Zpos p) ltac:(lia)) as [Hl Hu]. fold d in Hl, Hu.
  assert (Hp : 0 < 2 ^ (0 - (d - 53))) by (apply Z.pow_pos_nonneg; lia).
  assert (Hdz : Zdigits2 (Zpos mz) = 53).
  { apply Zdigits2_unique; [|lia]. rewrite Hmz. split.
    - replace (53 - 1) with ((d - 1) + (0 - (d - 53))) by lia.
      rewrite Z.pow_add_r by lia. apply Z.mul_le_mono_nonneg_r; lia.
    - replace 53 with (d + (0 - (d - 53))) at 2 by lia.
      rewrite Z.pow_add_r by lia. apply Z.mul_lt_mono_pos_r; lia. }
  destruct (binary_round_aux_spec s (Zpos mz) (d - 53) loc_Exact)
    as (m2 & _ & Hex & ->); [lia|rewrite Hdz, fexp_eq; lia|].
  assert (Hf2 : fexp Js.prec Js.emax (Zdigits2 (Zpos mz) + (d - 53)) = d - 53).
  { rewrite Hdz, fexp_eq. lia. }
  rewrite Hf2 in *. rewrite Z.sub_diag in Hex. change (2 ^ 0) with 1 in Hex.
  rewrite Hex; [|reflexivity|apply Z.mod_1_r]. rewrite Z.div_1_r.
  destruct (normal_mantissa mz Hdz) as [Hlz Huz].
  unfold pack, overflow_or.
  destruct (Z.eqb_spec (Zpos mz) 0); [lia|].
  destruct (Z.eqb_spec (Zpos mz) (2 ^ 53)); [lia|].
  destruct (Z.leb_spec (d - 53) 971); [|lia].
  exists mz, (d - 53). simpl Z.to_pos.
  split; [reflexivity|]. split; [apply bounded_intro; lia|].
  split; [assumption|]. split; [|split; [reflexivity|]].
  - unfold integer_valued. apply orb_true_iff. right. apply Z.eqb_eq.
    rewrite Hmz. replace (- (d - 53)) with (0 - (d - 53)) by lia.
    apply Z.mod_mul. lia.
  - rewrite Hmz. f_equal.
Qed.

Lemma binary_normalize_integral (s : bool) (k : Z) :
  - 2 ^ 53 < k < 2 ^ 53 -> (if s then k <= 0 else 0 <= k) ->
  integral s (binary_normalize Js.prec Js.emax k 0 s).
Proof.
  intros Hk Hs.
  destruct k as [|p|p]; [left; reflexivity| |].
  - destruct s; [lia|]. right; right. simpl binary_normalize.
    destruct (binary_round_int false p) as (m & e & -> & Hb & Hd & Hi & _).
    { apply Zdigits2_le; lia. }
    exists m, e. auto.
  - destruct s; [|lia]. right; right. simpl binary_normalize.
    destruct (binary_round_int true p) as (m & e & -> & Hb & Hd & Hi & _).
    { apply Zdigits2_le; lia. }
    exists m, e. auto.
Qed.

Lemma floor_integral s z :
  Js.valid z = true -> signed s z -> integral s (Js.floor z).
Proof.
  intros Hv [->|[->|(m & e & ->)]]; [left; reflexivity|right; left; reflexivity|].
  simpl in Hv. unfold Js.floor.
  destruct (bounded_inv m e Hv) as (He & Hd & Hc).
  destruct (bounded_mantissa m e Hv) as [Hm0 Hm1].
  destruct (Z.leb_spec 0 e).
  - right; right. exists m, e. repeat split; try assumption; [lia|].
    unfold integer_valued. apply orb_true_iff. left. now apply Z.leb_le.
  - apply binary_normalize_integral.
    + rewrite Z.shiftr_div_pow2 by lia.
      assert (0 < 2 ^ (- e)) by (apply Z.pow_pos_nonneg; lia).
      assert (2 <= 2 ^ (- e)).
      { change 2 with (2 ^ 1) at 1. apply Z.pow_le_mono_r; lia. }
      destruct s; unfold cond_Zopp.
      * split.
        -- apply Z.lt_le_trans with (- Zpos m); [lia|].
           apply Z.div_le_lower_bound; [lia|]. nia.
        -- apply Z.le_lt_trans with 0; [|lia].
           apply Z.lt_succ_r. apply Z.div_lt_upper_bound; lia.
      * split.
        -- apply Z.lt_le_trans with 0; [lia|]. apply Z.div_pos; lia.
        -- apply Z.le_lt_trans with (Zpos m); [|lia].
           apply Z.div_le_upper_bound; [lia|]. nia.
    + rewrite Z.shiftr_div_pow2 by lia.
      assert (0 < 2 ^ (- e)) by (apply Z.pow_pos_nonneg; lia).
      destruct s; unfold cond_Zopp.
      * apply Z.lt_succ_r. apply Z.div_lt_upper_bound; lia.
      * apply Z.div_pos; lia.
Qed.

Lemma ceil_integral s z :
  Js.valid z = true -> signed s z -> integral s (Js.ceil z).
Proof.
  intros Hv [->|[->|(m & e & ->)]]; [left; reflexivity|right; left; reflexivity|].
  simpl in Hv. unfold Js.ceil.
  destruct (bounded_inv m e Hv) as (He & Hd & Hc).
  destruct (bounded_mantissa m e Hv) as [Hm0 Hm1].
  destruct (Z.leb_spec 0 e).
  - right; right. exists m, e. repeat split; try assumption; [lia|].
    unfold integer_valued. apply orb_true_iff. left. now apply Z.leb_le.
  - assert (Hp : 0 < 2 ^ (- e)) by (apply Z.pow_pos_nonneg; lia).
    assert (2 <= 2 ^ (- e)).
    { change 2 with (2 ^ 1) at 1. apply Z.pow_le_mono_r; lia. }
    apply binary_normalize_integral.
    + rewrite Z.shiftr_div_pow2 by lia.
      destruct s; unfold cond_Zopp.
      * rewrite Z.opp_involutive.
        assert (0 <= Zpos m / 2 ^ (- e)) by (apply Z.div_pos; lia).
        assert (Zpos m / 2 ^ (- e) <= Zpos m).
        { apply Z.div_le_upper_bound; [lia|]. nia. }
        lia.
      * assert (- Zpos m <= - Zpos m / 2 ^ (- e)).
        { apply Z.div_le_lower_bound; [lia|]. nia. }
        assert (- Zpos m / 2 ^ (- e) < 0).
        { apply Z.div_lt_upper_bound; lia. }
        lia.
    + rewrite Z.shiftr_div_pow2 by lia.
      destruct s; unfold cond_Zopp.
      * rewrite Z.opp_involutive.
        assert (0 <= Zpos m / 2 ^ (- e)) by (apply Z.div_pos; lia). lia.
      * assert (- Zpos m / 2 ^ (- e) < 0).
        { apply Z.div_lt_upper_bound; lia. }
        lia.
Qed.

(** *** The remainder modulo 64 *)

Lemma pack_nonzero s m2 e1 :
  0 < m2 -> Js.strict_eq (pack s m2 e1) zero = false.
Proof.
  intros Hm. unfold pack, overflow_or.
  destruct (Z.eqb_spec m2 0); [lia|].
  destruct (m2 =? 2 ^ 53).
  - destruct (e1 + 1 <=? 971); destruct s; reflexivity.
  - destruct (e1 <=? 971); destruct s; reflexivity.
Qed.

Lemma binary_round_nonzero s p e :
  -1074 <= e ->
  Js.strict_eq (binary_round Js.prec Js.emax s p e) zero = false.
Proof.
  intros He. unfold binary_round.
  set (d := Zdigits2 (Zpos p)).
  change (Zpos (digits2_pos p)) with d.
  assert (Hd1 : 1 <= d) by (unfold d; simpl; lia).
  destruct (Zdigits2_bounds (Zpos p) ltac:(lia)) as [Hl Hu]. fold d in Hl, Hu.
  destruct (Z_le_gt_dec (fexp Js.prec Js.emax (d + e)) e) as [Hle|Hgt].
  - (* the mantissa is shifted left: no bit is lost *)
    destruct (shl_align p e (fexp Js.prec Js.emax (d + e))) as [mz ez] eqn:Hsa.
    assert (Hmz : Zpos mz = Zpos p * 2 ^ (e - fexp Js.prec Js.emax (d + e))).
    { rewrite <- (shl_align_spec p e _ Hle). now rewrite Hsa. }
    assert (Hez : ez = fexp Js.prec Js.emax (d + e)).
    { rewrite <- (shl_align_exp p e _ Hle). now rewrite Hsa. }
    subst ez. rewrite fexp_eq in *.
    set (f := Z.max (d + e - 53) (-1074)) in *.
    assert (Hp : 0 < 2 ^ (e - f)) by (apply Z.pow_pos_nonneg; lia).
    assert (Hdz : Zdigits2 (Zpos mz) = d + (e - f)).
    { apply Zdigits2_unique; [|lia]. rewrite Hmz. split.
      - replace (d + (e - f) - 1) with ((d - 1) + (e - f)) by lia.
        rewrite Z.pow_add_r by lia. apply Z.mul_le_mono_nonneg_r; lia.
      - rewrite Z.pow_add_r by lia. apply Z.mul_lt_mono_pos_r; lia. }
    destruct (binary_round_aux_spec s (Zpos mz) f loc_Exact)
      as (m2 & Hm2 & _ & ->); [lia|rewrite Hdz, fexp_eq; lia|].
    apply pack_nonzero.
    assert (Hf : fexp Js.prec Js.emax (Zdigits2 (Zpos mz) + f) - f = 0).
    { rewrite Hdz, fexp_eq. lia. }
    rewrite Hf in Hm2. change (2 ^ 0) with 1 in Hm2. rewrite Z.div_1_r in Hm2.
    lia.
  - (* the mantissa is truncated to 53 bits *)
    assert (Hsa : shl_align p e (fexp Js.prec Js.emax (d + e)) = (p, e)).
    { unfold shl_align.
      destruct (fexp Js.prec Js.emax (d + e) - e) eqn:E; try reflexivity; lia. }
    rewrite Hsa.
    destruct (binary_round_aux_spec s (Zpos p) e loc_Exact)
      as (m2 & Hm2 & _ & ->); [lia|fold d; lia|].
    apply pack_nonzero. fold d in Hm2.
    rewrite fexp_eq in *.
    assert (Hn : Z.max (d + e - 53) (-1074) - e = d - 53) by lia.
    rewrite Hn in Hm2.
    assert (2 ^ 52 <= Zpos p / 2 ^ (d - 53)).
    { assert (0 < 2 ^ (d - 53)) by (apply Z.pow_pos_nonneg; lia).
      apply Z.div_le_lower_bound; [lia|].
      rewrite <- Z.pow_add_r by lia.
      replace (d - 53 + 52) with (d - 1) by lia. assumption. }
    lia.
Qed.

Lemma binary_normalize_zero_iff k e s :
  -1074 <= e ->
  Js.strict_eq (binary_normalize Js.prec Js.emax k e s) zero = (k =? 0).
Proof.
  intros He. destruct k as [|p|p]; simpl binary_normalize.
  - now destruct s.
  - now apply binary_round_nonzero.
  - now apply binary_round_nonzero.
Qed.

Lemma rem_64_aligned m e :
  let ez := Z.min e (-46) in
  (Zpos (fst (shl_align m e ez))
     mod Zpos (fst (shl_align (Z.to_pos (2 ^ 52)) (-46) ez)) =? 0)
  = multiple_of_64 m e.
Proof.
  intros ez. rewrite !shl_align_spec by (unfold ez; lia).
  change (Zpos (Z.to_pos (2 ^ 52))) with (2 ^ 52).
  rewrite <- Z.pow_add_r by (unfold ez; lia).
  unfold multiple_of_64.
  assert (Hp : 0 < 2 ^ (e - ez)) by (apply Z.pow_pos_nonneg; unfold ez; lia).
  destruct (Z.leb_spec 6 e) as [H6|H6]; cbn [orb].
  - apply Z.eqb_eq. unfold ez. rewrite Z.min_r by lia.
    replace (e - -46) with ((e - 6) + 52) by lia.
    rewrite Z.pow_add_r by lia. change (52 + (-46 - -46)) with 52.
    rewrite Z.mul_assoc. apply Z.mod_mul. lia.
  - replace (52 + (-46 - ez)) with ((6 - e) + (e - ez)) by lia.
    rewrite Z.pow_add_r by (unfold ez; lia).
    rewrite Z.mul_mod_distr_r by (try apply Z.pow_nonzero; unfold ez; lia).
    destruct (Z.eqb_spec (Zpos m mod 2 ^ (6 - e)) 0) as [->|Hn].
    + reflexivity.
    + apply Z.eqb_neq. nia.
Qed.

Lemma cond_Zopp_zero_iff s k : (cond_Zopp s k =? 0) = (k =? 0).
Proof.
  destruct s; simpl; [|reflexivity].
  destruct (Z.eqb_spec k 0), (Z.eqb_spec (- k) 0); try reflexivity; lia.
Qed.

(** On valid numbers the test [x % 64 === 0] holds exactly of the integer
    multiples of 64. *)
Lemma is_multiple_of_64_correct x :
  Js.valid x = true -> is_multiple_of_64 x = represents_multiple_of_64 x.
Proof.
  intros Hv. destruct x as [s|s| |s m e]; try reflexivity.
  simpl in Hv. destruct (bounded_inv m e Hv) as (He & _ & _).
  unfold is_multiple_of_64, represents_multiple_of_64, Js.rem, n64.
    rewrite binary_normalize_zero_iff by lia.
    rewrite cond_Zopp_zero_iff.
    change 4503599627370496%positive with (Z.to_pos (2 ^ 52)).
    apply rem_64_aligned.
Qed.

End Binary64.

Import Binary64.

(** ** Shape of the results of [closestMultiple] *)

Lemma closestMultiple_clamp x :
  closestMultiple x n64
  = clamp (Js.mul (Js.floor (Js.div x n64)) n64)
  \/ closestMultiple x n64
     = clamp (Js.mul (Js.ceil (Js.div x n64)) n64).
Proof.
  unfold closestMultiple, clamp.
  destruct (Js.lt _ _); [left|right]; reflexivity.
Qed.

Lemma signed_not_nan x : Js.isNaN x = false -> exists s, signed s x.
Proof.
  destruct x as [s|s| |s m e]; intros H; try discriminate H;
    exists s; unfold signed; eauto.
Qed.

Lemma div_n64_signed s x :
  Js.valid x = true -> signed s x ->
  Js.valid (Js.div x n64) = true /\ signed s (Js.div x n64).
Proof.
  intros Hv [->|[->|(m & e & ->)]].
  - split; [reflexivity|]. left. simpl. now rewrite xorb_false_r'.
  - split; [reflexivity|]. right; left. simpl. now rewrite xorb_false_r'.
  - rewrite <- (xorb_false_r' s) at 2.
    apply div_finite_valid; [assumption|reflexivity].
Qed.

Lemma clamp_integral s c :
  integral_multiple_of_64 s c -> positive_multiple_of_64 (clamp c).
Proof.
  unfold clamp.
  intros [->|[->|(m & e & -> & Hb & Hm)]].
  - destruct s; right; exists (Z.to_pos (2 ^ 52)), (-46); repeat split.
  - destruct s.
    + right; exists (Z.to_pos (2 ^ 52)), (-46); repeat split.
    + left; reflexivity.
  - destruct s.
    + right; exists (Z.to_pos (2 ^ 52)), (-46); repeat split.
    + right. exists m, e. repeat split; assumption.
Qed.

Lemma clamp_nonpositive c :
  integral_multiple_of_64 true c -> clamp c = n64.
Proof.
  unfold clamp. intros [->|[->|(m & e & -> & _)]]; reflexivity.
Qed.

Lemma closestMultiple_shape x :
  Js.valid x = true -> Js.isNaN x = false ->
  positive_multiple_of_64 (closestMultiple x n64).
Proof.
  intros Hv Hn. destruct (signed_not_nan x Hn) as [s Hs].
  destruct (div_n64_signed s x Hv Hs) as [Hvz Hsz].
  destruct (closestMultiple_clamp x) as [-> | ->];
    apply (clamp_integral s), mul_integral_64.
  - now apply floor_integral.
  - now apply ceil_integral.
Qed.

Lemma closestMultiple_nonpositive x :
  Js.valid x = true -> signed true x -> closestMultiple x n64 = n64.
Proof.
  intros Hv Hs.
  destruct (div_n64_signed true x Hv Hs) as [Hvz Hsz].
  destruct (closestMultiple_clamp x) as [-> | ->];
    apply clamp_nonpositive, mul_integral_64.
  - now apply floor_integral.
  - now apply ceil_integral.
Qed.

(** *** Arguments between 0 and 1024 *)

Lemma le_pow2_inv m e k :
  Js.le (S754_finite false m e) (S754_finite false (Z.to_pos (2 ^ 52)) k) = true ->
  e < k \/ (e = k /\ Zpos m <= 2 ^ 52).
Proof.
  unfold Js.le, SFleb, SFcompare.
  destruct (Z.compare_spec e k) as [->|Hlt|Hgt]; [|auto|discriminate].
  intros H. right. split; [reflexivity|].
  change (2 ^ 52) with (Zpos (Z.to_pos (2 ^ 52))).
  apply Pos2Z.pos_le_pos.
  change (Pos.compare_cont Eq m (Z.to_pos (2 ^ 52)))
    with (Pos.compare m (Z.to_pos (2 ^ 52))) in H.
  destruct (Pos.compare_spec m (Z.to_pos (2 ^ 52))); try discriminate H; lia.
Qed.

Lemma div_digits_le mx my sh :
  0 <= sh ->
  Zdigits2 (Zpos mx * 2 ^ sh / Zpos my)
  <= Z.max 0 (Zdigits2 (Zpos mx) + sh - Zdigits2 (Zpos my) + 1).
Proof.
  intros Hs.
  set (dx := Zdigits2 (Zpos mx)). set (dy := Zdigits2 (Zpos my)).
  destruct (Zdigits2_bounds (Zpos mx) ltac:(lia)) as [_ Hux].
  destruct (Zdigits2_bounds (Zpos my) ltac:(lia)) as [Hly _].
  fold dx in Hux. fold dy in Hly.
  assert (Hdx : 1 <= dx) by (unfold dx; simpl; lia).
  assert (Hdy : 1 <= dy) by (unfold dy; simpl; lia).
  assert (Hp : 0 < 2 ^ sh) by (apply Z.pow_pos_nonneg; lia).
  assert (Hnum : Zpos mx * 2 ^ sh < 2 ^ (dx + sh)).
  { rewrite Z.pow_add_r by lia. apply Z.mul_lt_mono_pos_r; lia. }
  assert (Hq : 0 <= Zpos mx * 2 ^ sh / Zpos my) by (apply Z.div_pos; lia).
  destruct (Z_le_gt_dec (dx + sh - dy + 1) 0) as [Hle|Hgt].
  - assert (Zpos mx * 2 ^ sh / Zpos my = 0) as ->; [|simpl; lia].
    apply Z.div_small. split; [lia|].
    apply Z.lt_le_trans with (1 := Hnum).
    apply Z.le_trans with (2 := Hly). apply Z.pow_le_mono_r; lia.
  - rewrite Z.max_r by lia. apply Zdigits2_le; [lia|]. split; [assumption|].
    apply Z.div_lt_upper_bound; [lia|].
    apply Z.lt_le_trans with (1 := Hnum).
    apply Z.le_trans with (2 ^ (dy - 1) * 2 ^ (dx + sh - dy + 1)).
    + rewrite <- Z.pow_add_r by lia. apply Z.pow_le_mono_r; lia.
    + apply Z.mul_le_mono_nonneg_r; [apply Z.pow_nonneg|]; lia.
Qed.

(** A quotient is bounded by the power of two its operands allow. *)
Lemma div_le_pow2 mx ex my ey k :
  bounded Js.prec Js.emax mx ex = true ->
  bounded Js.prec Js.emax my ey = true ->
  Zdigits2 (Zpos mx) + ex - (Zdigits2 (Zpos my) + ey) + 1 <= k ->
  ex - ey <= k -> -1021 <= k <= 1023 ->
  Js.le (Js.div (S754_finite false mx ex) (S754_finite false my ey))
        (S754_finite false (Z.to_pos (2 ^ 52)) (k - 52)) = true.
Proof.
  intros Hx Hy Hd He Hk. unfold Js.div, SFdiv.
  destruct (div_core_spec mx ex my ey) as (q & l & -> & Hq).
  destruct (div_shift_ok mx ex my ey q Hx Hy Hq) as [Hq0 Hsh].
  simpl xorb. apply round_le_pow2; try assumption.
  set (e' := Z.min _ _) in *.
  assert (Hs : 0 <= ex - ey - e') by (unfold e'; lia).
  pose proof (div_digits_le mx my (ex - ey - e') Hs) as Hdq.
  rewrite <- Hq in Hdq. unfold e' in *. lia.
Qed.

Lemma small_cases m e :
  bounded Js.prec Js.emax m e = true ->
  Js.le (S754_finite false m e) n1024 = true ->
  S754_finite false m e = n1024 \/ e <= -43.
Proof.
  intros Hb Hle.
  destruct (le_pow2_inv m e (-42) Hle) as [H|[-> Hm]]; [right; lia|left].
  destruct (bounded_inv m (-42) Hb) as (_ & _ & [Hd|Hd]); [|lia].
  destruct (normal_mantissa m Hd) as [Hl _].
  assert (Zpos m = 2 ^ 52) by lia.
  unfold n1024. f_equal. apply Pos2Z.inj. assumption.
Qed.

Lemma div_n64_small m e :
  bounded Js.prec Js.emax m e = true -> e <= -43 ->
  Js.le (Js.div (S754_finite false m e) n64) n16 = true.
Proof.
  intros Hb He. destruct (bounded_inv m e Hb) as (_ & Hd & _).
  unfold n64, n16. change 4503599627370496%positive with (Z.to_pos (2 ^ 52)).
  change (-48) with (4 - 52).
  apply div_le_pow2; try assumption; try reflexivity; simpl Zdigits2 in *; lia.
Qed.

Lemma floor_ceil_small m e :
  bounded Js.prec Js.emax m e = true ->
  Js.le (S754_finite false m e) n16 = true ->
  (exists k, 0 <= k <= 16 /\ Js.floor (S754_finite false m e) = Js.of_Z k)
  /\ (exists k, 0 <= k <= 16 /\ Js.ceil (S754_finite false m e) = Js.of_Z k).
Proof.
  intros Hb Hle.
  destruct (bounded_mantissa m e Hb) as [Hm0 Hm1].
  assert (He : e < 0 /\ Zpos m <= 16 * 2 ^ (- e)).
  { destruct (le_pow2_inv m e (-48) Hle) as [H|[-> Hm]].
    - split; [lia|].
      apply Z.le_trans with (16 * 2 ^ 49); [simpl; lia|].
      apply Z.mul_le_mono_nonneg_l; [lia|]. apply Z.pow_le_mono_r; lia.
    - split; [lia|]. simpl in *. lia. }
  destruct He as [He Hm].
  assert (Hp : 0 < 2 ^ (- e)) by (apply Z.pow_pos_nonneg; lia).
  unfold Js.floor, Js.ceil, Js.of_Z.
  destruct (Z.leb_spec 0 e); [lia|]. unfold cond_Zopp.
  rewrite !Z.shiftr_div_pow2 by lia.
  split.
  - exists (Zpos m / 2 ^ (- e)). split; [|reflexivity]. split.
    + apply Z.div_pos; lia.
    + apply Z.div_le_upper_bound; lia.
  - exists (- (- Zpos m / 2 ^ (- e))). split; [|reflexivity].
    assert (- Zpos m / 2 ^ (- e) < 0) by (apply Z.div_lt_upper_bound; lia).
    assert (-16 <= - Zpos m / 2 ^ (- e)) by (apply Z.div_le_lower_bound; lia).
    lia.
Qed.

Lemma clamp_small k :
  0 <= k <= 16 -> In (clamp (Js.mul (Js.of_Z k) n64)) small_multiples.
Proof.
  intros Hk.
  assert (H : k = 0 \/ k = 1 \/ k = 2 \/ k = 3 \/ k = 4 \/ k = 5 \/ k = 6
              \/ k = 7 \/ k = 8 \/ k = 9 \/ k = 10 \/ k = 11 \/ k = 12
              \/ k = 13 \/ k = 14 \/ k = 15 \/ k = 16) by lia.
  repeat (destruct H as [->|H]; [vm_compute; tauto|]).
  subst k. vm_compute; tauto.
Qed.

Lemma n64_small : In n64 small_multiples.
Proof. vm_compute; tauto. Qed.

Lemma closestMultiple_small x :
  Js.valid x = true -> Js.isNaN x = false -> Js.le x n1024 = true ->
  In (closestMultiple x n64) small_multiples.
Proof.
  intros Hv Hn Hle.
  destruct x as [s|s| |s m e]; try discriminate Hn.
  - destruct s; vm_compute; tauto.
  - destruct s; [vm_compute; tauto|discriminate Hle].
  - simpl in Hv. destruct s.
    + rewrite closestMultiple_nonpositive; [apply n64_small|assumption|].
      right; right; eauto.
    + destruct (small_cases m e Hv Hle) as [-> |He]; [vm_compute; tauto|].
      pose proof (div_n64_small m e Hv He) as Hz.
      destruct (div_n64_signed false (S754_finite false m e) Hv)
        as [Hvz Hsz]; [right; right; eauto|].
      destruct Hsz as [Hz0|[Hz0|(mz & ez & Hz0)]]; rewrite Hz0 in Hz, Hvz.
      * destruct (closestMultiple_clamp (S754_finite false m e)) as [-> | ->];
          rewrite Hz0; vm_compute; tauto.
      * discriminate Hz.
      * destruct (floor_ceil_small mz ez Hvz Hz)
          as [(kf & Hkf & Hf) (kc & Hkc & Hc)].
        destruct (closestMultiple_clamp (S754_finite false m e)) as [-> | ->];
          rewrite Hz0; [rewrite Hf|rewrite Hc]; now apply clamp_small.
Qed.

(** *** The two quotients and products of the fallback branch *)

Lemma gt_one_inv m e :
  bounded Js.prec Js.emax m e = true ->
  Js.gt (S754_finite false m e) one = true ->
  -52 < e \/ (e = -52 /\ 2 ^ 52 < Zpos m).
Proof.
  intros Hb. unfold Js.gt, SFltb, SFcompare, one.
  destruct (Z.compare_spec (-52) e) as [<-|Hlt|Hgt]; [|auto|discriminate].
  intros H. right. split; [reflexivity|].
  change (Pos.compare_cont Eq 4503599627370496 m)
    with (Pos.compare 4503599627370496 m) in H.
  destruct (Pos.compare_spec 4503599627370496 m); try discriminate H.
  change (2 ^ 52) with (Zpos 4503599627370496). lia.
Qed.

Lemma div_1024_le ar :
  Js.valid ar = true -> Js.gt ar one = true ->
  Js.valid (Js.div n1024 ar) = true
  /\ Js.isNaN (Js.div n1024 ar) = false
  /\ Js.le (Js.div n1024 ar) n1024 = true.
Proof.
  intros Hv Hgt. destruct ar as [s|s| |s m e]; try discriminate Hgt.
  - destruct s; [discriminate Hgt|]. repeat split.
  - destruct s; [discriminate Hgt|]. simpl in Hv.
    destruct (div_finite_valid false (Z.to_pos (2 ^ 52)) (-42) false m e
                eq_refl Hv) as [Hvd Hsd].
    change (S754_finite false (Z.to_pos (2 ^ 52)) (-42)) with n1024 in *.
    split; [assumption|].
    split; [destruct Hsd as [->|[->|(mz & ez & ->)]]; reflexivity|].
    destruct (bounded_inv m e Hv) as (He & Hd & Hc).
    change n1024 with (S754_finite false (Z.to_pos (2 ^ 52)) (10 - 52)).
    destruct (gt_one_inv m e Hv Hgt) as [Hlt|[-> Hm]].
    + assert (Zdigits2 (Zpos m) = 53) by lia.
      apply div_le_pow2; try assumption; try reflexivity;
        simpl Zdigits2 in *; lia.
    + (* 1 < ar < 2: the quotient has at most 53 bits *)
      unfold Js.div, SFdiv.
      destruct (div_core_spec (Z.to_pos (2 ^ 52)) (10 - 52) m (-52))
        as (q & l & -> & Hq).
      destruct (div_shift_ok (Z.to_pos (2 ^ 52)) (10 - 52) m (-52) q
                  ltac:(reflexivity) Hv Hq) as [Hq0 Hsh].
      simpl xorb. apply round_le_pow2; try assumption; try lia.
      assert (Hdm : Zdigits2 (Zpos m) = 53) by lia.
      rewrite Hdm, fexp_eq in *.
      change (Zdigits2 (Zpos (Z.to_pos (2 ^ 52)))) with 53 in *.
      change (Z.min (Z.max (53 + (10 - 52) - (53 + -52) - 53) (-1074))
                (10 - 52 - -52)) with (-43) in *.
      change (10 - 52 - -52 - -43) with 53 in Hq.
      assert (q < 2 ^ 53).
      { rewrite Hq. apply Z.div_lt_upper_bound; [lia|].
        change (Zpos (Z.to_pos (2 ^ 52)) * 2 ^ 53) with (2 ^ 52 * 2 ^ 53).
        apply Z.mul_lt_mono_pos_r; lia. }
      assert (Zdigits2 q <= 53) by (apply Zdigits2_le; lia).
      lia.
Qed.

Lemma le_one_cases m e :
  bounded Js.prec Js.emax m e = true ->
  Js.le (S754_finite false m e) one = true ->
  S754_finite false m e = one \/ e <= -53.
Proof.
  intros Hb Hle.
  destruct (le_pow2_inv m e (-52) Hle) as [H|[-> Hm]]; [right; lia|left].
  destruct (bounded_inv m (-52) Hb) as (_ & _ & [Hd|Hd]); [|lia].
  destruct (normal_mantissa m Hd) as [Hl _].
  assert (Zpos m = 2 ^ 52) by lia.
  unfold one. f_equal. apply Pos2Z.inj. assumption.
Qed.

Lemma mul_1024_le m e :
  bounded Js.prec Js.emax m e = true ->
  Js.le (S754_finite false m e) one = true ->
  Js.le (Js.mul n1024 (S754_finite false m e)) n1024 = true.
Proof.
  intros Hb Hle.
  destruct (le_one_cases m e Hb Hle) as [-> |He]; [reflexivity|].
  destruct (bounded_inv m e Hb) as (_ & Hd & _).
  destruct (bounded_mantissa m e Hb) as [Hm0 Hm1].
  unfold Js.mul, SFmul, n1024. simpl xorb.
  change 4503599627370496%positive with (Z.to_pos (2 ^ 52)).
  change (-42) with (10 - 52) at 2.
  assert (Zdigits2 (Zpos (Z.to_pos (2 ^ 52) * m)) <= 52 + Zdigits2 (Zpos m)).
  { destruct (Zdigits2_bounds (Zpos m) ltac:(lia)) as [_ Hu].
    apply Zdigits2_le; [lia|]. rewrite Pos2Z.inj_mul. split; [lia|].
    rewrite Z.pow_add_r by lia.
    change (Zpos (Z.to_pos (2 ^ 52))) with (2 ^ 52).
    apply Z.mul_lt_mono_pos_l; lia. }
  apply round_le_pow2; [lia| |lia|lia].
  apply (mul_shift_ok (Z.to_pos (2 ^ 52)) (-42) m e); [reflexivity|assumption].
Qed.

(** ** Exact integer values *)

Lemma multiple_of_64_value s m e :
  bounded Js.prec Js.emax m e = true ->
  multiple_of_64 m e = true ->
  exists c, 0 < c
    /\ exact_value (S754_finite s m e) = Some (cond_Zopp s (64 * c))
    /\ -46 <= e
    /\ Zpos m * 2 ^ (e + 46) = c * 2 ^ 52.
Proof.
  intros Hb H. destruct (bounded_mantissa m e Hb) as [Hm0 Hm1].
  unfold multiple_of_64 in H. apply orb_true_iff in H.
  unfold exact_value.
  destruct (Z.leb_spec 6 e) as [H6|H6].
  - clear H. exists (Zpos m * 2 ^ (e - 6)).
    assert (0 < 2 ^ (e - 6)) by (apply Z.pow_pos_nonneg; lia).
    split; [lia|].
    destruct (Z.leb_spec 0 e); [|lia].
    replace e with (6 + (e - 6)) at 1 by lia.
    replace (e + 46) with ((e - 6) + 52) by lia.
    rewrite !Z.pow_add_r by lia. change (2 ^ 6) with 64.
    split; [do 2 f_equal; lia|]. split; lia.
  - destruct H as [H|H]; [discriminate H|].
    apply Z.eqb_eq in H.
    assert (Hp : 0 < 2 ^ (6 - e)) by (apply Z.pow_pos_nonneg; lia).
    assert (He : -46 <= e).
    { destruct (Z_le_gt_dec (-46) e); [assumption|exfalso].
      assert (2 ^ 53 <= 2 ^ (6 - e)) by (apply Z.pow_le_mono_r; lia).
      rewrite Z.mod_small in H by lia. lia. }
    set (c := Zpos m / 2 ^ (6 - e)).
    assert (Hc : Zpos m = 2 ^ (6 - e) * c).
    { unfold c. apply Z_div_exact_full_2; [lia|assumption]. }
    exists c. split; [nia|].
    split; [|split; [assumption|]].
    + destruct (Z.leb_spec 0 e).
      * do 2 f_equal. rewrite Hc.
        replace 64 with (2 ^ (6 - e) * 2 ^ e); [lia|].
        rewrite <- Z.pow_add_r by lia. now replace (6 - e + e) with 6 by lia.
      * assert (Hs : 2 ^ (6 - e) = 64 * 2 ^ (- e)).
        { replace (6 - e) with (6 + - e) by lia.
          now rewrite Z.pow_add_r by lia. }
        assert (Hp' : 0 < 2 ^ (- e)) by (apply Z.pow_pos_nonneg; lia).
        rewrite Hc, Hs.
        replace (64 * 2 ^ (- e) * c) with (64 * c * 2 ^ (- e)) by lia.
        rewrite Z.mod_mul by lia. simpl Z.eqb.
        rewrite Z.div_mul by lia. reflexivity.
    + rewrite Hc.
      replace 52 with ((6 - e) + (e + 46)) by lia.
      rewrite (Z.pow_add_r 2 (6 - e) (e + 46)) by lia. lia.
Qed.

Lemma multiple_of_64_normal m e :
  bounded Js.prec Js.emax m e = true -> multiple_of_64 m e = true ->
  Zdigits2 (Zpos m) = 53.
Proof.
  intros Hb H.
  destruct (multiple_of_64_value false m e Hb H) as (c & _ & _ & He & _).
  destruct (bounded_inv m e Hb) as (_ & _ & [Hd|Hd]); [assumption|lia].
Qed.

(** When the rounded product of two positive multiples of 64 passes the
    area test, so does their exact product. *)
Lemma area_check_sound m1 e1 m2 e2 c1 c2 :
  bounded Js.prec Js.emax m1 e1 = true ->
  bounded Js.prec Js.emax m2 e2 = true ->
  -46 <= e1 -> -46 <= e2 ->
  Zpos m1 * 2 ^ (e1 + 46) = c1 * 2 ^ 52 ->
  Zpos m2 * 2 ^ (e2 + 46) = c2 * 2 ^ 52 ->
  Js.le (Js.mul (S754_finite false m1 e1) (S754_finite false m2 e2))
        MAX_OUTPUT_SIZE = true ->
  64 * c1 * (64 * c2) <= 1048576.
Proof.
  intros Hb1 Hb2 He1 He2 Hc1 Hc2.
  destruct (bounded_inv m1 e1 Hb1) as (_ & _ & Hn1).
  destruct (bounded_inv m2 e2 Hb2) as (_ & _ & Hn2).
  assert (Hd1 : Zdigits2 (Zpos m1) = 53) by lia.
  assert (Hd2 : Zdigits2 (Zpos m2) = 53) by lia.
  pose proof (Zdigits2_mul_ge (Zpos m1) (Zpos m2) ltac:(lia) ltac:(lia)) as Hge.
  pose proof (Zdigits2_mul_le (Zpos m1) (Zpos m2) ltac:(lia) ltac:(lia)) as Hle.
  rewrite <- Pos2Z.inj_mul in Hge, Hle. rewrite Hd1, Hd2 in Hge, Hle.
  unfold Js.mul, SFmul. simpl xorb.
  set (P := Zpos (m1 * m2)) in *. set (E := e1 + e2).
  set (dP := Zdigits2 P) in *.
  assert (HX : P * 2 ^ (E + 92) = c1 * c2 * 2 ^ 104).
  { unfold P, E. rewrite Pos2Z.inj_mul.
    replace (e1 + e2 + 92) with ((e1 + 46) + (e2 + 46)) by lia.
    rewrite Z.pow_add_r by lia.
    replace (Zpos m1 * Zpos m2 * (2 ^ (e1 + 46) * 2 ^ (e2 + 46)))
      with (Zpos m1 * 2 ^ (e1 + 46) * (Zpos m2 * 2 ^ (e2 + 46))) by ring.
    rewrite Hc1, Hc2. change (2 ^ 104) with (2 ^ 52 * 2 ^ 52). ring. }
  assert (Hsh : E <= fexp Js.prec Js.emax (dP + E)).
  { now apply mul_shift_ok. }
  destruct (binary_round_aux_spec false P E loc_Exact ltac:(lia) Hsh)
    as (mr & Hmr & _ & ->).
  destruct (truncated_canonical P E ltac:(lia) Hsh) as (Hr & Hc & _).
  fold dP in Hmr, Hr, Hc. rewrite fexp_eq in *.
  assert (Her : Z.max (dP + E - 53) (-1074) = dP + E - 53) by (unfold E; lia).
  rewrite Her in *.
  replace (dP + E - 53 - E) with (dP - 53) in * by lia.
  set (t := P / 2 ^ (dP - 53)) in *.
  assert (Ht : 2 ^ 52 <= t) by lia.
  destruct (Zdigits2_bounds P ltac:(lia)) as [_ HuP]. fold dP in HuP.
  assert (Hp92 : 0 < 2 ^ (E + 92)) by (apply Z.pow_pos_nonneg; unfold E; lia).
  set (K := c1 * c2) in *.
  assert (Hsmall : dP + E - 53 <= -33 -> K * 2 ^ 104 < 2 ^ 112).
  { intros H. rewrite <- HX.
    apply Z.lt_le_trans with (2 ^ dP * 2 ^ (E + 92)).
    - apply Z.mul_lt_mono_pos_r; lia.
    - rewrite <- Z.pow_add_r by (unfold E; lia).
      apply Z.pow_le_mono_r; lia. }
  intros Hcheck. fold dP in Hcheck. rewrite Her in Hcheck.
  assert (HK : K * 2 ^ 104 < 2 ^ 112 + 2 ^ 60); [|lia].
  unfold pack, overflow_or, MAX_OUTPUT_SIZE in Hcheck.
  change 4503599627370496%positive with (Z.to_pos (2 ^ 52)) in Hcheck.
  destruct (Z.eqb_spec mr 0); [lia|].
  destruct (Z.eqb_spec mr (2 ^ 53)).
  - destruct (Z.leb_spec (dP + E - 53 + 1) 971); [|discriminate Hcheck].
    apply le_pow2_inv in Hcheck.
    assert (K * 2 ^ 104 < 2 ^ 112) by (apply Hsmall; lia). lia.
  - destruct (Z.leb_spec (dP + E - 53) 971); [|discriminate Hcheck].
    apply le_pow2_inv in Hcheck.
    rewrite Z2Pos.id in Hcheck by lia.
    destruct Hcheck as [Hlt|[Heq Hm]].
    + assert (K * 2 ^ 104 < 2 ^ 112) by (apply Hsmall; lia). lia.
    + assert (Htt : t = 2 ^ 52) by lia.
      assert (Hn : 0 <= dP - 53 <= 53) by lia.
      assert (Hpn : 0 < 2 ^ (dP - 53)) by (apply Z.pow_pos_nonneg; lia).
      assert (HP : P < (2 ^ 52 + 1) * 2 ^ (dP - 53)).
      { pose proof (Z.div_mod P (2 ^ (dP - 53)) ltac:(lia)) as Hdm.
        pose proof (Z.mod_pos_bound P (2 ^ (dP - 53)) Hpn) as Hmb.
        fold t in Hdm. rewrite Htt in Hdm. lia. }
      rewrite <- HX.
      apply Z.lt_le_trans with ((2 ^ 52 + 1) * 2 ^ (dP - 53) * 2 ^ (E + 92)).
      * apply Z.mul_lt_mono_pos_r; lia.
      * rewrite <- Z.mul_assoc, <- Z.pow_add_r by (unfold E; lia).
        replace (dP - 53 + (E + 92)) with 60 by lia.
        change (2 ^ 112) with (2 ^ 52 * 2 ^ 60). lia.
Qed.

(** ** [resizeInput] *)

Lemma resizeInput_unfold w h :
  resizeInput (mkSize w h)
  = if satisfies_invariant (mkSize w h) then mkSize w h
    else resize_by_ratio (Js.div w h).
Proof. reflexivity. Qed.

Lemma mul_comm x y : Js.mul x y = Js.mul y x.
Proof.
  destruct x as [sx|sx| |sx mx ex], y as [sy|sy| |sy my ey]; simpl;
    try rewrite (xorb_comm sx sy); try reflexivity.
  now rewrite Pos.mul_comm, Z.add_comm.
Qed.

Lemma fixed_512_good c :
  positive_multiple_of_64 c ->
  Js.le (Js.mul c n512) MAX_OUTPUT_SIZE = true ->
  good_size (mkSize c n512) = true /\ good_size (mkSize n512 c) = true.
Proof.
  intros [->|(m & e & -> & Hb & Hm)] Hle; [discriminate Hle|].
  destruct (multiple_of_64_value false m e Hb Hm) as (c & Hc0 & Hv & He & Hc).
  pose proof (multiple_of_64_normal m e Hb Hm) as Hd.
  destruct (bounded_mantissa m e Hb) as [Hm0 Hm1].
  assert (Hc32 : c <= 32).
  { unfold n512 in Hle.
    change 4503599627370496%positive with (Z.to_pos (2 ^ 52)) in Hle.
    rewrite mul_pow2_exact in Hle by (try assumption; lia).
    unfold overflow_or, MAX_OUTPUT_SIZE in Hle.
    destruct (Z.leb_spec (e + -43 + 52) 971); [|discriminate Hle].
    change 4503599627370496%positive with (Z.to_pos (2 ^ 52)) in Hle.
    apply le_pow2_inv in Hle.
    assert (Hp : 0 < 2 ^ (e + 46)) by (apply Z.pow_pos_nonneg; lia).
    assert (Zpos m * 2 ^ (e + 46) <= 2 ^ 57); [|lia].
    destruct Hle as [Hlt|[Heq Hle]].
    - apply Z.le_trans with (2 ^ 53 * 2 ^ (e + 46)); [nia|].
      rewrite <- Z.pow_add_r by lia. apply Z.pow_le_mono_r; lia.
    - replace (e + 46) with 5 by lia. lia. }
  assert (Hvs : valid_size (mkSize (S754_finite false m e) n512) = true
                /\ valid_size (mkSize n512 (S754_finite false m e)) = true).
  { unfold valid_size. simpl width. simpl height. rewrite Hv.
    change (exact_value n512) with (Some 512). unfold cond_Zopp.
    rewrite (Z.mul_comm 64 c), Z.mod_mul by lia.
    split; apply andb_true_iff; (split; [reflexivity|]); apply Z.leb_le; lia. }
  assert (Hinv : satisfies_invariant (mkSize (S754_finite false m e) n512) = true
                 /\ satisfies_invariant (mkSize n512 (S754_finite false m e)) = true).
  { unfold satisfies_invariant. simpl width. simpl height.
    rewrite (mul_comm n512), Hle.
    fold (is_multiple_of_64 (S754_finite false m e)).
    rewrite is_multiple_of_64_correct by assumption. simpl. rewrite Hm.
    split; reflexivity. }
  unfold good_size. destruct Hvs as [-> ->], Hinv as [-> ->].
  split; reflexivity.
Qed.

Lemma fallback_good c :
  In c small_multiples ->
  good_size (mkSize n1024 c) = true /\ good_size (mkSize c n1024) = true.
Proof.
  revert c. apply Forall_forall.
  repeat (apply Forall_cons; [split; vm_compute; reflexivity|]).
  apply Forall_nil.
Qed.

Lemma mul_not_nan_finite s m e x :
  Js.valid x = true -> bounded Js.prec Js.emax m e = true ->
  Js.isNaN x = false ->
  Js.isNaN (Js.mul (S754_finite s m e) x) = false.
Proof.
  intros Hv Hb Hn. destruct x as [sx|sx| |sx mx ex]; try reflexivity.
  - discriminate Hn.
  - simpl in Hv.
    destruct (mul_finite_valid s m e sx mx ex Hb Hv)
      as [_ [->|[->|(mz & ez & ->)]]]; reflexivity.
Qed.

Lemma div_not_nan_finite s m e x :
  Js.valid x = true -> bounded Js.prec Js.emax m e = true ->
  Js.isNaN x = false ->
  Js.isNaN (Js.div (S754_finite s m e) x) = false.
Proof.
  intros Hv Hb Hn. destruct x as [sx|sx| |sx mx ex]; try reflexivity.
  - discriminate Hn.
  - simpl in Hv.
    destruct (div_finite_valid s m e sx mx ex Hb Hv)
      as [_ [->|[->|(mz & ez & ->)]]]; reflexivity.
Qed.

Lemma SFcompare_finite_positive m1 e1 m2 e2 :
  SFcompare (S754_finite false m1 e1) (S754_finite false m2 e2)
  = Some match Z.compare e1 e2 with
         | Lt => Lt
         | Gt => Gt
         | Eq => Pos.compare m1 m2
         end.
Proof. reflexivity. Qed.

Lemma not_gt_le_finite m1 e1 m2 e2 :
  Js.gt (S754_finite false m1 e1) (S754_finite false m2 e2) = false ->
  Js.le (S754_finite false m1 e1) (S754_finite false m2 e2) = true.
Proof.
  unfold Js.gt, Js.le, SFltb, SFleb.
  rewrite !SFcompare_finite_positive.
  rewrite (Z.compare_antisym e1 e2), (Pos.compare_antisym m1 m2).
  destruct (e1 ?= e2), (m1 ?= m2)%positive; cbn; easy.
Qed.

Lemma not_gt_one_le ar :
  Js.valid ar = true -> Js.isNaN ar = false -> Js.gt ar one = false ->
  Js.le (Js.mul n1024 ar) n1024 = true.
Proof.
  intros Hv Hn Hgt. destruct ar as [s|s| |s m e]; try discriminate Hn.
  - now destruct s.
  - destruct s; [reflexivity|discriminate Hgt].
  - simpl in Hv. destruct s.
    + destruct (mul_finite_valid false (Z.to_pos (2 ^ 52)) (-42) true m e
                  eq_refl Hv) as [_ Hs].
      change (S754_finite false (Z.to_pos (2 ^ 52)) (-42)) with n1024 in Hs.
      simpl xorb in Hs.
      destruct Hs as [->|[->|(mz & ez & ->)]]; reflexivity.
    + apply mul_1024_le; [assumption|].
      now apply not_gt_le_finite.
Qed.

Lemma resize_by_ratio_good ar :
  Js.valid ar = true -> Js.isNaN ar = false ->
  good_size (resize_by_ratio ar) = true.
Proof.
  intros Hv Hn. unfold resize_by_ratio.
  destruct (Js.gt ar one) eqn:Hgt.
  - destruct (Js.le (Js.mul (closestMultiple (Js.mul n512 ar) n64) n512)
                MAX_OUTPUT_SIZE) eqn:Hfit.
    + apply fixed_512_good; [|assumption].
      apply closestMultiple_shape.
      * apply mul_valid; [reflexivity|assumption].
      * apply mul_not_nan_finite; auto.
    + destruct (div_1024_le ar Hv Hgt) as (Hvd & Hnd & Hle).
      apply fallback_good. now apply closestMultiple_small.
  - destruct (Js.le (Js.mul n512 (closestMultiple (Js.div n512 ar) n64))
                MAX_OUTPUT_SIZE) eqn:Hfit.
    + rewrite mul_comm in Hfit. apply fixed_512_good; [|assumption].
      apply closestMultiple_shape.
      * apply div_valid; [reflexivity|assumption].
      * apply div_not_nan_finite; auto.
    + apply fallback_good. apply closestMultiple_small.
      * apply mul_valid; [reflexivity|assumption].
      * apply mul_not_nan_finite; auto.
      * now apply not_gt_one_le.
Qed.

Lemma as_is_valid w h :
  Js.valid w = true -> Js.valid h = true ->
  Js.gt w zero = true -> Js.gt h zero = true ->
  satisfies_invariant (mkSize w h) = true ->
  valid_size (mkSize w h) = true.
Proof.
  intros Hvw Hvh Hw Hh Hinv.
  unfold satisfies_invariant in Hinv. simpl width in Hinv. simpl height in Hinv.
  apply andb_true_iff in Hinv. destruct Hinv as [Hinv Harea].
  apply andb_true_iff in Hinv. destruct Hinv as [Hmw Hmh].
  fold (is_multiple_of_64 w) in Hmw. fold (is_multiple_of_64 h) in Hmh.
  rewrite is_multiple_of_64_correct in Hmw, Hmh by assumption.
  destruct w as [sw|sw| |sw mw ew]; try discriminate Hw; try discriminate Hmw.
  destruct h as [sh|sh| |sh mh eh]; try discriminate Hh; try discriminate Hmh.
  destruct sw; [discriminate Hw|]. destruct sh; [discriminate Hh|].
  simpl in Hvw, Hvh, Hmw, Hmh.
  destruct (multiple_of_64_value false mw ew Hvw Hmw) as (a & Ha0 & Hva & Hea & Ha).
  destruct (multiple_of_64_value false mh eh Hvh Hmh) as (b & Hb0 & Hvb & Heb & Hb).
  pose proof (area_check_sound mw ew mh eh a b Hvw Hvh Hea Heb Ha Hb Harea).
  unfold valid_size. simpl width. simpl height. rewrite Hva, Hvb.
  unfold cond_Zopp.
  rewrite (Z.mul_comm 64 a), (Z.mul_comm 64 b), !Z.mod_mul by lia.
  apply Z.leb_le. lia.
Qed.

(** C1.  For every input with width > 0 and height > 0, [resizeInput]
    returns a size whose two dimensions are integer multiples of 64 and
    whose area is at most 1,048,576; the result also passes the test the
    source itself applies (line 160).  All three branches are covered. *)
Theorem resizeInput_positive_input w h :
  Js.valid w = true -> Js.valid h = true ->
  Js.gt w zero = true -> Js.gt h zero = true ->
  valid_size (resizeInput (mkSize w h)) = true
  /\ satisfies_invariant (resizeInput (mkSize w h)) = true.
Proof.
  intros Hvw Hvh Hw Hh. rewrite resizeInput_unfold.
  destruct (satisfies_invariant (mkSize w h)) eqn:Hinv.
  - split; [now apply as_is_valid|assumption].
  - destruct (Js.isNaN (Js.div w h)) eqn:Hn.
    + (* only Infinity / Infinity is not a number here *)
      destruct w as [sw|sw| |sw mw ew]; try discriminate Hw;
        destruct h as [sh|sh| |sh mh eh]; try discriminate Hh;
        destruct sw; try discriminate Hw; destruct sh; try discriminate Hh.
      * split; reflexivity.
      * discriminate Hn.
      * discriminate Hn.
      * simpl in Hvw, Hvh.
        rewrite div_not_nan_finite in Hn by (try assumption; reflexivity).
        discriminate Hn.
    + pose proof (resize_by_ratio_good (Js.div w h)
                    (div_valid w h Hvw Hvh) Hn) as Hg.
      unfold good_size in Hg.
      apply andb_true_iff in Hg. destruct Hg as [Hg _].
      apply andb_true_iff in Hg. exact Hg.
Qed.

Lemma resizeInput_positive_input_witness :
  valid_size (resizeInput (mkSize (Js.of_Z 1000) (Js.of_Z 100))) = true
  /\ satisfies_invariant (resizeInput (mkSize (Js.of_Z 1000) (Js.of_Z 100))) = true.
Proof.
  apply (resizeInput_positive_input (Js.of_Z 1000) (Js.of_Z 100));
    reflexivity.
Defined.

(** Every finite input the first test rejects is fitted to a strictly
    positive size. *)
Lemma resizeInput_rejected_good w h :
  Js.valid w = true -> Js.valid h = true ->
  is_finite w = true -> is_finite h = true ->
  satisfies_invariant (mkSize w h) = false ->
  good_size (resizeInput (mkSize w h)) = true.
Proof.
  intros Hvw Hvh Hfw Hfh Hinv. rewrite resizeInput_unfold, Hinv.
  apply resize_by_ratio_good; [now apply div_valid|].
  destruct w as [sw|sw| |sw mw ew]; try discriminate Hfw;
    destruct h as [sh|sh| |sh mh eh]; try discriminate Hfh;
    try reflexivity.
  - destruct sw, sh; discriminate Hinv.
  - now apply div_not_nan_finite.
Qed.

(** C4 (as amended).  A finite input with a zero or negative dimension
    that the first test of [resizeInput] rejects is fitted to a size whose
    dimensions are strictly positive multiples of 64 and whose area is at
    most 1,048,576; one that passes the first test is returned unchanged. *)
Theorem resizeInput_degenerate_input w h :
  Js.valid w = true -> Js.valid h = true ->
  is_finite w = true -> is_finite h = true ->
  Js.le w zero = true \/ Js.le h zero = true ->
  (satisfies_invariant (mkSize w h) = false ->
   valid_size (resizeInput (mkSize w h)) = true
   /\ positive_size (resizeInput (mkSize w h)) = true)
  /\ (satisfies_invariant (mkSize w h) = true ->
      resizeInput (mkSize w h) = mkSize w h).
Proof.
  intros Hvw Hvh Hfw Hfh _. split; intros Hinv.
  - pose proof (resizeInput_rejected_good w h Hvw Hvh Hfw Hfh Hinv) as Hg.
    unfold good_size in Hg.
    apply andb_true_iff in Hg. destruct Hg as [Hg Hp].
    apply andb_true_iff in Hg. destruct Hg as [Hs _].
    split; assumption.
  - now rewrite resizeInput_unfold, Hinv.
Qed.

Lemma resizeInput_degenerate_input_witness :
  Js.le (Js.of_Z (-5)) zero = true
  /\ satisfies_invariant (mkSize (Js.of_Z (-5)) (Js.of_Z 5)) = false
  /\ valid_size (resizeInput (mkSize (Js.of_Z (-5)) (Js.of_Z 5))) = true
  /\ positive_size (resizeInput (mkSize (Js.of_Z (-5)) (Js.of_Z 5))) = true.
Proof.
  split; [reflexivity|]. split; [reflexivity|].
  apply (resizeInput_degenerate_input (Js.of_Z (-5)) (Js.of_Z 5));
    try reflexivity.
  left; reflexivity.
Defined.

(** C4 (counterexample).  The degenerate input 0 x 0 passes the first test
    and is returned unchanged: the result is not a positive size. *)
Lemma resizeInput_zero_by_zero :
  Js.le zero zero = true
  /\ resizeInput (mkSize zero zero) = mkSize zero zero
  /\ positive_size (resizeInput (mkSize zero zero)) = false.
Proof. repeat split. Qed.

Example resizeInput_negative_width :
  resizeInput (mkSize (Js.of_Z (-64)) (Js.of_Z 64))
  = mkSize (Js.of_Z (-64)) (Js.of_Z 64).
Proof. reflexivity. Qed.

Example resizeInput_512_512 :
  resizeInput (mkSize n512 n512) = mkSize n512 n512.
Proof. reflexivity. Qed.

Example resizeInput_1920_1080 :
  resizeInput (mkSize (Js.of_Z 1920) (Js.of_Z 1080))
  = mkSize (Js.of_Z 896) (Js.of_Z 512).
Proof. reflexivity. Qed.

Example resizeInput_square_takes_portrait_branch :
  resizeInput (mkSize (Js.of_Z 513) (Js.of_Z 513)) = mkSize n512 n512.
Proof. reflexivity. Qed.

Example resizeInput_infinite_ratio :
  resizeInput (mkSize (S754_infinity true) (S754_infinity false))
  = mkSize n512 zero.
Proof. reflexivity. Qed.

(** ** Ties in [closestMultiple] *)

Lemma strict_eq_not_lt a b : Js.strict_eq a b = true -> Js.lt a b = false.
Proof.
  unfold Js.strict_eq, Js.lt, SFeqb, SFltb.
  destruct (SFcompare a b) as [[]|]; easy.
Qed.

Lemma ceil_finite_positive m e :
  bounded Js.prec Js.emax m e = true ->
  exists m' e', Js.ceil (S754_finite false m e) = S754_finite false m' e'
    /\ bounded Js.prec Js.emax m' e' = true
    /\ Zdigits2 (Zpos m') = 53.
Proof.
  intros Hb. destruct (bounded_inv m e Hb) as (He & Hd & Hc).
  destruct (bounded_mantissa m e Hb) as [Hm0 Hm1].
  unfold Js.ceil. destruct (Z.leb_spec 0 e).
  - exists m, e. repeat split; [assumption|lia].
  - unfold cond_Zopp. rewrite Z.shiftr_div_pow2 by lia.
    assert (Hp : 0 < 2 ^ (- e)) by (apply Z.pow_pos_nonneg; lia).
    assert (2 <= 2 ^ (- e)).
    { change 2 with (2 ^ 1) at 1. apply Z.pow_le_mono_r; lia. }
    assert (- Zpos m <= - Zpos m / 2 ^ (- e)).
    { apply Z.div_le_lower_bound; [lia|]. nia. }
    assert (- Zpos m / 2 ^ (- e) < 0).
    { apply Z.div_lt_upper_bound; lia. }
    destruct (- (- Zpos m / 2 ^ (- e))) as [|p|p] eqn:Hk; try lia.
    simpl binary_normalize.
    destruct (binary_round_int false p) as (m' & e' & -> & Hb' & Hd' & _).
    { apply Zdigits2_le; lia. }
    exists m', e'. auto.
Qed.

(** C3 (as amended).  A finite positive value [v] exactly halfway between
    two distinct consecutive multiples of 64 is mapped by [closestMultiple]
    to the upper one: ties resolve to ceil. *)
Theorem closestMultiple_tie_resolves_to_ceil v :
  Js.valid v = true -> Js.gt v zero = true ->
  Js.strict_eq (Js.mul (Js.floor (Js.div v n64)) n64)
               (Js.mul (Js.ceil (Js.div v n64)) n64) = false ->
  Js.strict_eq (Js.sub v (Js.mul (Js.floor (Js.div v n64)) n64))
               (Js.sub (Js.mul (Js.ceil (Js.div v n64)) n64) v) = true ->
  closestMultiple v n64 = Js.mul (Js.ceil (Js.div v n64)) n64.
Proof.
  intros Hv Hpos Hne Htie.
  unfold closestMultiple. rewrite (strict_eq_not_lt _ _ Htie).
  destruct v as [s|s| |s m e]; try discriminate Hpos.
  { destruct s; discriminate Hne. }
  destruct s; [discriminate Hpos|]. simpl in Hv.
  destruct (div_n64_signed false (S754_finite false m e) Hv) as [Hvz Hsz].
  { right; right; eauto. }
  destruct Hsz as [Hz|[Hz|(mz & ez & Hz)]]; rewrite Hz in *;
    try discriminate Hne.
  destruct (ceil_finite_positive mz ez Hvz) as (m' & e' & -> & Hb' & Hd').
  destruct (bounded_inv m' e' Hb') as (He' & _ & _).
  unfold n64. change 4503599627370496%positive with (Z.to_pos (2 ^ 52)).
  rewrite mul_pow2_exact by (try assumption; lia).
  unfold overflow_or. destruct (e' + -46 + 52 <=? 971); reflexivity.
Qed.

Lemma closestMultiple_tie_resolves_to_ceil_witness :
  Js.gt (Js.of_Z 96) zero = true
  /\ Js.strict_eq (Js.sub (Js.of_Z 96) (Js.of_Z 64))
                  (Js.sub (Js.of_Z 128) (Js.of_Z 96)) = true
  /\ closestMultiple (Js.of_Z 96) n64 = Js.of_Z 128.
Proof.
  split; [reflexivity|]. split; [reflexivity|].
  apply (closestMultiple_tie_resolves_to_ceil (Js.of_Z 96)); reflexivity.
Defined.

(** C3 (counterexample).  96 lies halfway between 64 and 128, and
    [closestMultiple] returns 128, not the lower multiple 64. *)
Lemma closestMultiple_tie_96 :
  Js.mul (Js.floor (Js.div (Js.of_Z 96) n64)) n64 = Js.of_Z 64
  /\ Js.mul (Js.ceil (Js.div (Js.of_Z 96) n64)) n64 = Js.of_Z 128
  /\ Js.strict_eq (Js.sub (Js.of_Z 96) (Js.of_Z 64))
                  (Js.sub (Js.of_Z 128) (Js.of_Z 96)) = true
  /\ closestMultiple (Js.of_Z 96) n64 = Js.of_Z 128
  /\ closestMultiple (Js.of_Z 96) n64 <> Js.of_Z 64.
Proof. repeat split. discriminate. Qed.

(** The same holds of the first 256 halfway points 32, 96, 160, ... *)
Example closestMultiple_ties_up_to_16384 :
  forallb
    (fun k =>
       Js.strict_eq (closestMultiple (Js.of_Z (64 * Z.of_nat k + 32)) n64)
                    (Js.of_Z (64 * (Z.of_nat k + 1))))
    (seq 0 256)
  = true.
Proof. vm_compute. reflexivity. Qed.

Example closestMultiple_100 : closestMultiple (Js.of_Z 100) n64 = Js.of_Z 128.
Proof. reflexivity. Qed.

(** C5.  [resizeInput] maps 1000 x 100 to 1024 x 128: the input fails the
    first test, the landscape 512 candidate is 5120 wide and too large, and
    the fallback sets the height to [closestMultiple (1024 / 10) 64]. *)
Theorem resizeInput_1000_100 :
  satisfies_invariant (mkSize (Js.of_Z 1000) (Js.of_Z 100)) = false
  /\ Js.div (Js.of_Z 1000) (Js.of_Z 100) = Js.of_Z 10
  /\ Js.gt (Js.of_Z 10) one = true
  /\ closestMultiple (Js.mul n512 (Js.of_Z 10)) n64 = Js.of_Z 5120
  /\ Js.le (Js.mul (Js.of_Z 5120) n512) MAX_OUTPUT_SIZE = false
  /\ closestMultiple (Js.div n1024 (Js.of_Z 10)) n64 = Js.of_Z 128
  /\ resizeInput (mkSize (Js.of_Z 1000) (Js.of_Z 100))
     = mkSize (Js.of_Z 1024) (Js.of_Z 128).
Proof. repeat split. Qed.

(** C8.  [closestMultiple] maps NaN to the literal 0: the NaN test comes
    before the test that replaces a non-positive result by 64. *)
Theorem closestMultiple_NaN :
  closestMultiple Js.NaN n64 = zero
  /\ closestMultiple Js.NaN n64 <> n64.
Proof. split; [reflexivity|discriminate]. Qed.

(** ** [download] *)

Section DownloadProperties.

Variable to_number : option string -> Js.number.
Variable atob : string -> option string.

(** The network path, unfolded. *)
Lemma download_network ctx url headers log :
  String.prefix "data:" url = false ->
  download to_number atob ctx url headers log
  = match http_head ctx url headers with
    | Failed status => (Rejected (HttpError status), log ++ [Head url headers])
    | Ok head =>
        if Js.gt (to_number (lookup "content-length" head)) MAX_CONTENT_SIZE
        then (Rejected (Error "file too large"), log ++ [Head url headers])
        else if includes ALLOWED_TYPES (lookup "content-type" head)
        then (Rejected (Error "unsupported file type"),
              log ++ [Head url headers])
        else (settle (http_get ctx url headers),
              (log ++ [Head url headers]) ++ [Get url headers])
    end.
Proof.
  intros Hp. unfold download. rewrite Hp.
  unfold bind, head_request.
  destruct (http_head ctx url headers) as [head|status]; simpl; [|reflexivity].
  destruct (Js.gt _ _); [reflexivity|].
  destruct (includes _ _); reflexivity.
Qed.

Lemma settle_not_error {A : Type} (r : response A) message :
  settle r <> Rejected (Error message).
Proof. destruct r; discriminate. Qed.

(** C6.  When the metadata request of a network URL reports a
    content-length above 10,485,760, [download] fails with
    "file too large" (the TooLargeError of the specification) and the only
    request issued is the HEAD request: no GET is added to the log. *)
Theorem download_too_large ctx url headers head log :
  String.prefix "data:" url = false ->
  http_head ctx url headers = Ok head ->
  Js.gt (to_number (lookup "content-length" head)) MAX_CONTENT_SIZE = true ->
  download to_number atob ctx url headers log
  = (Rejected (Error "file too large"), log ++ [Head url headers])
  /\ forall u h,
       In (Get u h) (snd (download to_number atob ctx url headers log)) ->
       In (Get u h) log.
Proof.
  intros Hp Hh Hgt.
  rewrite (download_network ctx url headers log Hp), Hh, Hgt.
  split; [reflexivity|].
  intros u h Hin. simpl in Hin. apply in_app_or in Hin.
  destruct Hin as [Hin|[Hin|[]]]; [assumption|discriminate Hin].
Qed.

(** C9.  The size check comes before the type check: with a
    content-length above 10,485,760 and a content-type in the allow-list,
    [download] fails with "file too large" (TooLargeError), not with
    "unsupported file type" (UnsupportedTypeError). *)
Theorem download_size_check_first ctx url headers head log :
  String.prefix "data:" url = false ->
  http_head ctx url headers = Ok head ->
  Js.gt (to_number (lookup "content-length" head)) MAX_CONTENT_SIZE = true ->
  includes ALLOWED_TYPES (lookup "content-type" head) = true ->
  fst (download to_number atob ctx url headers log)
  = Rejected (Error "file too large")
  /\ fst (download to_number atob ctx url headers log)
     <> Rejected (Error "unsupported file type").
Proof.
  intros Hp Hh Hgt _.
  rewrite (download_network ctx url headers log Hp), Hh, Hgt.
  split; [reflexivity|discriminate].
Qed.

(** C2 (as amended).  On the network path, once the metadata request has
    answered, [download] fails with "unsupported file type"
    (UnsupportedTypeError) exactly when the size check passes and the
    reported content-type is in the allow-list; when the size check passes
    and the content-type is not in the allow-list, the GET request is
    issued and its outcome returned. *)
Theorem download_type_check ctx url headers head log :
  String.prefix "data:" url = false ->
  http_head ctx url headers = Ok head ->
  (fst (download to_number atob ctx url headers log)
   = Rejected (Error "unsupported file type")
   <-> Js.gt (to_number (lookup "content-length" head)) MAX_CONTENT_SIZE
       = false
       /\ includes ALLOWED_TYPES (lookup "content-type" head) = true)
  /\ (Js.gt (to_number (lookup "content-length" head)) MAX_CONTENT_SIZE
      = false ->
      includes ALLOWED_TYPES (lookup "content-type" head) = false ->
      download to_number atob ctx url headers log
      = (settle (http_get ctx url headers),
         log ++ [Head url headers; Get url headers])).
Proof.
  intros Hp Hh.
  rewrite (download_network ctx url headers log Hp), Hh.
  destruct (Js.gt _ _); [|destruct (includes _ _)]; simpl.
  - split; [split|]; try discriminate. intros [H _]; discriminate H.
  - split; [split; auto|]. discriminate.
  - split; [split|].
    + intros H. now apply settle_not_error in H.
    + intros [_ H]; discriminate H.
    + intros _ _. now rewrite <- app_assoc.
Qed.

(** C10.  A source that starts with [data:] but does not match the
    pattern makes the destructuring of [null] throw: [download] fails
    with a [TypeError], not with "unsupported image type", and issues no
    request. *)
Theorem download_malformed_data_uri ctx url headers log :
  String.prefix "data:" url = true ->
  match_data_uri url = None ->
  download to_number atob ctx url headers log = (Rejected TypeError, log)
  /\ fst (download to_number atob ctx url headers log)
     <> Rejected (Error "unsupported image type").
Proof.
  intros Hp Hm. unfold download. rewrite Hp, Hm.
  split; [reflexivity|discriminate].
Qed.

End DownloadProperties.

Lemma download_too_large_witness :
  download decimal_to_number (fun _ => None) large_png "https://e.org/a.png" [] []
  = (Rejected (Error "file too large"), [Head "https://e.org/a.png" []])
  /\ forall u h,
       In (Get u h)
          (snd (download decimal_to_number (fun _ => None) large_png
                  "https://e.org/a.png" [] [])) ->
       In (Get u h) [].
Proof.
  apply (download_too_large decimal_to_number (fun _ => None) large_png
           "https://e.org/a.png" [] _ [] eq_refl eq_refl eq_refl).
Defined.

Lemma download_size_check_first_witness :
  fst (download decimal_to_number (fun _ => None) large_png
         "https://e.org/a.png" [] [])
  = Rejected (Error "file too large")
  /\ fst (download decimal_to_number (fun _ => None) large_png
            "https://e.org/a.png" [] [])
     <> Rejected (Error "unsupported file type").
Proof.
  apply (download_size_check_first decimal_to_number (fun _ => None) large_png
           "https://e.org/a.png" [] _ [] eq_refl eq_refl eq_refl eq_refl).
Defined.

Lemma download_type_check_witness :
  download decimal_to_number (fun _ => None) small_page "https://e.org/" [] []
  = (Resolved [Byte.x3c], [Head "https://e.org/" []; Get "https://e.org/" []]).
Proof.
  apply (download_type_check decimal_to_number (fun _ => None) small_page
           "https://e.org/" [] _ [] eq_refl eq_refl); reflexivity.
Defined.

(** C2 (counterexample).  The reported content-type is in the allow-list,
    yet [download] does not fail with "unsupported file type": the size
    check has already failed. *)
Lemma download_allowed_type_too_large :
  includes ALLOWED_TYPES (Some "image/png"%string) = true
  /\ http_head large_png "https://e.org/a.png" []
     = Ok [("content-length", "20000000"); ("content-type", "image/png")]%string
  /\ fst (download decimal_to_number (fun _ => None) large_png
            "https://e.org/a.png" [] [])
     <> Rejected (Error "unsupported file type").
Proof. repeat split. discriminate. Qed.

Lemma download_malformed_data_uri_witness :
  download decimal_to_number (fun _ => None) small_page
    "data:text/plain;base64,AAAA" [] []
  = (Rejected TypeError, [])
  /\ fst (download decimal_to_number (fun _ => None) small_page
            "data:text/plain;base64,AAAA" [] [])
     <> Rejected (Error "unsupported image type").
Proof.
  apply (download_malformed_data_uri decimal_to_number (fun _ => None)
           small_page "data:text/plain;base64,AAAA" [] [] eq_refl eq_refl).
Defined.

Example match_data_uri_png :
  match_data_uri "data:image/png;base64,AAAA"
  = Some ("image/png", "AAAA")%string.
Proof. reflexivity. Qed.

Example match_data_uri_no_marker :
  match_data_uri "data:image/png,AAAA" = None.
Proof. reflexivity. Qed.

Example download_gif_data_uri :
  download decimal_to_number (fun _ => None) small_page
    "data:image/gif;base64,AAAA" [] []
  = (Rejected (Error "unsupported image type"), []).
Proof. reflexivity. Qed.

(** ** [calcAccessKey] *)

Lemma substring_length n : forall s,
  String.length (substring 0 n s) = Nat.min n (String.length s).
Proof.
  induction n as [|n IH]; intros [|c s]; simpl; try reflexivity.
  now rewrite IH.
Qed.

Lemma substring_short n : forall s,
  (String.length s <= n)%nat -> substring 0 n s = s.
Proof.
  induction n as [|n IH]; intros [|c s] H; simpl in *; try reflexivity.
  - lia.
  - rewrite IH by lia. reflexivity.
Qed.

Lemma list_ind3 {A : Type} (P : list A -> Prop) :
  P [] -> (forall a, P [a]) -> (forall a b, P [a; b]) ->
  (forall a b c l, P l -> P (a :: b :: c :: l)) ->
  forall l, P l.
Proof.
  intros H0 H1 H2 H3 l.
  assert (H : P l /\ (forall a, P (a :: l)) /\ (forall a b, P (a :: b :: l))).
  { induction l as [|x l (IH0 & IH1 & IH2)]; [auto|].
    split; [apply IH1|]. split; [intros a; apply IH2|].
    intros a b. apply H3, IH0. }
  apply H.
Qed.

(** Base64 yields at least four characters for every three bytes. *)
Lemma to_base64_length bytes :
  (4 * List.length bytes <= 3 * String.length (to_base64 bytes))%nat.
Proof.
  induction bytes as [|a|a b|a b c l IH] using list_ind3;
    cbn [to_base64 List.length String.length]; lia.
Qed.

(** C7.  [calcAccessKey] is a function of its two arguments: the first 64
    characters of the base64 text of the Argon2id hash (64 bytes, cost 2,
    memory 2,000,000) of the password, salted with the hash of
    [password.slice(0, 6) + email + "novelai_data_access_key"].  The result
    has exactly 64 characters, and the slice of a password of at most six
    characters is the whole password. *)
Theorem calcAccessKey_length (sodium : Sodium) (email password : string) :
  calcAccessKey email password
  = slice_to 64
      (to_base64
         (crypto_pwhash 64 (utf8_encode password)
            (crypto_generichash crypto_pwhash_SALTBYTES
               (slice_to 6 password ++ email ++ "novelai_data_access_key")%string)
            2 2000000 crypto_pwhash_ALG_ARGON2ID13))
  /\ String.length (calcAccessKey email password) = 64%nat
  /\ ((String.length password <= 6)%nat -> slice_to 6 password = password)
  /\ (forall email' password',
        email' = email -> password' = password ->
        calcAccessKey email' password' = calcAccessKey email password).
Proof.
  split; [reflexivity|]. split; [|split].
  - unfold calcAccessKey, slice_to. rewrite substring_length.
    set (key := crypto_pwhash _ _ _ _ _ _).
    pose proof (to_base64_length key) as Hlen.
    unfold key in Hlen at 1. rewrite crypto_pwhash_length in Hlen. lia.
  - apply substring_short.
  - intros email' password' -> ->. reflexivity.
Qed.

Example calcAccessKey_constant_sodium :
  String.length (calcAccessKey "user@example.org" "pw") = 64%nat.
Proof. reflexivity. Qed.

Lemma calcAccessKey_length_witness :
  String.length (calcAccessKey "user@example.org" "pw") = 64%nat
  /\ slice_to 6 "pw" = "pw"%string.
Proof.
  destruct (calcAccessKey_length constant_sodium "user@example.org" "pw")
    as (_ & Hlen & Hslice & _).
  split; [exact Hlen|]. apply Hslice. simpl. lia.
Defined.

(** * Further properties *)

(** ** Exact quotients *)

Lemma new_location_zero n : new_location n 0 = loc_Exact.
Proof.
  unfold new_location, new_location_even, new_location_odd.
  destruct (Z.even n); reflexivity.
Qed.

(** A division whose scaled dividend is a multiple of the divisor yields
    the exact quotient. *)
Lemma div_core_exact mx ex my ey q :
  Zpos mx
  * 2 ^ (ex - ey
         - Z.min (fexp Js.prec Js.emax
                    (Zdigits2 (Zpos mx) + ex - (Zdigits2 (Zpos my) + ey)))
                 (ex - ey))
  = q * Zpos my ->
  SFdiv_core_binary Js.prec Js.emax (Zpos mx) ex (Zpos my) ey
  = (q, Z.min (fexp Js.prec Js.emax
                 (Zdigits2 (Zpos mx) + ex - (Zdigits2 (Zpos my) + ey)))
              (ex - ey), loc_Exact).
Proof.
  unfold SFdiv_core_binary.
  set (e' := Z.min _ _).
  assert (Hs : 0 <= ex - ey - e') by (unfold e'; lia).
  set (m' := match ex - ey - e' with
             | 0 => Zpos mx
             | Zpos _ => Z.shiftl (Zpos mx) (ex - ey - e')
             | Zneg _ => 0
             end).
  assert (Hm' : m' = Zpos mx * 2 ^ (ex - ey - e')).
  { unfold m'. destruct (ex - ey - e') as [|p|p] eqn:E; try lia.
    rewrite Z.shiftl_mul_pow2 by lia. reflexivity. }
  intros Hq. rewrite <- Hm' in Hq.
  pose proof (Z.div_eucl_eq m' (Zpos my) ltac:(lia)) as Heq.
  pose proof (Z.mod_pos_bound m' (Zpos my) ltac:(lia)) as Hb.
  assert (Hd : m' / Zpos my = q).
  { rewrite Hq. apply Z.div_mul. lia. }
  assert (Hr : m' mod Zpos my = 0).
  { rewrite Hq. apply Z.mod_mul. lia. }
  unfold Z.div in Hd. unfold Z.modulo in Hr.
  destruct (Z.div_eucl m' (Zpos my)) as [q' r'].
  simpl in Hd, Hr. subst q' r'.
  now rewrite new_location_zero.
Qed.

(** Dividing a normal number by 64 only lowers its exponent. *)
Lemma div_n64_exact s m e :
  bounded Js.prec Js.emax m e = true -> Zdigits2 (Zpos m) = 53 ->
  -1067 <= e ->
  Js.div (S754_finite s m e) n64 = S754_finite s m (e - 6).
Proof.
  intros Hb Hd He. destruct (bounded_inv m e Hb) as (Hr & _ & _).
  destruct (normal_mantissa m Hd) as [Hl Hu].
  unfold Js.div, SFdiv, n64.
  change 4503599627370496%positive with (Z.to_pos (2 ^ 52)).
  assert (He' : Z.min (fexp Js.prec Js.emax
                         (Zdigits2 (Zpos m) + e
                          - (Zdigits2 (Zpos (Z.to_pos (2 ^ 52))) + -46)))
                      (e - -46) = e - 7).
  { rewrite Hd, fexp_eq. change (Zdigits2 (Zpos (Z.to_pos (2 ^ 52)))) with 53.
    lia. }
  rewrite (div_core_exact m e (Z.to_pos (2 ^ 52)) (-46) (2 * Zpos m)).
  2:{ rewrite He'. replace (e - -46 - (e - 7)) with 53 by lia.
      change (Zpos (Z.to_pos (2 ^ 52))) with (2 ^ 52).
      change (2 ^ 53) with (2 * 2 ^ 52). lia. }
  rewrite He', xorb_false_r'.
  assert (Hd2 : Zdigits2 (2 * Zpos m) = 54).
  { apply Zdigits2_unique; [|lia].
    change (2 ^ (54 - 1)) with (2 * 2 ^ 52).
    change (2 ^ 54) with (2 * 2 ^ 53). lia. }
  destruct (binary_round_aux_spec s (2 * Zpos m) (e - 7) loc_Exact)
    as (m2 & _ & Hex & ->); [lia|rewrite Hd2, fexp_eq; lia|].
  assert (Hf : fexp Js.prec Js.emax (Zdigits2 (2 * Zpos m) + (e - 7)) = e - 6).
  { rewrite Hd2, fexp_eq. lia. }
  rewrite Hf in *. replace (e - 6 - (e - 7)) with 1 in Hex by lia.
  change (2 ^ 1) with 2 in Hex.
  rewrite Hex; [|reflexivity|rewrite Z.mul_comm; apply Z.mod_mul; lia].
  rewrite Z.mul_comm, Z.div_mul by lia.
  unfold pack, overflow_or.
  destruct (Z.eqb_spec (Zpos m) 0); [lia|].
  destruct (Z.eqb_spec (Zpos m) (2 ^ 53)); [lia|].
  destruct (Z.leb_spec (e - 6) 971); [reflexivity|lia].
Qed.

(** A finite non-zero number divided by itself is 1. *)
Lemma div_self s m e :
  bounded Js.prec Js.emax m e = true ->
  Js.div (S754_finite s m e) (S754_finite s m e) = one.
Proof.
  intros Hb. unfold Js.div, SFdiv.
  assert (He' : Z.min (fexp Js.prec Js.emax
                         (Zdigits2 (Zpos m) + e - (Zdigits2 (Zpos m) + e)))
                      (e - e) = -53).
  { rewrite fexp_eq. lia. }
  rewrite (div_core_exact m e m e (2 ^ 53)).
  2:{ rewrite He'. replace (e - e - -53) with 53 by lia. lia. }
  rewrite He', xorb_nilpotent.
  destruct (binary_round_aux_spec false (2 ^ 53) (-53) loc_Exact)
    as (m2 & _ & Hex & ->);
    [lia|change (Zdigits2 (2 ^ 53)) with 54; rewrite fexp_eq; lia|].
  change (fexp Js.prec Js.emax (Zdigits2 (2 ^ 53) + -53)) with (-52) in *.
  change (2 ^ (-52 - -53)) with 2 in Hex.
  rewrite Hex; reflexivity.
Qed.

(** ** More on [resizeInput] *)

Lemma isNaN_inv x : Js.isNaN x = true -> x = S754_nan.
Proof. destruct x; intros H; try discriminate H; reflexivity. Qed.

Lemma resizeInput_passes_own_test w h :
  Js.valid w = true -> Js.valid h = true ->
  satisfies_invariant (resizeInput (mkSize w h)) = true.
Proof.
  intros Hvw Hvh. rewrite resizeInput_unfold.
  destruct (satisfies_invariant (mkSize w h)) eqn:Hinv; [assumption|].
  destruct (Js.isNaN (Js.div w h)) eqn:Hn.
  - rewrite (isNaN_inv _ Hn). reflexivity.
  - pose proof (resize_by_ratio_good (Js.div w h)
                  (div_valid w h Hvw Hvh) Hn) as Hg.
    unfold good_size in Hg.
    apply andb_true_iff in Hg. destruct Hg as [Hg _].
    apply andb_true_iff in Hg. apply Hg.
Qed.

(** X1.  Whatever the two numbers of the input are (zero, negative,
    infinite and NaN included), the size [resizeInput] returns passes the
    first test of [resizeInput]; hence [resizeInput] is idempotent. *)
Theorem resizeInput_idempotent w h :
  Js.valid w = true -> Js.valid h = true ->
  satisfies_invariant (resizeInput (mkSize w h)) = true
  /\ resizeInput (resizeInput (mkSize w h)) = resizeInput (mkSize w h).
Proof.
  intros Hvw Hvh.
  pose proof (resizeInput_passes_own_test w h Hvw Hvh) as Hinv.
  split; [assumption|].
  destruct (resizeInput (mkSize w h)) as [w' h'].
  now rewrite resizeInput_unfold, Hinv.
Qed.

Lemma resizeInput_idempotent_witness :
  satisfies_invariant (resizeInput (mkSize Js.NaN (Js.of_Z 700))) = true
  /\ resizeInput (resizeInput (mkSize Js.NaN (Js.of_Z 700)))
     = resizeInput (mkSize Js.NaN (Js.of_Z 700)).
Proof.
  apply (resizeInput_idempotent Js.NaN (Js.of_Z 700)); reflexivity.
Defined.

(** X2.  A square input (equal finite width and height, of either sign)
    that the first test rejects is mapped to 512 x 512: its aspect ratio is
    exactly 1, which is not greater than 1, so the portrait branch fixes
    the width at 512 and computes the height 512. *)
Theorem resizeInput_square x :
  Js.valid x = true -> is_finite x = true ->
  satisfies_invariant (mkSize x x) = false ->
  Js.div x x = one
  /\ resizeInput (mkSize x x) = mkSize n512 n512.
Proof.
  intros Hv Hf Hinv. rewrite resizeInput_unfold, Hinv.
  destruct x as [s|s| |s m e]; try discriminate Hf.
  - destruct s; discriminate Hinv.
  - simpl in Hv. rewrite (div_self s m e Hv). split; reflexivity.
Qed.

Lemma resizeInput_square_witness :
  Js.div (Js.of_Z (-700)) (Js.of_Z (-700)) = one
  /\ resizeInput (mkSize (Js.of_Z (-700)) (Js.of_Z (-700)))
     = mkSize n512 n512.
Proof.
  apply (resizeInput_square (Js.of_Z (-700))); reflexivity.
Defined.

(** ** More on [closestMultiple] *)

Lemma Zdigits2_mul_pow2 k j :
  0 < k -> 0 <= j -> Zdigits2 (k * 2 ^ j) = Zdigits2 k + j.
Proof.
  intros Hk Hj.
  destruct (Zdigits2_bounds k Hk) as [Hl Hu].
  assert (Hp : 0 < 2 ^ j) by (apply Z.pow_pos_nonneg; lia).
  assert (1 <= Zdigits2 k) by (destruct k; simpl; lia).
  apply Zdigits2_unique; [|nia]. split.
  - replace (Zdigits2 k + j - 1) with ((Zdigits2 k - 1) + j) by lia.
    rewrite Z.pow_add_r by lia. apply Z.mul_le_mono_nonneg_r; lia.
  - rewrite Z.pow_add_r by lia. apply Z.mul_lt_mono_pos_r; lia.
Qed.

(** The integer [c], when [c * 2 ^ (- e)] has 53 bits, is the number with
    that mantissa and the exponent [e]. *)
Lemma binary_round_exact s c e m :
  e <= 0 -> Zpos m = Zpos c * 2 ^ (- e) -> Zdigits2 (Zpos m) = 53 ->
  binary_round Js.prec Js.emax s c 0 = S754_finite s m e.
Proof.
  intros He Hm Hd.
  assert (Hdc : Zdigits2 (Zpos c) = 53 + e).
  { rewrite Hm, Zdigits2_mul_pow2 in Hd by lia. lia. }
  destruct (binary_round_int s c) as (m' & e' & -> & _ & _ & _ & He' & Hm').
  { lia. }
  assert (Hee : e' = e) by lia. clear He'. subst e'.
  assert (m' = m); [|subst; reflexivity].
  apply Pos2Z.inj. now rewrite Hm', Hm.
Qed.

(** [Math.floor] and [Math.ceil] leave integers unchanged. *)
Lemma floor_ceil_integer s m e :
  bounded Js.prec Js.emax m e = true -> Zdigits2 (Zpos m) = 53 ->
  integer_valued m e = true ->
  Js.floor (S754_finite s m e) = S754_finite s m e
  /\ Js.ceil (S754_finite s m e) = S754_finite s m e.
Proof.
  intros Hb Hd Hi. unfold Js.floor, Js.ceil.
  unfold integer_valued in Hi.
  destruct (Z.leb_spec 0 e) as [He|He]; [split; reflexivity|].
  simpl in Hi. apply Z.eqb_eq in Hi.
  assert (Hp : 0 < 2 ^ (- e)) by (apply Z.pow_pos_nonneg; lia).
  set (c := Zpos m / 2 ^ (- e)).
  assert (Hc : Zpos m = c * 2 ^ (- e)).
  { unfold c. rewrite Z.mul_comm. apply Z_div_exact_full_2; [lia|assumption]. }
  assert (Hc0 : 0 < c) by nia.
  assert (Hn : - Zpos m / 2 ^ (- e) = - c).
  { unfold c. apply Z.div_opp_l_z; [lia|assumption]. }
  rewrite !Z.shiftr_div_pow2 by lia.
  destruct c as [|p|p] eqn:Ec; try lia.
  destruct s; unfold cond_Zopp.
  - rewrite Z.opp_involutive, Hn. fold c. rewrite Ec.
    split; simpl binary_normalize;
      apply binary_round_exact; (lia || assumption).
  - rewrite Hn. fold c. rewrite Ec.
    split; simpl binary_normalize;
      apply binary_round_exact; (lia || assumption).
Qed.

Lemma sub_self m e :
  Js.sub (S754_finite false m e) (S754_finite false m e) = zero.
Proof.
  unfold Js.sub, SFsub. rewrite Z.sub_diag. reflexivity.
Qed.

Lemma closestMultiple_fixed m e :
  bounded Js.prec Js.emax m e = true -> multiple_of_64 m e = true ->
  closestMultiple (S754_finite false m e) n64 = S754_finite false m e.
Proof.
  intros Hv Hm.
  pose proof (multiple_of_64_normal m e Hv Hm) as Hd.
  destruct (multiple_of_64_value false m e Hv Hm) as (c & _ & _ & He & _).
  destruct (bounded_inv m e Hv) as (Hr & _ & _).
  assert (Hbz : bounded Js.prec Js.emax m (e - 6) = true).
  { apply bounded_intro; lia. }
  assert (Hiz : integer_valued m (e - 6) = true).
  { unfold integer_valued. unfold multiple_of_64 in Hm.
    replace (- (e - 6)) with (6 - e) by lia.
    destruct (Z.leb_spec 6 e), (Z.leb_spec 0 (e - 6)); try lia; assumption. }
  destruct (floor_ceil_integer false m (e - 6) Hbz Hd Hiz) as [Hfl Hce].
  assert (Hmul : Js.mul (S754_finite false m (e - 6)) n64 = S754_finite false m e).
  { unfold n64. change 4503599627370496%positive with (Z.to_pos (2 ^ 52)).
    rewrite mul_pow2_exact by (try assumption; lia).
    unfold overflow_or. replace (e - 6 + -46 + 52) with e by lia.
    destruct (Z.leb_spec e 971); [reflexivity|lia]. }
  unfold closestMultiple.
  rewrite (div_n64_exact false m e Hv Hd) by lia.
  rewrite Hfl, Hce, Hmul, sub_self. reflexivity.
Qed.

(** X4.  [closestMultiple] leaves every strictly positive multiple of 64
    unchanged. *)
Theorem closestMultiple_fixes_multiples x :
  Js.valid x = true -> Js.gt x zero = true ->
  is_multiple_of_64 x = true ->
  closestMultiple x n64 = x.
Proof.
  intros Hv Hpos Hm. rewrite is_multiple_of_64_correct in Hm by assumption.
  destruct x as [s|s| |s m e]; try discriminate Hpos; try discriminate Hm.
  destruct s; [discriminate Hpos|]. now apply closestMultiple_fixed.
Qed.

Lemma closestMultiple_fixes_multiples_witness :
  closestMultiple (Js.of_Z 832) n64 = Js.of_Z 832.
Proof.
  apply (closestMultiple_fixes_multiples (Js.of_Z 832)); reflexivity.
Defined.

Lemma round_exponent_le s mx ex lx k :
  0 <= mx ->
  ex <= fexp Js.prec Js.emax (Zdigits2 mx + ex) ->
  Zdigits2 mx + ex <= k -> -1021 <= k <= 1023 ->
  binary_round_aux Js.prec Js.emax s mx ex lx = S754_zero s
  \/ exists m e,
       binary_round_aux Js.prec Js.emax s mx ex lx = S754_finite s m e
       /\ bounded Js.prec Js.emax m e = true /\ e <= k - 52.
Proof.
  intros Hm He Hd Hk.
  destruct (binary_round_aux_valid s mx ex lx Hm He) as [Hv _].
  destruct (binary_round_aux_spec s mx ex lx Hm He) as (m2 & Hm2 & _ & Heq).
  destruct (truncated_canonical mx ex Hm He) as (Hr & Hc & Hmin).
  rewrite Heq in *. rewrite fexp_eq in *.
  set (e1 := Z.max (Zdigits2 mx + ex - 53) (-1074)) in *.
  assert (He1 : e1 <= k - 53) by (unfold e1; lia).
  unfold pack, overflow_or in *.
  destruct (Z.eqb_spec m2 0); [left; reflexivity|right].
  destruct (Z.eqb_spec m2 (2 ^ 53)).
  - destruct (Z.leb_spec (e1 + 1) 971); [|lia].
    exists (Z.to_pos (2 ^ 52)), (e1 + 1). repeat split; [assumption|lia].
  - destruct (Z.leb_spec e1 971); [|lia].
    exists (Z.to_pos m2), e1. repeat split; [assumption|lia].
Qed.

(** The quotient of a finite number by 64 is a zero or a finite number
    whose exponent is at most 965. *)
Lemma div_n64_finite s m e :
  bounded Js.prec Js.emax m e = true ->
  Js.div (S754_finite s m e) n64 = S754_zero s
  \/ exists mz ez,
       Js.div (S754_finite s m e) n64 = S754_finite s mz ez
       /\ bounded Js.prec Js.emax mz ez = true /\ ez <= 965.
Proof.
  intros Hb. destruct (bounded_inv m e Hb) as (He & Hd & Hc).
  destruct (Z_le_gt_dec (-1067) e) as [Hn|Ht].
  - right. exists m, (e - 6).
    assert (Hd53 : Zdigits2 (Zpos m) = 53) by lia.
    rewrite (div_n64_exact s m e Hb Hd53 Hn).
    repeat split; [apply bounded_intro; lia|lia].
  - unfold Js.div, SFdiv, n64.
    change 4503599627370496%positive with (Z.to_pos (2 ^ 52)).
    destruct (div_core_spec m e (Z.to_pos (2 ^ 52)) (-46)) as (q & l & -> & Hq).
    destruct (div_shift_ok m e (Z.to_pos (2 ^ 52)) (-46) q Hb eq_refl Hq)
      as [Hq0 Hsh].
    rewrite xorb_false_r'.
    destruct (round_exponent_le s q
                (Z.min (fexp Js.prec Js.emax
                          (Zdigits2 (Zpos m) + e
                           - (Zdigits2 (Zpos (Z.to_pos (2 ^ 52))) + -46)))
                       (e - -46)) l (-1021) Hq0 Hsh)
      as [Hz|(mz & ez & Hz & Hbz & Hez)]; [| |now left|].
    + set (e' := Z.min _ _) in *.
      assert (Hs : 0 <= e - -46 - e') by (unfold e'; lia).
      pose proof (div_digits_le m (Z.to_pos (2 ^ 52)) (e - -46 - e') Hs) as Hdq.
      rewrite <- Hq in Hdq.
      change (Zdigits2 (Zpos (Z.to_pos (2 ^ 52)))) with 53 in *.
      unfold e' in *. rewrite fexp_eq in *. lia.
    + lia.
    + right. exists mz, ez. repeat split; [assumption..|lia].
Qed.

Lemma binary_normalize_small_integral (s : bool) (k : Z) :
  - 2 ^ 53 < k < 2 ^ 53 -> (if s then k <= 0 else 0 <= k) ->
  small_integral s (binary_normalize Js.prec Js.emax k 0 s).
Proof.
  intros Hk Hs.
  destruct k as [|p|p]; [left; reflexivity| |].
  - destruct s; [lia|]. right. simpl binary_normalize.
    destruct (binary_round_int false p) as (m & e & -> & Hb & Hd & Hi & He & _).
    { apply Zdigits2_le; lia. }
    exists m, e. repeat split; try assumption.
    assert (Zdigits2 (Zpos p) <= 53) by (apply Zdigits2_le; lia). lia.
  - destruct s; [|lia]. right. simpl binary_normalize.
    destruct (binary_round_int true p) as (m & e & -> & Hb & Hd & Hi & He & _).
    { apply Zdigits2_le; lia. }
    exists m, e. repeat split; try assumption.
    assert (Zdigits2 (Zpos p) <= 53) by (apply Zdigits2_le; lia). lia.
Qed.

Lemma floor_ceil_small_integral s m e :
  bounded Js.prec Js.emax m e = true -> e <= 965 ->
  small_integral s (Js.floor (S754_finite s m e))
  /\ small_integral s (Js.ceil (S754_finite s m e)).
Proof.
  intros Hb He965. unfold Js.floor, Js.ceil.
  destruct (bounded_inv m e Hb) as (He & Hd & Hc).
  destruct (bounded_mantissa m e Hb) as [Hm0 Hm1].
  destruct (Z.leb_spec 0 e).
  - split; right; exists m, e; repeat split; try assumption; try lia;
      unfold integer_valued; apply orb_true_iff; left; now apply Z.leb_le.
  - assert (Hp : 0 < 2 ^ (- e)) by (apply Z.pow_pos_nonneg; lia).
    assert (H2 : 2 <= 2 ^ (- e)).
    { change 2 with (2 ^ 1) at 1. apply Z.pow_le_mono_r; lia. }
    assert (Hq0 : 0 <= Zpos m / 2 ^ (- e)) by (apply Z.div_pos; lia).
    assert (Hq1 : Zpos m / 2 ^ (- e) <= Zpos m).
    { apply Z.div_le_upper_bound; [lia|]. nia. }
    assert (Hn0 : - Zpos m <= - Zpos m / 2 ^ (- e)).
    { apply Z.div_le_lower_bound; [lia|]. nia. }
    assert (Hn1 : - Zpos m / 2 ^ (- e) < 0).
    { apply Z.div_lt_upper_bound; lia. }
    rewrite !Z.shiftr_div_pow2 by lia.
    split; apply binary_normalize_small_integral;
      destruct s; unfold cond_Zopp; rewrite ?Z.opp_involutive; lia.
Qed.

Lemma mul_small_integral_64 s x :
  small_integral s x -> finite_multiple_of_64 s (Js.mul x n64).
Proof.
  intros [->|(m & e & -> & Hb & Hd & Hi & He)].
  - left. simpl. now rewrite xorb_false_r'.
  - destruct (bounded_inv m e Hb) as (Hr & _ & _).
    unfold n64. change 4503599627370496%positive with (Z.to_pos (2 ^ 52)).
    rewrite mul_pow2_exact by (try assumption; lia).
    replace (e + -46 + 52) with (e + 6) by lia.
    unfold overflow_or. destruct (Z.leb_spec (e + 6) 971); [|lia].
    right. exists m, (e + 6). split; [reflexivity|].
    split; [apply bounded_intro; lia|].
    now apply integer_multiple_of_64.
Qed.

Lemma clamp_finite s c :
  finite_multiple_of_64 s c ->
  exists m e, clamp c = S754_finite false m e
    /\ bounded Js.prec Js.emax m e = true
    /\ multiple_of_64 m e = true.
Proof.
  unfold clamp.
  intros [->|(m & e & -> & Hb & Hm)].
  - exists (Z.to_pos (2 ^ 52)), (-46). destruct s; repeat split.
  - destruct s.
    + exists (Z.to_pos (2 ^ 52)), (-46). repeat split.
    + exists m, e. repeat split; assumption.
Qed.

Lemma closestMultiple_finite x :
  Js.valid x = true -> is_finite x = true ->
  exists m e, closestMultiple x n64 = S754_finite false m e
    /\ bounded Js.prec Js.emax m e = true
    /\ multiple_of_64 m e = true.
Proof.
  intros Hv Hf. destruct x as [s|s| |s m e]; try discriminate Hf.
  - exists (Z.to_pos (2 ^ 52)), (-46). destruct s; repeat split.
  - simpl in Hv.
    assert (Hfc : small_integral s (Js.floor (Js.div (S754_finite s m e) n64))
                  /\ small_integral s (Js.ceil (Js.div (S754_finite s m e) n64))).
    { destruct (div_n64_finite s m e Hv) as [->|(mz & ez & -> & Hbz & Hez)].
      - split; left; reflexivity.
      - now apply floor_ceil_small_integral. }
    destruct Hfc as [Hfl Hce].
    destruct (closestMultiple_clamp (S754_finite s m e)) as [-> | ->];
      apply (clamp_finite s), mul_small_integral_64; assumption.
Qed.

(** X5.  For every finite argument (not NaN, not infinite),
    [closestMultiple] returns a finite number that is strictly positive and
    an integer multiple of 64: at least 64, and accepted by the test
    [% 64 === 0].  Applying [closestMultiple] to the result changes
    nothing. *)
Theorem closestMultiple_positive_multiple x :
  Js.valid x = true -> is_finite x = true ->
  is_finite (closestMultiple x n64) = true
  /\ Js.le n64 (closestMultiple x n64) = true
  /\ represents_multiple_of_64 (closestMultiple x n64) = true
  /\ is_multiple_of_64 (closestMultiple x n64) = true
  /\ closestMultiple (closestMultiple x n64) n64 = closestMultiple x n64.
Proof.
  intros Hv Hf.
  destruct (closestMultiple_finite x Hv Hf) as (m & e & -> & Hb & Hm).
  destruct (multiple_of_64_value false m e Hb Hm) as (c & Hc0 & _ & He & Hc).
  pose proof (multiple_of_64_normal m e Hb Hm) as Hd.
  destruct (normal_mantissa m Hd) as [Hl Hu].
  split; [reflexivity|]. split; [|split; [|split]].
  - unfold Js.le, SFleb, n64. rewrite SFcompare_finite_positive.
    destruct (Z.compare_spec (-46) e) as [<-|Hlt|Hgt]; try reflexivity; [|lia].
    destruct (Pos.compare_spec 4503599627370496 m) as [_|_|Hgt];
      try reflexivity.
    exfalso. change (2 ^ 52) with (Zpos 4503599627370496) in Hl.
    apply Pos2Z.pos_lt_pos in Hgt.
    exact (Z.lt_irrefl _ (Z.lt_le_trans _ _ _ Hgt Hl)).
  - exact Hm.
  - rewrite is_multiple_of_64_correct by exact Hb. exact Hm.
  - now apply closestMultiple_fixed.
Qed.

Lemma closestMultiple_positive_multiple_witness :
  is_finite (closestMultiple (Js.of_Z (-7)) n64) = true
  /\ Js.le n64 (closestMultiple (Js.of_Z (-7)) n64) = true
  /\ represents_multiple_of_64 (closestMultiple (Js.of_Z (-7)) n64) = true
  /\ is_multiple_of_64 (closestMultiple (Js.of_Z (-7)) n64) = true
  /\ closestMultiple (closestMultiple (Js.of_Z (-7)) n64) n64
     = closestMultiple (Js.of_Z (-7)) n64.
Proof.
  apply (closestMultiple_positive_multiple (Js.of_Z (-7))); reflexivity.
Defined.

Example closestMultiple_of_infinity :
  closestMultiple Js.Infinity n64 = Js.Infinity.
Proof. reflexivity. Qed.

(** ** The pattern of data URIs *)

Lemma strip_prefix_append p s : strip_prefix p (p ++ s) = Some s.
Proof.
  induction p as [|a p IH]; [reflexivity|].
  simpl. now rewrite Ascii.eqb_refl.
Qed.

Lemma strip_prefix_Some p s r :
  strip_prefix p s = Some r -> s = (p ++ r)%string.
Proof.
  revert s. induction p as [|a p IH]; intros s H.
  - simpl in H. now inversion H.
  - destruct s as [|b s]; [discriminate H|]. simpl in H.
    destruct (Ascii.eqb_spec a b) as [->|]; [|discriminate H].
    simpl. f_equal. now apply IH.
Qed.

Lemma span_word_spec s w r :
  span_word s = (w, r) -> s = (w ++ r)%string /\ word_chars w = true.
Proof.
  revert w r. induction s as [|c s IH]; intros w r H; simpl in H.
  - inversion H. now split.
  - destruct (is_word_char c) eqn:Hc.
    + destruct (span_word s) as [w' r'] eqn:Hs. inversion H; subst.
      destruct (IH w' r eq_refl) as [-> Hw]. simpl. rewrite Hc. now split.
    + inversion H. now split.
Qed.

Lemma span_word_append w c r :
  word_chars w = true -> is_word_char c = false ->
  span_word (w ++ String c r) = (w, String c r).
Proof.
  intros Hw Hc. induction w as [|a w IH]; simpl.
  - now rewrite Hc.
  - simpl in Hw. apply andb_true_iff in Hw. destruct Hw as [Ha Hw].
    now rewrite Ha, IH.
Qed.

(** X6.  The pattern of line 13 accepts exactly the strings
    [data:image/<word>;base64,<payload>] with a non-empty run of word
    characters and a payload free of line terminators, and captures
    [image/<word>] and the payload. *)
Theorem match_data_uri_spec url type payload :
  match_data_uri url = Some (type, payload)
  <-> exists word,
        word <> EmptyString
        /\ word_chars word = true
        /\ no_line_terminator payload = true
        /\ type = ("image/" ++ word)%string
        /\ url = ("data:image/" ++ word ++ ";base64," ++ payload)%string.
Proof.
  split.
  - unfold match_data_uri. intros H.
    destruct (strip_prefix "data:" url) as [s1|] eqn:H1; [|discriminate H].
    destruct (strip_prefix "image/" s1) as [s2|] eqn:H2; [|discriminate H].
    destruct (span_word s2) as [w s3] eqn:H3.
    destruct w as [|c w]; [discriminate H|].
    destruct (strip_prefix ";base64," s3) as [p|] eqn:H4; [|discriminate H].
    destruct (no_line_terminator p) eqn:H5; [|discriminate H].
    inversion H; subst. exists (String c w).
    apply strip_prefix_Some in H1, H2, H4.
    apply span_word_spec in H3. destruct H3 as [H3 Hw].
    subst. repeat split; try assumption. discriminate.
  - intros (word & Hne & Hw & Hp & -> & ->). unfold match_data_uri.
    change ("data:image/" ++ word ++ ";base64," ++ payload)%string
      with ("data:" ++ "image/" ++ word ++ ";base64," ++ payload)%string.
    rewrite strip_prefix_append, strip_prefix_append.
    change (";base64," ++ payload)%string
      with (String ";" ("base64," ++ payload)).
    rewrite span_word_append by (assumption || reflexivity).
    destruct word as [|c w]; [congruence|].
    change (String ";" ("base64," ++ payload))
      with (";base64," ++ payload)%string.
    now rewrite strip_prefix_append, Hp.
Qed.

Lemma match_data_uri_build word payload :
  word <> EmptyString -> word_chars word = true ->
  no_line_terminator payload = true ->
  match_data_uri ("data:image/" ++ word ++ ";base64," ++ payload)
  = Some (("image/" ++ word)%string, payload).
Proof.
  intros Hne Hw Hp. unfold match_data_uri.
  change ("data:image/" ++ word ++ ";base64," ++ payload)%string
    with ("data:" ++ "image/" ++ word ++ ";base64," ++ payload)%string.
  rewrite strip_prefix_append, strip_prefix_append.
  change (";base64," ++ payload)%string
    with (String ";" ("base64," ++ payload)).
  rewrite span_word_append by (assumption || reflexivity).
  destruct word as [|c w]; [congruence|].
  change (String ";" ("base64," ++ payload))
    with (";base64," ++ payload)%string.
  now rewrite strip_prefix_append, Hp.
Qed.


Lemma isNaN_gt x y : Js.isNaN x = true -> Js.gt x y = false.
Proof.
  destruct x; try discriminate. intros _. now destruct y.
Qed.

Section DownloadFurther.

Variable to_number : option string -> Js.number.
Variable atob : string -> option string.


(** X8.  A well-formed data URI of any other image type is refused with
    "unsupported image type": no request is issued and the payload is not
    decoded, so the outcome does not depend on [atob]. *)
Theorem download_data_uri_unsupported ctx headers log word payload :
  word <> EmptyString -> word_chars word = true ->
  no_line_terminator payload = true ->
  word <> "jpeg"%string -> word <> "png"%string ->
  download to_number atob ctx
    ("data:image/" ++ word ++ ";base64," ++ payload) headers log
  = (Rejected (Error "unsupported image type"), log).
Proof.
  intros Hne Hw Hp Hj Hg. unfold download.
  rewrite (match_data_uri_build word payload Hne Hw Hp).
  change (String.prefix "data:"
            ("data:image/" ++ word ++ ";base64," ++ payload)) with true.
  cbv iota.
  assert (Hi : includes ALLOWED_TYPES (Some ("image/" ++ word)%string) = false).
  { unfold includes, ALLOWED_TYPES. cbn [existsb].
    destruct (String.eqb_spec ("image/" ++ word) "image/jpeg") as [E|_].
    { inversion E. contradiction. }
    destruct (String.eqb_spec ("image/" ++ word) "image/png") as [E|_].
    { inversion E. contradiction. }
    reflexivity. }
  now rewrite Hi.
Qed.

(** X9.  The requests of [download]: a data URI never causes a request;
    any other URL causes one HEAD request, followed by one GET request
    exactly when the HEAD request succeeded, the size check passed and the
    reported content-type is not in the allow-list.  Both requests carry
    the URL and the headers given to [download], and a failed HEAD request
    is the outcome of the call. *)
Theorem download_requests ctx url headers log :
  (String.prefix "data:" url = true ->
   snd (download to_number atob ctx url headers log) = log)
  /\ (String.prefix "data:" url = false ->
      (snd (download to_number atob ctx url headers log)
       = log ++ [Head url headers]
       \/ snd (download to_number atob ctx url headers log)
          = log ++ [Head url headers; Get url headers])
      /\ (snd (download to_number atob ctx url headers log)
          = log ++ [Head url headers; Get url headers]
          <-> exists head,
                http_head ctx url headers = Ok head
                /\ Js.gt (to_number (lookup "content-length" head))
                     MAX_CONTENT_SIZE = false
                /\ includes ALLOWED_TYPES (lookup "content-type" head)
                   = false)
      /\ (forall status,
            http_head ctx url headers = Failed status ->
            fst (download to_number atob ctx url headers log)
            = Rejected (HttpError status))).
Proof.
  split; intros Hp.
  - unfold download. rewrite Hp.
    destruct (match_data_uri url) as [[type base64]|]; [|reflexivity].
    destruct (negb _); [reflexivity|].
    destruct (atob base64); reflexivity.
  - rewrite (download_network to_number atob ctx url headers log Hp).
    assert (Hneq : log ++ [Head url headers]
                   <> log ++ [Head url headers; Get url headers]).
    { intros E. apply app_inv_head in E. discriminate E. }
    destruct (http_head ctx url headers) as [head|status]; simpl.
    + destruct (Js.gt _ _) eqn:Hgt; [|destruct (includes _ _) eqn:Hin]; simpl.
      * split; [now left|]. split; [|discriminate]. split.
        -- intros E. now apply Hneq in E.
        -- intros (head' & E & Hgt' & _). inversion E; subst. congruence.
      * split; [now left|]. split; [|discriminate]. split.
        -- intros E. now apply Hneq in E.
        -- intros (head' & E & _ & Hin'). inversion E; subst. congruence.
      * rewrite <- app_assoc. simpl.
        split; [now right|]. split; [|discriminate]. split; [|reflexivity].
        intros _. now exists head.
    + split; [now left|]. split.
      * split; [intros E; now apply Hneq in E|].
        intros (head & E & _). discriminate E.
      * intros status' E. now inversion E.
Qed.

(** X10.  The successful outcomes of [download]: the call fulfils only
    with the body of a successful GET request, made after a successful
    HEAD request that passed the size check and reported a content-type
    outside the allow-list, or with the decoded payload of a data URI of
    an allowed type.  A network resource whose reported content-type is
    [image/jpeg] or [image/png] is never returned. *)
Theorem download_fulfilled ctx url headers log bytes :
  fst (download to_number atob ctx url headers log) = Resolved bytes ->
  (String.prefix "data:" url = false
   /\ http_get ctx url headers = Ok bytes
   /\ exists head,
        http_head ctx url headers = Ok head
        /\ Js.gt (to_number (lookup "content-length" head)) MAX_CONTENT_SIZE
           = false
        /\ includes ALLOWED_TYPES (lookup "content-type" head) = false)
  \/ (String.prefix "data:" url = true
      /\ exists type base64 binary,
           match_data_uri url = Some (type, base64)
           /\ In type ALLOWED_TYPES
           /\ atob base64 = Some binary
           /\ bytes = char_codes binary).
Proof.
  destruct (String.prefix "data:" url) eqn:Hp.
  - intros H. right. split; [reflexivity|].
    unfold download in H. rewrite Hp in H.
    destruct (match_data_uri url) as [[type base64]|]; [|discriminate H].
    destruct (includes ALLOWED_TYPES (Some type)) eqn:Hin;
      [|discriminate H].
    simpl in H. destruct (atob base64) as [binary|] eqn:Ha; [|discriminate H].
    inversion H. exists type, base64, binary.
    split; [reflexivity|]. split; [|split; [exact Ha|reflexivity]].
    unfold includes, ALLOWED_TYPES in Hin. cbn [existsb] in Hin.
    destruct (String.eqb_spec type "image/jpeg") as [->|_]; [now left|].
    destruct (String.eqb_spec type "image/png") as [->|_];
      [right; now left|discriminate Hin].
  - rewrite (download_network to_number atob ctx url headers log Hp).
    intros H. left. split; [reflexivity|].
    destruct (http_head ctx url headers) as [head|status]; [|discriminate H].
    destruct (Js.gt _ _) eqn:Hgt; [discriminate H|].
    destruct (includes _ _) eqn:Hin; [discriminate H|].
    simpl in H. destruct (http_get ctx url headers); [|discriminate H].
    simpl in H. inversion H. split; [reflexivity|]. now exists head.
Qed.

(** X11.  A HEAD response whose content-length does not convert to a
    number (a missing header gives NaN) passes the size check: when it
    names no content-type either, the GET request is issued and its
    outcome returned. *)
Theorem download_without_metadata ctx url headers head log :
  String.prefix "data:" url = false ->
  http_head ctx url headers = Ok head ->
  Js.isNaN (to_number (lookup "content-length" head)) = true ->
  lookup "content-type" head = None ->
  download to_number atob ctx url headers log
  = (settle (http_get ctx url headers),
     log ++ [Head url headers; Get url headers]).
Proof.
  intros Hp Hh Hn Ht.
  rewrite (download_network to_number atob ctx url headers log Hp), Hh.
  rewrite (isNaN_gt _ _ Hn), Ht. simpl. now rewrite <- app_assoc.
Qed.

End DownloadFurther.


Lemma download_data_uri_unsupported_witness :
  download decimal_to_number (fun _ => None) small_page
    "data:image/gif;base64,R0lG" [] []
  = (Rejected (Error "unsupported image type"), []).
Proof.
  apply (download_data_uri_unsupported decimal_to_number (fun _ => None)
           small_page [] [] "gif" "R0lG");
    (discriminate || reflexivity).
Defined.

Lemma download_fulfilled_witness :
  String.prefix "data:" "http://example.org/a" = false
  /\ http_get small_page "http://example.org/a" [] = Ok [Byte.x3c]
  /\ exists head,
       http_head small_page "http://example.org/a" [] = Ok head
       /\ Js.gt (decimal_to_number (lookup "content-length" head))
            MAX_CONTENT_SIZE = false
       /\ includes ALLOWED_TYPES (lookup "content-type" head) = false.
Proof.
  destruct (download_fulfilled decimal_to_number (fun _ => None) small_page
              "http://example.org/a" [] [] [Byte.x3c] eq_refl)
    as [H|[H _]]; [exact H|discriminate H].
Defined.

Lemma download_requests_witness :
  snd (download decimal_to_number (fun _ => None) small_page
         "http://example.org/a" [] [])
  = [Head "http://example.org/a" []; Get "http://example.org/a" []].
Proof.
  destruct (download_requests decimal_to_number (fun _ => None) small_page
              "http://example.org/a" [] []) as [_ H].
  destruct (H eq_refl) as (_ & [_ Hget] & _).
  apply Hget. eexists. repeat split.
Defined.

Lemma download_without_metadata_witness :
  download decimal_to_number (fun _ => None) no_metadata
    "http://example.org/a" [] []
  = (Resolved [Byte.x3c],
     [Head "http://example.org/a" []; Get "http://example.org/a" []]).
Proof.
  apply (download_without_metadata decimal_to_number (fun _ => None)
           no_metadata "http://example.org/a" [] [] []); reflexivity.
Defined.

(** ** The derived keys *)

Lemma to_base64_exact_length bytes :
  String.length (to_base64 bytes) = ((4 * List.length bytes + 2) / 3)%nat.
Proof.
  induction bytes as [|a|a b|a b c l IH] using list_ind3;
    try reflexivity.
  cbn [to_base64 List.length String.length]. rewrite IH.
  replace (4 * S (S (S (List.length l))) + 2)%nat
    with (4 * List.length l + 2 + 4 * 3)%nat by lia.
  rewrite Nat.div_add by lia. lia.
Qed.

Lemma lor_lt_64 x y : (x < 64 -> y < 64 -> N.lor x y < 64)%N.
Proof.
  intros Hx Hy.
  destruct (N.eq_dec (N.lor x y) 0) as [->|Hn]; [reflexivity|].
  change 64%N with (2 ^ 6)%N. apply N.log2_lt_pow2; [lia|].
  rewrite N.log2_lor.
  assert (Hl : forall z, (z < 64)%N -> (N.log2 z < 6)%N).
  { intros z Hz. destruct (N.eq_dec z 0) as [->|Hz0]; [reflexivity|].
    apply N.log2_lt_pow2; [lia|exact Hz]. }
  apply N.max_lub_lt; auto.
Qed.

Lemma base64_char_url_safe n :
  (n < 64)%N ->
  (is_word_char (base64_char n)
   || (nat_of_ascii (base64_char n) =? 45)%nat) = true.
Proof.
  intros Hn. unfold base64_char.
  assert (Hk : (N.to_nat n < 64)%nat) by lia.
  revert Hk. generalize (N.to_nat n). intros k Hk.
  do 64 (destruct k as [|k]; [reflexivity|]). lia.
Qed.

Lemma to_base64_url_safe bytes : url_safe (to_base64 bytes) = true.
Proof.
  assert (H1 : forall a, (N.shiftr (Byte.to_N a) 2 < 64)%N)
    by (intros a; destruct a; reflexivity).
  assert (H2 : forall a, (N.shiftl (N.land (Byte.to_N a) 3) 4 < 64)%N)
    by (intros a; destruct a; reflexivity).
  assert (H3 : forall a, (N.shiftr (Byte.to_N a) 4 < 64)%N)
    by (intros a; destruct a; reflexivity).
  assert (H4 : forall a, (N.shiftl (N.land (Byte.to_N a) 15) 2 < 64)%N)
    by (intros a; destruct a; reflexivity).
  assert (H5 : forall a, (N.shiftr (Byte.to_N a) 6 < 64)%N)
    by (intros a; destruct a; reflexivity).
  assert (H6 : forall a, (N.land (Byte.to_N a) 63 < 64)%N)
    by (intros a; destruct a; reflexivity).
  induction bytes as [|a|a b|a b c l IH] using list_ind3;
    cbn [to_base64 url_safe];
    rewrite ?IH, ?base64_char_url_safe; auto using lor_lt_64.
Qed.

Lemma substring_url_safe n : forall s,
  url_safe s = true -> url_safe (substring 0 n s) = true.
Proof.
  induction n as [|n IH]; intros [|c s] H; try reflexivity.
  simpl in H. apply andb_true_iff in H. destruct H as [Hc Hs].
  simpl. now rewrite Hc, IH.
Qed.

(** X12.  [calcEncryptionKey] returns the whole base64 text of a 128-byte
    hash: exactly 171 characters.  It therefore never equals an access key,
    which has 64 characters, whatever the credentials. *)
Theorem calcEncryptionKey_length (sodium : Sodium)
  (email password email' password' : string) :
  String.length (calcEncryptionKey email password) = 171%nat
  /\ calcEncryptionKey email password <> calcAccessKey email' password'.
Proof.
  assert (He : String.length (calcEncryptionKey email password) = 171%nat).
  { unfold calcEncryptionKey.
    now rewrite to_base64_exact_length, crypto_pwhash_length. }
  split; [exact He|]. intros E. rewrite E in He.
  unfold calcAccessKey, slice_to in He.
  rewrite substring_length, to_base64_exact_length, crypto_pwhash_length in He.
  discriminate He.
Qed.

(** X13.  Both keys consist of letters, digits, [-] and [_] only: the
    base64 text uses the URL-safe alphabet and carries no padding. *)
Theorem keys_url_safe (sodium : Sodium) (email password : string) :
  url_safe (calcAccessKey email password) = true
  /\ url_safe (calcEncryptionKey email password) = true.
Proof.
  split.
  - unfold calcAccessKey, slice_to.
    apply substring_url_safe, to_base64_url_safe.
  - apply to_base64_url_safe.
Qed.

(** ** [LoginError.catch] and [login] *)

Lemma strict_eq_finite_inv c m e :
  Js.strict_eq c (S754_finite false m e) = true -> c = S754_finite false m e.
Proof.
  unfold Js.strict_eq, SFeqb.
  destruct c as [[]|[]| |[] m' e']; simpl; try discriminate.
  destruct (Z.compare_spec e' e) as [->|_|_]; try discriminate.
  destruct (Pos.compare_cont Eq m' m) eqn:Hc; try discriminate.
  intros _. apply Pos.compare_eq in Hc. now subst.
Qed.

Lemma strict_eq_n401 c : Js.strict_eq c n401 = true -> c = n401.
Proof. apply strict_eq_finite_inv. Qed.

Section LoginProperties.

Variable to_number : option string -> Js.number.
Variable Subscription : Type.




Context `{Sodium}.

Lemma catch_401 message e :
  to_number (Some "401"%string) = n401 ->
  LoginError_catch to_number [("401"%string, message)] e
  = match e with
    | AxiosError (Some c) =>
        if Js.strict_eq c n401 then LoginError message n401 else e
    | _ => e
    end.
Proof.
  intros Hn. destruct e as [[c|]|m c|e]; try reflexivity.
  unfold LoginError_catch. cbn [catch_loop]. rewrite Hn.
  destruct (Js.strict_eq c n401) eqn:Hs; [|reflexivity].
  now rewrite (strict_eq_n401 c Hs).
Qed.

(** X15.  The requests of [login].  With type [token] it issues one GET
    request for [/user/subscription] under the endpoint, authorised by the
    configured token, and a fulfilled request makes it return that token
    whatever the subscription says.  With type [login] it issues one POST
    request for [/user/login] whose body holds only the 64-character
    access key of the credentials, and returns the [accessToken] of the
    response.  With any other type it issues no request and returns
    [undefined]. *)
Theorem login_requests (ctx : LoginContext Subscription) log :
  let cfg := config Subscription ctx in
  (config_type cfg = "token"%string ->
   snd (login to_number Subscription ctx log)
   = log ++ [ApiGet (config_endpoint cfg ++ "/user/subscription")
               [("authorization", "Bearer " ++ config_token cfg)%string]]
   /\ forall subscription,
        api_get Subscription ctx
          (config_endpoint cfg ++ "/user/subscription")
          [("authorization", "Bearer " ++ config_token cfg)%string]
        = Fulfilled subscription ->
        fst (login to_number Subscription ctx log)
        = Fulfilled (Some (config_token cfg)))
  /\ (config_type cfg = "login"%string ->
      let key := calcAccessKey (config_email cfg) (config_password cfg) in
      String.length key = 64%nat
      /\ snd (login to_number Subscription ctx log)
         = log ++ [ApiPost (config_endpoint cfg ++ "/user/login")
                     [("key"%string, key)]]
      /\ forall res,
           api_post Subscription ctx (config_endpoint cfg ++ "/user/login")
             [("key"%string, key)]
           = Fulfilled res ->
           fst (login to_number Subscription ctx log)
           = Fulfilled (lookup "accessToken" res))
  /\ (config_type cfg <> "token"%string ->
      config_type cfg <> "login"%string ->
      login to_number Subscription ctx log = (Fulfilled None, log)).
Proof.
  intros cfg. unfold login. fold cfg. split; [|split].
  - intros ->. cbn [String.eqb Ascii.eqb Bool.eqb]. cbv iota.
    split; [reflexivity|]. intros subscription ->. reflexivity.
  - intros ->. cbn [String.eqb Ascii.eqb Bool.eqb]. cbv iota.
    split; [|split; [reflexivity|]].
    + unfold calcAccessKey, slice_to.
      now rewrite substring_length, to_base64_exact_length,
        crypto_pwhash_length.
    + intros res ->. reflexivity.
  - intros Ht Hl.
    destruct (String.eqb_spec (config_type cfg) "token"); [contradiction|].
    destruct (String.eqb_spec (config_type cfg) "login"); [contradiction|].
    reflexivity.
Qed.

(** X16.  The failures of [login].  In both modes a rejected request with
    status 401 becomes a [LoginError] with code 401, with message
    [.invalid-token] for type [token] and [.invalid-password] for type
    [login]; any other rejection is passed on unchanged. *)
Theorem login_failures (ctx : LoginContext Subscription) log e :
  let cfg := config Subscription ctx in
  to_number (Some "401"%string) = n401 ->
  (config_type cfg = "token"%string ->
   api_get Subscription ctx (config_endpoint cfg ++ "/user/subscription")
     [("authorization", "Bearer " ++ config_token cfg)%string]
   = Thrown e ->
   (e = AxiosError (Some n401) ->
    fst (login to_number Subscription ctx log)
    = Thrown (LoginError ".invalid-token" n401))
   /\ (e <> AxiosError (Some n401) ->
       fst (login to_number Subscription ctx log) = Thrown e))
  /\ (config_type cfg = "login"%string ->
      api_post Subscription ctx (config_endpoint cfg ++ "/user/login")
        [("key"%string,
          calcAccessKey (config_email cfg) (config_password cfg))]
      = Thrown e ->
      (e = AxiosError (Some n401) ->
       fst (login to_number Subscription ctx log)
       = Thrown (LoginError ".invalid-password" n401))
      /\ (e <> AxiosError (Some n401) ->
          fst (login to_number Subscription ctx log) = Thrown e)).
Proof.
  intros cfg Hn.
  assert (Hc : forall message,
             (e = AxiosError (Some n401) ->
              LoginError_catch to_number [("401"%string, message)] e
              = LoginError message n401)
             /\ (e <> AxiosError (Some n401) ->
                 LoginError_catch to_number [("401"%string, message)] e = e)).
  { intros message. rewrite (catch_401 message e Hn). split.
    - intros ->. reflexivity.
    - intros Hne. destruct e as [[c|]|m c|e']; try reflexivity.
      destruct (Js.strict_eq c n401) eqn:Hs; [|reflexivity].
      apply strict_eq_n401 in Hs. subst. now destruct Hne. }
  unfold login. fold cfg. split.
  - intros -> ->. cbn [String.eqb Ascii.eqb Bool.eqb]. cbv iota.
    cbn [fst catch then_].
    destruct (Hc ".invalid-token"%string) as [H1 H2].
    split; intros Hx; [now rewrite H1|now rewrite H2].
  - intros -> ->. cbn [String.eqb Ascii.eqb Bool.eqb]. cbv iota.
    cbn [fst catch then_].
    destruct (Hc ".invalid-password"%string) as [H1 H2].
    split; intros Hx; [now rewrite H1|now rewrite H2].
Qed.

End LoginProperties.


Lemma login_requests_witness :
  String.length (calcAccessKey "user@example.org" "pw") = 64%nat
  /\ snd (login decimal_to_number unit accepted_login [])
     = [ApiPost "https://api.novelai.net/user/login"
          [("key"%string, calcAccessKey "user@example.org" "pw")]]
  /\ fst (login decimal_to_number unit accepted_login [])
     = Fulfilled (Some "abc"%string).
Proof.
  destruct (login_requests decimal_to_number unit accepted_login [])
    as (_ & H & _).
  destruct (H eq_refl) as (Hlen & Hlog & Hres).
  split; [exact Hlen|]. split; [exact Hlog|].
  apply (Hres [("accessToken", "abc")]%string). reflexivity.
Defined.

Lemma login_failures_witness :
  fst (login decimal_to_number unit refused_token [])
  = Thrown (LoginError ".invalid-token" n401).
Proof.
  destruct (login_failures decimal_to_number unit refused_token []
              (AxiosError (Some n401)) eq_refl) as [H _].
  destruct (H eq_refl eq_refl) as [H1 _]. exact (H1 eq_refl).
Defined.

(** ** Orientation *)

Lemma at_least_512_le x : at_least_512 x -> Js.le n512 x = true.
Proof.
  intros [->|(m & e & -> & Hb & He)]; [reflexivity|].
  destruct (bounded_inv m e Hb) as (_ & _ & Hc).
  assert (Hd : Zdigits2 (Zpos m) = 53) by lia.
  destruct (normal_mantissa m Hd) as [Hl _].
  unfold Js.le, SFleb, n512. rewrite SFcompare_finite_positive.
  destruct (Z.compare_spec (-43) e) as [_|_|Hgt]; try reflexivity; [|lia].
  destruct (Pos.compare_spec 4503599627370496 m) as [_|_|Hgt];
    try reflexivity.
  exfalso. change (2 ^ 52) with (Zpos 4503599627370496) in Hl.
  apply Pos2Z.pos_lt_pos in Hgt.
  exact (Z.lt_irrefl _ (Z.lt_le_trans _ _ _ Hgt Hl)).
Qed.

Lemma round_at_least mx ex lx :
  0 <= mx ->
  ex <= fexp Js.prec Js.emax (Zdigits2 mx + ex) ->
  10 <= Zdigits2 mx + ex ->
  at_least_512 (binary_round_aux Js.prec Js.emax false mx ex lx).
Proof.
  intros Hm He Hd.
  destruct (binary_round_aux_valid false mx ex lx Hm He) as [Hv _].
  destruct (binary_round_aux_spec false mx ex lx Hm He) as (m2 & Hm2 & _ & Heq).
  destruct (truncated_canonical mx ex Hm He) as (Hr & Hc & Hmin).
  rewrite Heq in *. rewrite fexp_eq in *.
  set (e1 := Z.max (Zdigits2 mx + ex - 53) (-1074)) in *.
  assert (He1 : -43 <= e1) by (unfold e1; lia).
  assert (Hm2' : 2 ^ 52 <= m2 <= 2 ^ 53) by (destruct Hm2 as [-> | ->]; lia).
  unfold pack, overflow_or in *.
  destruct (Z.eqb_spec m2 0); [lia|].
  destruct (Z.eqb_spec m2 (2 ^ 53)).
  - destruct (Z.leb_spec (e1 + 1) 971); [|now left].
    right. exists (Z.to_pos (2 ^ 52)), (e1 + 1).
    repeat split; [assumption|lia].
  - destruct (Z.leb_spec e1 971); [|now left].
    right. exists (Z.to_pos m2), e1. repeat split; [assumption|lia].
Qed.

Lemma div_512_at_least m e :
  bounded Js.prec Js.emax m e = true ->
  Js.gt (S754_finite false m e) one = false ->
  at_least_512 (Js.div n512 (S754_finite false m e)).
Proof.
  intros Hb Hgt.
  pose proof (not_gt_le_finite m e 4503599627370496 (-52) Hgt) as Hle.
  destruct (le_one_cases m e Hb Hle) as [->|He].
  - right. exists (Z.to_pos (2 ^ 52)), (-43). repeat split. lia.
  - destruct (bounded_inv m e Hb) as (Hr & Hd & _).
    destruct (bounded_mantissa m e Hb) as [Hm0 _].
    unfold Js.div, SFdiv, n512.
    change 4503599627370496%positive with (Z.to_pos (2 ^ 52)).
    destruct (div_core_spec (Z.to_pos (2 ^ 52)) (-43) m e) as (q & l & -> & Hq).
    destruct (div_shift_ok (Z.to_pos (2 ^ 52)) (-43) m e q eq_refl Hb Hq)
      as [Hq0 Hsh].
    simpl xorb. apply round_at_least; try assumption.
    change (Zdigits2 (Zpos (Z.to_pos (2 ^ 52)))) with 53 in *.
    change (Zpos (Z.to_pos (2 ^ 52))) with (2 ^ 52) in *.
    rewrite fexp_eq in *.
    set (dy := Zdigits2 (Zpos m)) in *.
    replace (Z.min (Z.max (53 + -43 - (dy + e) - 53) (-1074)) (-43 - e))
      with (-43 - dy - e) in * by lia.
    replace (-43 - e - (-43 - dy - e)) with dy in Hq by lia.
    assert (Hmd : Zpos m < 2 ^ dy) by (apply Zdigits2_bounds; lia).
    assert (Hq52 : 2 ^ 52 <= q).
    { rewrite Hq. apply Z.div_le_lower_bound; [lia|]. nia. }
    pose proof (Zdigits2_ge q 52 ltac:(lia) Hq52). lia.
Qed.

Lemma mul_512_at_least ar :
  Js.valid ar = true -> Js.gt ar one = true ->
  at_least_512 (Js.mul n512 ar).
Proof.
  intros Hv Hgt. destruct ar as [s|s| |s m e]; try discriminate Hgt.
  - destruct s; [discriminate Hgt|]. now left.
  - destruct s; [discriminate Hgt|]. simpl in Hv.
    destruct (gt_one_inv m e Hv Hgt) as [He|[He _]];
      destruct (bounded_inv m e Hv) as (Hr & Hd & Hc);
      (assert (Hd53 : Zdigits2 (Zpos m) = 53) by lia);
      rewrite mul_comm; unfold n512;
      change 4503599627370496%positive with (Z.to_pos (2 ^ 52));
      rewrite mul_pow2_exact by (try assumption; lia);
      unfold overflow_or;
      (destruct (Z.leb_spec (e + -43 + 52) 971); [|now left]);
      right; exists m, (e + -43 + 52);
      (repeat split; [apply bounded_intro; lia|lia]).
Qed.

Lemma of_Z_at_least_8 k :
  8 <= k < 2 ^ 53 ->
  exists m e,
    binary_normalize Js.prec Js.emax k 0 false = S754_finite false m e
    /\ bounded Js.prec Js.emax m e = true
    /\ Zdigits2 (Zpos m) = 53
    /\ -49 <= e <= 0.
Proof.
  intros Hk. destruct k as [|p|p]; try lia. simpl binary_normalize.
  assert (Hd : Zdigits2 (Zpos p) <= 53) by (apply Zdigits2_le; lia).
  destruct (binary_round_int false p Hd) as (m & e & -> & Hb & Hm & _ & He & _).
  exists m, e. repeat split; try assumption.
  - pose proof (Zdigits2_ge (Zpos p) 3 ltac:(lia) ltac:(lia)). lia.
  - lia.
Qed.

Lemma floor_ceil_at_least m e :
  bounded Js.prec Js.emax m e = true -> Zdigits2 (Zpos m) = 53 ->
  -49 <= e <= 965 ->
  (exists m' e',
     Js.floor (S754_finite false m e) = S754_finite false m' e'
     /\ bounded Js.prec Js.emax m' e' = true
     /\ Zdigits2 (Zpos m') = 53 /\ -49 <= e' <= 965)
  /\ (exists m' e',
        Js.ceil (S754_finite false m e) = S754_finite false m' e'
        /\ bounded Js.prec Js.emax m' e' = true
        /\ Zdigits2 (Zpos m') = 53 /\ -49 <= e' <= 965).
Proof.
  intros Hb Hd He. unfold Js.floor, Js.ceil.
  destruct (normal_mantissa m Hd) as [Hm0 Hm1].
  destruct (Z.leb_spec 0 e).
  - split; exists m, e; repeat split; try assumption; lia.
  - assert (Hp : 0 < 2 ^ (- e)) by (apply Z.pow_pos_nonneg; lia).
    assert (Hp49 : 2 ^ (- e) <= 2 ^ 49) by (apply Z.pow_le_mono_r; lia).
    assert (H2 : 2 <= 2 ^ (- e)).
    { change 2 with (2 ^ 1) at 1. apply Z.pow_le_mono_r; lia. }
    assert (Hq0 : 8 <= Zpos m / 2 ^ (- e)).
    { apply Z.div_le_lower_bound; lia. }
    assert (Hq1 : Zpos m / 2 ^ (- e) <= Zpos m).
    { apply Z.div_le_upper_bound; [lia|]. nia. }
    assert (Hn0 : - Zpos m <= - Zpos m / 2 ^ (- e)).
    { apply Z.div_le_lower_bound; [lia|]. nia. }
    assert (Hn1 : - Zpos m / 2 ^ (- e) <= - 8).
    { apply Z.div_le_upper_bound; lia. }
    rewrite !Z.shiftr_div_pow2 by lia. unfold cond_Zopp.
    split.
    + destruct (of_Z_at_least_8 (Zpos m / 2 ^ (- e)) ltac:(lia))
        as (m' & e' & -> & Hb' & Hd' & He').
      exists m', e'. repeat split; try assumption; lia.
    + destruct (of_Z_at_least_8 (- (- Zpos m / 2 ^ (- e))) ltac:(lia))
        as (m' & e' & -> & Hb' & Hd' & He').
      exists m', e'. repeat split; try assumption; lia.
Qed.

Lemma closestMultiple_at_least_512 x :
  at_least_512 x -> at_least_512 (closestMultiple x n64).
Proof.
  intros [->|(m & e & -> & Hb & He)]; [now left|].
  destruct (bounded_inv m e Hb) as (Hr & _ & Hc).
  assert (Hd : Zdigits2 (Zpos m) = 53) by lia.
  assert (Hbz : bounded Js.prec Js.emax m (e - 6) = true).
  { apply bounded_intro; lia. }
  assert (Hmul : forall m' e',
             bounded Js.prec Js.emax m' e' = true ->
             Zdigits2 (Zpos m') = 53 -> -49 <= e' <= 965 ->
             at_least_512 (clamp (Js.mul (S754_finite false m' e') n64))).
  { intros m' e' Hb' Hd' He'. unfold n64.
    change 4503599627370496%positive with (Z.to_pos (2 ^ 52)).
    rewrite mul_pow2_exact by (try assumption; lia).
    unfold overflow_or. destruct (Z.leb_spec (e' + -46 + 52) 971); [|lia].
    right. exists m', (e' + -46 + 52). split; [reflexivity|].
    split; [apply bounded_intro; lia|lia]. }
  destruct (floor_ceil_at_least m (e - 6) Hbz Hd ltac:(lia))
    as [(mf & ef & Hf & Hbf & Hdf & Hef) (mc & ec & Hce & Hbc & Hdc & Hec)].
  destruct (closestMultiple_clamp (S754_finite false m e)) as [-> | ->];
    rewrite (div_n64_exact false m e Hb Hd) by lia.
  - rewrite Hf. now apply Hmul.
  - rewrite Hce. now apply Hmul.
Qed.

Lemma small_multiples_le c : In c small_multiples -> Js.le c n1024 = true.
Proof.
  intros H. vm_compute in H.
  repeat (destruct H as [<-|H]; [reflexivity|]). destruct H.
Qed.

Lemma resize_by_ratio_orientation ar :
  Js.valid ar = true -> signed false ar ->
  (Js.gt ar one = true ->
   Js.le (height (resize_by_ratio ar)) (width (resize_by_ratio ar)) = true)
  /\ (Js.gt ar one = false ->
      Js.le (width (resize_by_ratio ar)) (height (resize_by_ratio ar)) = true).
Proof.
  intros Hv Hs.
  assert (Hn : Js.isNaN ar = false).
  { destruct Hs as [->|[->|(m & e & ->)]]; reflexivity. }
  unfold resize_by_ratio. split; intros Hgt; rewrite Hgt.
  - destruct (Js.le (Js.mul (closestMultiple (Js.mul n512 ar) n64) n512)
                MAX_OUTPUT_SIZE).
    + cbn [width height].
      now apply at_least_512_le, closestMultiple_at_least_512,
        mul_512_at_least.
    + cbn [width height].
      destruct (div_1024_le ar Hv Hgt) as (Hv' & Hn' & Hle).
      now apply small_multiples_le, closestMultiple_small.
  - destruct (Js.le (Js.mul n512 (closestMultiple (Js.div n512 ar) n64))
                MAX_OUTPUT_SIZE).
    + cbn [width height].
      apply at_least_512_le, closestMultiple_at_least_512.
      destruct Hs as [->|[->|(m & e & ->)]].
      * now left.
      * discriminate Hgt.
      * now apply div_512_at_least.
    + cbn [width height].
      apply small_multiples_le, closestMultiple_small.
      * now apply mul_valid.
      * now apply (mul_not_nan_finite false (Z.to_pos (2 ^ 52)) (-42)).
      * now apply not_gt_one_le.
Qed.

(** X17.  Fitting keeps the orientation of a finite positive input that
    the first test rejects: when the aspect ratio the code computes is
    greater than 1 the result is at least as wide as it is high, and
    otherwise it is at least as high as it is wide. *)
Theorem resizeInput_keeps_orientation w h :
  Js.valid w = true -> Js.valid h = true ->
  is_finite w = true -> is_finite h = true ->
  Js.gt w zero = true -> Js.gt h zero = true ->
  satisfies_invariant (mkSize w h) = false ->
  (Js.gt (Js.div w h) one = true ->
   Js.le (height (resizeInput (mkSize w h)))
         (width (resizeInput (mkSize w h))) = true)
  /\ (Js.gt (Js.div w h) one = false ->
      Js.le (width (resizeInput (mkSize w h)))
            (height (resizeInput (mkSize w h))) = true).
Proof.
  intros Hvw Hvh Hfw Hfh Hw Hh Hinv. rewrite resizeInput_unfold, Hinv.
  apply resize_by_ratio_orientation; [now apply div_valid|].
  destruct w as [sw|sw| |sw mw ew]; try discriminate Hfw;
    try (destruct sw; discriminate Hw);
    destruct h as [sh|sh| |sh mh eh]; try discriminate Hfh;
    try (destruct sh; discriminate Hh).
  destruct sw; [discriminate Hw|]. destruct sh; [discriminate Hh|].
  apply (div_finite_valid false mw ew false mh eh); assumption.
Qed.

Lemma resizeInput_keeps_orientation_witness :
  Js.le (height (resizeInput (mkSize (Js.of_Z 1920) (Js.of_Z 1080))))
        (width (resizeInput (mkSize (Js.of_Z 1920) (Js.of_Z 1080)))) = true.
Proof.
  apply (resizeInput_keeps_orientation (Js.of_Z 1920) (Js.of_Z 1080));
    reflexivity.
Defined.

(** ** The range of fitted sizes *)

Lemma exact_value_positive x a :
  Js.gt x zero = true -> exact_value x = Some a -> 0 < a.
Proof.
  intros Hgt Hx. destruct x as [s|s| |s m e]; try discriminate Hgt;
    try discriminate Hx.
  destruct s; [discriminate Hgt|]. unfold exact_value, cond_Zopp in Hx.
  destruct (Z.leb_spec 0 e).
  - assert (Hp : 0 < 2 ^ e) by (apply Z.pow_pos_nonneg; lia).
    assert (Ha : a = Zpos m * 2 ^ e) by congruence.
    rewrite Ha. apply Z.mul_pos_pos; lia.
  - assert (Hp : 0 < 2 ^ (- e)) by (apply Z.pow_pos_nonneg; lia).
    destruct (Z.eqb_spec (Zpos m mod 2 ^ (- e)) 0) as [Hm|];
      [|discriminate Hx].
    assert (Ha : a = Zpos m / 2 ^ (- e)) by congruence.
    pose proof (Z.div_mod (Zpos m) (2 ^ (- e)) ltac:(lia)). nia.
Qed.

Lemma resize_by_ratio_fixed_side ar :
  width (resize_by_ratio ar) = n512 \/ height (resize_by_ratio ar) = n512
  \/ width (resize_by_ratio ar) = n1024
  \/ height (resize_by_ratio ar) = n1024.
Proof.
  unfold resize_by_ratio.
  destruct (Js.gt ar one).
  - destruct (Js.le _ _); cbn [width height]; auto.
  - destruct (Js.le _ _); cbn [width height]; auto.
Qed.

(** X19.  The size fitted to a finite input that the first test rejects
    has one side of exactly 512 or exactly 1024, and both of its sides are
    integers between 64 and 2048. *)
Theorem resizeInput_fitted_range w h :
  Js.valid w = true -> Js.valid h = true ->
  is_finite w = true -> is_finite h = true ->
  satisfies_invariant (mkSize w h) = false ->
  exists a b,
    exact_value (width (resizeInput (mkSize w h))) = Some a
    /\ exact_value (height (resizeInput (mkSize w h))) = Some b
    /\ 64 <= a <= 2048 /\ 64 <= b <= 2048
    /\ (a = 512 \/ b = 512 \/ a = 1024 \/ b = 1024).
Proof.
  intros Hvw Hvh Hfw Hfh Hinv.
  pose proof (resizeInput_rejected_good w h Hvw Hvh Hfw Hfh Hinv) as Hg.
  assert (Hside : width (resizeInput (mkSize w h)) = n512
                  \/ height (resizeInput (mkSize w h)) = n512
                  \/ width (resizeInput (mkSize w h)) = n1024
                  \/ height (resizeInput (mkSize w h)) = n1024).
  { rewrite resizeInput_unfold, Hinv. apply resize_by_ratio_fixed_side. }
  destruct (resizeInput (mkSize w h)) as [rw rh]. cbn [width height] in *.
  unfold good_size, valid_size, positive_size in Hg. cbn [width height] in Hg.
  apply andb_true_iff in Hg. destruct Hg as [Hg Hpos].
  apply andb_true_iff in Hg. destruct Hg as [Hval _].
  apply andb_true_iff in Hpos. destruct Hpos as [Hpw Hph].
  destruct (exact_value rw) as [a|] eqn:Ha; [|discriminate Hval].
  destruct (exact_value rh) as [b|] eqn:Hb; [|discriminate Hval].
  apply andb_true_iff in Hval. destruct Hval as [Hval Harea].
  apply andb_true_iff in Hval. destruct Hval as [Hma Hmb].
  apply Z.eqb_eq in Hma, Hmb. apply Z.leb_le in Harea.
  pose proof (exact_value_positive rw a Hpw Ha) as Ha0.
  pose proof (exact_value_positive rh b Hph Hb) as Hb0.
  pose proof (Z.div_mod a 64 ltac:(lia)) as Hda.
  pose proof (Z.div_mod b 64 ltac:(lia)) as Hdb.
  assert (Hfix : a = 512 \/ b = 512 \/ a = 1024 \/ b = 1024).
  { destruct Hside as [E|[E|[E|E]]]; subst.
    - left. vm_compute in Ha. now inversion Ha.
    - right; left. vm_compute in Hb. now inversion Hb.
    - right; right; left. vm_compute in Ha. now inversion Ha.
    - right; right; right. vm_compute in Hb. now inversion Hb. }
  exists a, b. repeat split; try reflexivity; try assumption; try lia;
    destruct Hfix as [E|[E|[E|E]]]; subst; lia.
Qed.

Lemma resizeInput_fitted_range_witness :
  exists a b,
    exact_value (width (resizeInput (mkSize (Js.of_Z 1000) (Js.of_Z 100))))
    = Some a
    /\ exact_value (height (resizeInput (mkSize (Js.of_Z 1000) (Js.of_Z 100))))
       = Some b
    /\ 64 <= a <= 2048 /\ 64 <= b <= 2048
    /\ (a = 512 \/ b = 512 \/ a = 1024 \/ b = 1024).
Proof.
  apply (resizeInput_fitted_range (Js.of_Z 1000) (Js.of_Z 100)); reflexivity.
Defined.

(** ** The nearest multiple *)

Lemma floor_ceil_le_one m e :
  bounded Js.prec Js.emax m e = true ->
  Js.le (S754_finite false m e) one = true ->
  (exists k, 0 <= k <= 1 /\ Js.floor (S754_finite false m e) = Js.of_Z k)
  /\ (exists k, 0 <= k <= 1 /\ Js.ceil (S754_finite false m e) = Js.of_Z k).
Proof.
  intros Hb Hle.
  destruct (bounded_mantissa m e Hb) as [Hm0 Hm1].
  assert (He : e < 0 /\ Zpos m <= 1 * 2 ^ (- e)).
  { destruct (le_pow2_inv m e (-52) Hle) as [H|[-> Hm]].
    - split; [lia|].
      apply Z.le_trans with (1 * 2 ^ 53); [simpl; lia|].
      apply Z.mul_le_mono_nonneg_l; [lia|]. apply Z.pow_le_mono_r; lia.
    - split; [lia|]. simpl in *. lia. }
  destruct He as [He Hm].
  assert (Hp : 0 < 2 ^ (- e)) by (apply Z.pow_pos_nonneg; lia).
  unfold Js.floor, Js.ceil, Js.of_Z.
  destruct (Z.leb_spec 0 e); [lia|]. unfold cond_Zopp.
  rewrite !Z.shiftr_div_pow2 by lia.
  split.
  - exists (Zpos m / 2 ^ (- e)). split; [|reflexivity]. split.
    + apply Z.div_pos; lia.
    + apply Z.div_le_upper_bound; lia.
  - exists (- (- Zpos m / 2 ^ (- e))). split; [|reflexivity].
    assert (- Zpos m / 2 ^ (- e) < 0) by (apply Z.div_lt_upper_bound; lia).
    assert (-1 <= - Zpos m / 2 ^ (- e)) by (apply Z.div_le_lower_bound; lia).
    lia.
Qed.

Lemma clamp_zero_or_one k :
  0 <= k <= 1 -> clamp (Js.mul (Js.of_Z k) n64) = n64.
Proof.
  intros Hk. assert (H : k = 0 \/ k = 1) by lia.
  destruct H as [-> | ->]; reflexivity.
Qed.

(** X3.  [closestMultiple] maps every number up to 64 to 64: minus
    infinity, the negative numbers, the zeros of both signs and the
    positive numbers up to 64, those below 32 included, whose nearest
    multiple of 64 is 0. *)
Theorem closestMultiple_up_to_64 x :
  Js.valid x = true -> Js.le x n64 = true -> closestMultiple x n64 = n64.
Proof.
  intros Hv Hle. destruct x as [s|s| |s m e]; try discriminate Hle.
  - destruct s; reflexivity.
  - destruct s; [reflexivity|discriminate Hle].
  - simpl in Hv. destruct s.
    { apply closestMultiple_nonpositive; [assumption|]. right; right; eauto. }
    destruct (bounded_inv m e Hv) as (_ & Hd & Hc).
    destruct (le_pow2_inv m e (-46) Hle) as [He|[-> Hm]].
    + assert (Hz : Js.le (Js.div (S754_finite false m e) n64) one = true).
      { unfold n64, one.
        change 4503599627370496%positive with (Z.to_pos (2 ^ 52)).
        change (-52) with (0 - 52).
        apply div_le_pow2; try assumption; try reflexivity;
          simpl Zdigits2 in *; lia. }
      destruct (div_n64_signed false (S754_finite false m e) Hv)
        as [Hvz Hsz]; [right; right; eauto|].
      destruct Hsz as [Hz0|[Hz0|(mz & ez & Hz0)]]; rewrite Hz0 in Hz, Hvz.
      * destruct (closestMultiple_clamp (S754_finite false m e)) as [-> | ->];
          rewrite Hz0; reflexivity.
      * discriminate Hz.
      * destruct (floor_ceil_le_one mz ez Hvz Hz)
          as [(kf & Hkf & Hf) (kc & Hkc & Hc')].
        destruct (closestMultiple_clamp (S754_finite false m e)) as [-> | ->];
          rewrite Hz0; [rewrite Hf|rewrite Hc']; now apply clamp_zero_or_one.
    + assert (Hd53 : Zdigits2 (Zpos m) = 53) by lia.
      destruct (normal_mantissa m Hd53) as [Hl _].
      assert (Hm52 : Zpos m = 2 ^ 52) by lia.
      replace m with (Z.to_pos (2 ^ 52)); [reflexivity|].
      apply Pos2Z.inj. rewrite Hm52. reflexivity.
Qed.

Lemma closestMultiple_up_to_64_witness :
  closestMultiple (Js.of_Z 7) n64 = n64.
Proof.
  apply (closestMultiple_up_to_64 (Js.of_Z 7)); reflexivity.
Defined.

(** [binary_round] is exact on a mantissa of at most 53 bits in the normal
    range: the mantissa is shifted left to 53 bits. *)
Lemma binary_round_exact_at p E :
  Zdigits2 (Zpos p) <= 53 ->
  -1021 <= Zdigits2 (Zpos p) + E <= 1024 ->
  exists M,
    binary_round Js.prec Js.emax false p E
    = S754_finite false M (Zdigits2 (Zpos p) + E - 53)
    /\ Zpos M = Zpos p * 2 ^ (53 - Zdigits2 (Zpos p))
    /\ Zdigits2 (Zpos M) = 53
    /\ bounded Js.prec Js.emax M (Zdigits2 (Zpos p) + E - 53) = true.
Proof.
  intros Hd Hr. unfold binary_round.
  set (d := Zdigits2 (Zpos p)) in *.
  assert (Hd1 : 1 <= d) by (unfold d; simpl; lia).
  assert (Hf : fexp Js.prec Js.emax (Zpos (digits2_pos p) + E) = d + E - 53).
  { rewrite fexp_eq. change (Zpos (digits2_pos p)) with d. lia. }
  rewrite Hf.
  destruct (shl_align p E (d + E - 53)) as [mz ez] eqn:Hsa.
  assert (Hmz : Zpos mz = Zpos p * 2 ^ (E - (d + E - 53))).
  { rewrite <- (shl_align_spec p E (d + E - 53)) by lia. now rewrite Hsa. }
  assert (Hez : ez = d + E - 53).
  { rewrite <- (shl_align_exp p E (d + E - 53)) by lia. now rewrite Hsa. }
  subst ez. replace (E - (d + E - 53)) with (53 - d) in Hmz by lia.
  assert (Hdz : Zdigits2 (Zpos mz) = 53).
  { rewrite Hmz, Zdigits2_mul_pow2 by lia. fold d. lia. }
  destruct (binary_round_aux_spec false (Zpos mz) (d + E - 53) loc_Exact)
    as (m2 & _ & Hex & ->); [lia|rewrite Hdz, fexp_eq; lia|].
  assert (Hf2 : fexp Js.prec Js.emax (Zdigits2 (Zpos mz) + (d + E - 53))
                = d + E - 53).
  { rewrite Hdz, fexp_eq. lia. }
  rewrite Hf2 in *. rewrite Z.sub_diag in Hex. change (2 ^ 0) with 1 in Hex.
  rewrite Hex; [|reflexivity|apply Z.mod_1_r]. rewrite Z.div_1_r.
  destruct (normal_mantissa mz Hdz) as [Hlz Huz].
  unfold pack, overflow_or.
  destruct (Z.eqb_spec (Zpos mz) 0); [lia|].
  destruct (Z.eqb_spec (Zpos mz) (2 ^ 53)); [lia|].
  destruct (Z.leb_spec (d + E - 53) 971); [|lia].
  exists mz. simpl Z.to_pos.
  repeat split; try assumption. apply bounded_intro; lia.
Qed.

(** The same for [binary_normalize] on a strictly positive integer. *)
Lemma binary_normalize_exact_at k E :
  0 < k -> Zdigits2 k <= 53 -> -1021 <= Zdigits2 k + E <= 1024 ->
  exists M,
    binary_normalize Js.prec Js.emax k E false
    = S754_finite false M (Zdigits2 k + E - 53)
    /\ Zpos M = k * 2 ^ (53 - Zdigits2 k)
    /\ Zdigits2 (Zpos M) = 53
    /\ bounded Js.prec Js.emax M (Zdigits2 k + E - 53) = true.
Proof.
  intros Hk Hd Hr. destruct k as [|p|p]; try lia.
  simpl binary_normalize. now apply binary_round_exact_at.
Qed.

(** Normalised positive numbers are ordered as the integers they
    denote. *)
Lemma lt_normalised a b Ma Mb E :
  0 < a -> 0 < b ->
  Zdigits2 a <= 53 -> Zdigits2 b <= 53 ->
  Zpos Ma = a * 2 ^ (53 - Zdigits2 a) ->
  Zpos Mb = b * 2 ^ (53 - Zdigits2 b) ->
  Js.lt (S754_finite false Ma (Zdigits2 a + E - 53))
        (S754_finite false Mb (Zdigits2 b + E - 53))
  = (a <? b).
Proof.
  intros Ha Hb Hda Hdb HMa HMb.
  destruct (Zdigits2_bounds a Ha) as [Hal Hau].
  destruct (Zdigits2_bounds b Hb) as [Hbl Hbu].
  unfold Js.lt, SFltb. rewrite SFcompare_finite_positive.
  destruct (Z.compare_spec (Zdigits2 a + E - 53) (Zdigits2 b + E - 53))
    as [Heq|Hlt|Hgt].
  - assert (Hd : Zdigits2 a = Zdigits2 b) by lia.
    rewrite Hd in HMa.
    assert (Hp : 0 < 2 ^ (53 - Zdigits2 b)) by (apply Z.pow_pos_nonneg; lia).
    destruct (Pos.compare_spec Ma Mb) as [Hc|Hc|Hc];
      destruct (Z.ltb_spec a b); try reflexivity; exfalso.
    + subst Mb. nia.
    + apply Pos2Z.pos_lt_pos in Hc. nia.
    + apply Pos2Z.pos_lt_pos in Hc. nia.
  - assert (Hab : 2 ^ Zdigits2 a <= 2 ^ (Zdigits2 b - 1))
      by (apply Z.pow_le_mono_r; lia).
    destruct (Z.ltb_spec a b); [reflexivity|lia].
  - assert (Hab : 2 ^ Zdigits2 b <= 2 ^ (Zdigits2 a - 1))
      by (apply Z.pow_le_mono_r; lia).
    destruct (Z.ltb_spec a b); [lia|reflexivity].
Qed.

Lemma exact_value_64 k M :
  0 < k -> Zdigits2 k <= 53 ->
  Zpos M = k * 2 ^ (53 - Zdigits2 k) ->
  exact_value (S754_finite false M (Zdigits2 k - 47)) = Some (64 * k).
Proof.
  intros Hk Hd HM. unfold exact_value, cond_Zopp.
  assert (Hd1 : 1 <= Zdigits2 k).
  { destruct (Zdigits2_bounds k Hk). destruct (Zdigits2 k) eqn:E; try lia.
    simpl in *. lia. }
  destruct (Z.leb_spec 0 (Zdigits2 k - 47)).
  - f_equal. rewrite HM, <- Z.mul_assoc, <- Z.pow_add_r by lia.
    replace (53 - Zdigits2 k + (Zdigits2 k - 47)) with 6 by lia. lia.
  - assert (HM' : Zpos M = 64 * k * 2 ^ (- (Zdigits2 k - 47))).
    { rewrite HM. change 64 with (2 ^ 6).
      rewrite (Z.mul_comm (2 ^ 6) k), <- Z.mul_assoc, <- Z.pow_add_r by lia.
      do 2 f_equal. lia. }
    assert (Hp : 0 < 2 ^ (- (Zdigits2 k - 47)))
      by (apply Z.pow_pos_nonneg; lia).
    rewrite HM', Z.mod_mul by lia. simpl Z.eqb. cbv iota.
    now rewrite Z.div_mul by lia.
Qed.

Lemma sub_finite m1 e1 m2 e2 :
  Js.sub (S754_finite false m1 e1) (S754_finite false m2 e2)
  = binary_normalize Js.prec Js.emax
      (Zpos m1 * 2 ^ (e1 - Z.min e1 e2) - Zpos m2 * 2 ^ (e2 - Z.min e1 e2))
      (Z.min e1 e2) false.
Proof.
  unfold Js.sub, SFsub, cond_Zopp.
  now rewrite !shl_align_spec by lia.
Qed.

Lemma floor_ceil_div_64 m e :
  e < 6 ->
  Js.floor (S754_finite false m (e - 6))
  = binary_normalize Js.prec Js.emax (Zpos m / 2 ^ (6 - e)) 0 false
  /\ Js.ceil (S754_finite false m (e - 6))
     = binary_normalize Js.prec Js.emax (- (- Zpos m / 2 ^ (6 - e))) 0 false.
Proof.
  intros He. unfold Js.floor, Js.ceil, cond_Zopp.
  destruct (Z.leb_spec 0 (e - 6)); [lia|].
  rewrite !Z.shiftr_div_pow2 by lia.
  replace (- (e - 6)) with (6 - e) by lia. split; reflexivity.
Qed.

Lemma integer_times_64 k :
  0 < k -> Zdigits2 k <= 53 ->
  exists M,
    Js.mul (binary_normalize Js.prec Js.emax k 0 false) n64
    = S754_finite false M (Zdigits2 k - 47)
    /\ Zpos M = k * 2 ^ (53 - Zdigits2 k).
Proof.
  intros Hk Hd.
  assert (Hd1 : 1 <= Zdigits2 k).
  { destruct (Zdigits2_bounds k Hk). destruct (Zdigits2 k) eqn:E; try lia.
    simpl in *. lia. }
  destruct (binary_normalize_exact_at k 0 Hk Hd) as (M & -> & HM & HdM & Hb);
    [lia|].
  exists M. split; [|assumption].
  unfold n64. change 4503599627370496%positive with (Z.to_pos (2 ^ 52)).
  rewrite mul_pow2_exact by (try assumption; lia).
  unfold overflow_or.
  destruct (Z.leb_spec (Zdigits2 k + 0 - 53 + -46 + 52) 971); [|lia].
  f_equal. lia.
Qed.

Lemma closestMultiple_rounds m e :
  bounded Js.prec Js.emax m e = true -> -46 <= e < 6 ->
  multiple_of_64 m e = false ->
  exists k M,
    k = (if Zpos m mod 2 ^ (6 - e) <? 2 ^ (6 - e) - Zpos m mod 2 ^ (6 - e)
         then Zpos m / 2 ^ (6 - e) else Zpos m / 2 ^ (6 - e) + 1)
    /\ 0 < k /\ Zdigits2 k <= 53
    /\ closestMultiple (S754_finite false m e) n64
       = S754_finite false M (Zdigits2 k - 47)
    /\ Zpos M = k * 2 ^ (53 - Zdigits2 k).
Proof.
  intros Hb He Hmult.
  destruct (bounded_inv m e Hb) as (_ & _ & Hc).
  assert (Hd : Zdigits2 (Zpos m) = 53) by lia.
  destruct (normal_mantissa m Hd) as [Hm0 Hm1].
  set (D := 2 ^ (6 - e)) in *.
  set (P := 2 ^ (46 + e)).
  assert (HD : 0 < D) by (apply Z.pow_pos_nonneg; lia).
  assert (HP : 0 < P) by (apply Z.pow_pos_nonneg; lia).
  assert (HDP : P * D = 2 ^ 52).
  { unfold P, D. rewrite <- Z.pow_add_r by lia. f_equal. lia. }
  assert (HQ : 2 ^ (47 + e) = 2 * P).
  { unfold P. replace (47 + e) with (Z.succ (46 + e)) by lia.
    apply Z.pow_succ_r. lia. }
  change (2 ^ 53) with (2 * 2 ^ 52) in Hm1.
  set (kf := Zpos m / D) in *. set (r := Zpos m mod D) in *.
  assert (Hdm : Zpos m = D * kf + r) by (apply Z.div_mod; lia).
  assert (Hr0 : 0 <= r < D) by (apply Z.mod_pos_bound; lia).
  assert (Hr : 0 < r).
  { unfold multiple_of_64 in Hmult. apply orb_false_iff in Hmult.
    destruct Hmult as [_ Hmult]. apply Z.eqb_neq in Hmult. fold D r in Hmult.
    lia. }
  assert (Hkf : P <= kf < 2 * P) by nia.
  assert (Hkc : - (- Zpos m / D) = kf + 1).
  { assert (H : - kf - 1 = - Zpos m / D).
    { apply (Z.div_unique _ _ _ (D - r)); [lia|nia]. }
    lia. }
  assert (Hdkf : Zdigits2 kf = 47 + e).
  { apply Zdigits2_unique; [|lia]. rewrite HQ.
    replace (47 + e - 1) with (46 + e) by lia. fold P. lia. }
  assert (Hdkc : 47 + e <= Zdigits2 (kf + 1) <= 48 + e).
  { split.
    - assert (H : 46 + e + 1 <= Zdigits2 (kf + 1)); [|lia].
      apply (Zdigits2_ge (kf + 1) (46 + e)); [lia|]. fold P. lia.
    - apply Zdigits2_le; [lia|].
      replace (48 + e) with (Z.succ (47 + e)) by lia.
      rewrite Z.pow_succ_r, HQ by lia. lia. }
  destruct (integer_times_64 kf) as (Mf & Hlower & HMf); [lia|lia|].
  destruct (integer_times_64 (kf + 1)) as (Mc & Hupper & HMc); [lia|lia|].
  assert (Hpf : Zpos Mf = kf * D).
  { rewrite HMf, Hdkf. unfold D. do 2 f_equal. lia. }
  assert (Hpc : Zpos Mc * 2 ^ (Zdigits2 (kf + 1) - 47 - e) = (kf + 1) * D).
  { rewrite HMc, <- Z.mul_assoc, <- Z.pow_add_r by lia.
    unfold D. do 2 f_equal. lia. }
  assert (Hdr : Zdigits2 r <= 53 /\ Zdigits2 (D - r) <= 53).
  { split; apply Zdigits2_le; try lia; nia. }
  assert (Hdr1 : forall a, 0 < a -> 1 <= Zdigits2 a).
  { intros a Ha. destruct (Zdigits2_bounds a Ha).
    destruct (Zdigits2 a) eqn:E; try lia. simpl in *. lia. }
  pose proof (Hdr1 r Hr). pose proof (Hdr1 (D - r) ltac:(lia)).
  destruct (binary_normalize_exact_at r e Hr) as (M1 & Hn1 & HM1 & _);
    [lia|lia|].
  destruct (binary_normalize_exact_at (D - r) e) as (M2 & Hn2 & HM2 & _);
    [lia|lia|lia|].
  assert (Hs1 : Js.sub (S754_finite false m e)
                  (S754_finite false Mf (Zdigits2 kf - 47))
                = S754_finite false M1 (Zdigits2 r + e - 53)).
  { rewrite sub_finite, Hdkf.
    replace (47 + e - 47) with e by lia.
    rewrite Z.min_id, Z.sub_diag, !Z.mul_1_r, Hpf, <- Hn1.
    f_equal. lia. }
  assert (Hs2 : Js.sub (S754_finite false Mc (Zdigits2 (kf + 1) - 47))
                  (S754_finite false m e)
                = S754_finite false M2 (Zdigits2 (D - r) + e - 53)).
  { rewrite sub_finite.
    replace (Z.min (Zdigits2 (kf + 1) - 47) e) with e by lia.
    rewrite Z.sub_diag, !Z.mul_1_r, Hpc, <- Hn2.
    f_equal. lia. }
  unfold closestMultiple.
  rewrite (div_n64_exact false m e Hb Hd) by lia.
  destruct (floor_ceil_div_64 m e) as [-> ->]; [lia|].
  fold D kf. rewrite Hkc, Hlower, Hupper, Hs1, Hs2.
  rewrite (lt_normalised r (D - r) M1 M2 e) by (assumption || lia).
  destruct (r <? D - r).
  - exists kf, Mf. repeat split; try assumption; lia.
  - exists (kf + 1), Mc. repeat split; try assumption; lia.
Qed.

(** X18.  On a finite number of at least 64, [closestMultiple] rounds to
    the nearest multiple of 64, and to the upper one of two equally near:
    for [x = m * 2 ^ e] with [e < 6] the result is 64 times the integer
    part of [x / 64 + 1 / 2], and it differs from [x] by at most 32.  (For
    [e >= 6] the number is a multiple of 64 itself.)  The distance is
    stated after multiplication by [2 ^ (- e)]. *)
Theorem closestMultiple_nearest m e :
  bounded Js.prec Js.emax m e = true ->
  Js.le n64 (S754_finite false m e) = true ->
  e < 6 ->
  let k := (Zpos m + 2 ^ (5 - e)) / 2 ^ (6 - e) in
  exact_value (closestMultiple (S754_finite false m e) n64) = Some (64 * k)
  /\ - 2 ^ (5 - e) < 2 ^ (6 - e) * k - Zpos m <= 2 ^ (5 - e).
Proof.
  intros Hb Hle He6 k.
  assert (He : -46 <= e).
  { unfold Js.le, SFleb, n64 in Hle. rewrite SFcompare_finite_positive in Hle.
    destruct (Z.compare_spec (-46) e); try lia; discriminate Hle. }
  set (H := 2 ^ (5 - e)) in *. set (D := 2 ^ (6 - e)) in *.
  assert (HH : 0 < H) by (apply Z.pow_pos_nonneg; lia).
  assert (HD : D = 2 * H).
  { unfold D, H. replace (6 - e) with (Z.succ (5 - e)) by lia.
    apply Z.pow_succ_r. lia. }
  assert (Hk : Zpos m + H = D * k + (Zpos m + H) mod D)
    by (apply Z.div_mod; lia).
  assert (Hrho : 0 <= (Zpos m + H) mod D < D) by (apply Z.mod_pos_bound; lia).
  split; [|lia].
  destruct (multiple_of_64 m e) eqn:Hmult.
  - rewrite (closestMultiple_fixed m e Hb Hmult).
    destruct (multiple_of_64_value false m e Hb Hmult) as (c & _ & -> & _ & Hc).
    unfold cond_Zopp. do 2 f_equal.
    assert (HP : 0 < 2 ^ (e + 46)) by (apply Z.pow_pos_nonneg; lia).
    assert (HDP : 2 ^ 52 = D * 2 ^ (e + 46)).
    { unfold D. rewrite <- Z.pow_add_r by lia. f_equal. lia. }
    rewrite HDP in Hc.
    assert (Hm : Zpos m = c * D) by nia.
    unfold k. apply (Z.div_unique _ _ _ H); lia.
  - destruct (closestMultiple_rounds m e Hb ltac:(lia) Hmult)
      as (k' & M & Hk' & Hk0 & Hdk & -> & HM).
    rewrite (exact_value_64 k' M Hk0 Hdk HM). do 2 f_equal.
    fold D in Hk'.
    assert (Hdm : Zpos m = D * (Zpos m / D) + Zpos m mod D)
      by (apply Z.div_mod; lia).
    assert (Hr : 0 <= Zpos m mod D < D) by (apply Z.mod_pos_bound; lia).
    unfold k. destruct (Z.ltb_spec (Zpos m mod D) (D - Zpos m mod D)).
    + subst k'. apply (Z.div_unique _ _ _ (Zpos m mod D + H)); lia.
    + subst k'. apply (Z.div_unique _ _ _ (Zpos m mod D + H - D)); lia.
Qed.

Lemma closestMultiple_nearest_witness :
  exact_value (closestMultiple (Js.of_Z 100) n64) = Some 128.
Proof.
  destruct (closestMultiple_nearest 7036874417766400 (-46) eq_refl eq_refl
              ltac:(lia)) as [H _].
  exact H.
Defined.
